(** * The federation gateway of fastify-gql, embedded in Rocq

    The development follows two source files of the repository:

    - the gateway module (transport, service registry, ownership index,
      resolver dispatcher and the first generation of the selection
      rewriter), embedded in [Module Gateway];
    - [lib/gateway/make-resolver.js] (selection rewriter with fragment
      spreads and per-field type contexts, variable and fragment
      forwarding, the generic [makeResolver]), embedded in
      [Module MakeResolver].

    JavaScript objects are finite maps ([gmap]) where only lookup matters
    and association lists in insertion order where enumeration matters,
    read through [Object_entries]; sets are [gset]; code that may throw
    returns a [result]; a promise is described by the state it finally
    reaches. *)

From stdpp Require Import gmap strings list fin_maps pretty sorting.
From Stdlib Require Import ZArith.

Local Open Scope string_scope.
Local Open Scope list_scope.
Set Warnings "-register-all,-clear-no-such-hyp".

(** ** JavaScript values, exceptions, promises *)

Inductive Exn :=
| TypeError (msg : string)
| SyntaxError (msg : string)
| GraphQLError (msg : string)
| TransportError (code : string).

Inductive result (A : Type) :=
| Ok (a : A)
| Throw (e : Exn).
Arguments Ok {A} a.
Arguments Throw {A} e.

#[global] Instance Exn_eq_dec : EqDecision Exn.
Proof. solve_decision. Defined.

#[global] Instance result_eq_dec `{EqDecision A} : EqDecision (result A).
Proof. solve_decision. Defined.

#[global] Instance result_ret : MRet result := λ A a, Ok a.
#[global] Instance result_bind : MBind result := λ A B f r,
  match r with
  | Ok a => f a
  | Throw e => Throw e
  end.

(** The values that travel as JSON, plus [undefined], which a property
    read produces for a missing key. *)
Inductive JsVal :=
| JUndefined
| JNull
| JBool (b : bool)
| JNumber (z : Z)
| JString (s : string)
| JArray (items : list JsVal)
| JObject (props : list (string * JsVal)).

Fixpoint assoc {A} (k : string) (l : list (string * A)) : option A :=
  match l with
  | [] => None
  | (k', v) :: l' => if decide (k = k') then Some v else assoc k l'
  end.

(** [v[k]] for a string key: a [TypeError] on [undefined] and [null],
    own properties on objects, [undefined] otherwise (prototype
    properties other than an array's [length] are not modelled). *)
Definition get_prop (v : JsVal) (k : string) : result JsVal :=
  match v with
  | JUndefined => Throw (TypeError ("Cannot read property '" +:+ k +:+ "' of undefined"))
  | JNull => Throw (TypeError ("Cannot read property '" +:+ k +:+ "' of null"))
  | JObject props => Ok (default JUndefined (assoc k props))
  | JArray items =>
      if decide (k = "length") then Ok (JNumber (Z.of_nat (length items)))
      else Ok JUndefined
  | _ => Ok JUndefined
  end.

(** [v[i]] for a numeric index. *)
Definition get_index (v : JsVal) (i : nat) : result JsVal :=
  match v with
  | JArray items => Ok (default JUndefined (items !! i))
  | _ => get_prop v (pretty i)
  end.

Inductive Promise (A : Type) :=
| Pending
| Resolved (a : A)
| Rejected (e : Exn).
Arguments Pending {A}.
Arguments Resolved {A} a.
Arguments Rejected {A} e.

(** [p.then(f)] where [f] may throw. *)
Definition then_ {A B} (p : Promise A) (f : A → result B) : Promise B :=
  match p with
  | Pending => Pending
  | Rejected e => Rejected e
  | Resolved a =>
      match f a with
      | Ok b => Resolved b
      | Throw e => Rejected e
      end
  end.

(** An [async] function body that threw before its first [await]. *)
Definition settled {A} (r : result A) : Promise A :=
  match r with
  | Ok a => Resolved a
  | Throw e => Rejected e
  end.

(** ** GraphQL syntax trees, as graphql-js lays them out *)

Inductive Kind := FIELD | FRAGMENT_SPREAD | INLINE_FRAGMENT.

#[global] Instance Kind_eq_dec : EqDecision Kind.
Proof. solve_decision. Defined.

Inductive ValueNode :=
| VARIABLE (name : string)
| Literal (text : string)
| ListValue (values : list ValueNode)
| ObjectValue (fields : list (string * ValueNode)).

Record ArgumentNode := Argument {
  arg_name : string;
  arg_value : ValueNode
}.

Record DirectiveNode := Directive {
  dir_name : string;
  dir_arguments : list ArgumentNode
}.

(** A selection: field, fragment spread or inline fragment.  [name] is
    absent on an inline fragment, [arguments] on a spread, [selectionSet]
    on a leaf. *)
Inductive SelectionNode := Selection {
  kind : Kind;
  alias : option string;
  name : option string;
  arguments : option (list ArgumentNode);
  directives : list DirectiveNode;
  typeCondition : option string;
  selectionSet : option (list SelectionNode)
}.

Inductive TypeNode :=
| NAMED_TYPE (name : string)
| LIST_TYPE (type : TypeNode)
| NON_NULL_TYPE (type : TypeNode).

Record VariableDefinitionNode := VariableDefinition {
  variable : string;
  var_type : TypeNode;
  var_directives : list DirectiveNode
}.

Record OperationDefinitionNode := OperationDefinition {
  operation : string;
  op_name : string;
  variableDefinitions : option (list VariableDefinitionNode);
  op_directives : list DirectiveNode;
  op_selections : list SelectionNode
}.

Record FragmentDefinitionNode := FragmentDefinition {
  frag_name : string;
  frag_typeCondition : string;
  frag_directives : list DirectiveNode;
  frag_selections : list SelectionNode
}.

Record DocumentNode := Document {
  definitions : list OperationDefinitionNode
}.

(** [selection.name.value]: a [TypeError] when [name] is absent. *)
Definition name_value (s : SelectionNode) : result string :=
  match name s with
  | Some n => Ok n
  | None => Throw (TypeError "Cannot read property 'value' of undefined")
  end.

(** The synthetic field both rewriters append. *)
Definition typename_field : SelectionNode :=
  Selection FIELD None (Some "__typename") (Some []) [] None None.

(** [{ ...selection, selectionSet: { kind, selections } }] *)
Definition with_selections (s : SelectionNode) (sels : list SelectionNode) : SelectionNode :=
  Selection (kind s) (alias s) (name s) (arguments s) (directives s)
            (typeCondition s) (Some sels).

(** ** The composed schema, as the dispatcher reads it *)

Inductive TypeKind :=
| ScalarType | ObjectType | InterfaceType | UnionType | EnumType | InputObjectType.

#[global] Instance TypeKind_eq_dec : EqDecision TypeKind.
Proof. solve_decision. Defined.

(** A field's type: wrappers around a named type; the named type object
    carries its own name and kind. *)
Inductive TypeRef :=
| Named (named : string) (named_kind : TypeKind)
| ListOf (inner : TypeRef)
| NonNull (inner : TypeRef).

Fixpoint getNamedType (t : TypeRef) : string * TypeKind :=
  match t with
  | Named n k => (n, k)
  | ListOf t' => getNamedType t'
  | NonNull t' => getNamedType t'
  end.

(** Fields and types are generic in what a [resolve] slot holds. *)
Record GraphQLField (R : Type) := mkField {
  field_name : string;
  field_type : TypeRef;
  resolve : option R
}.
Arguments mkField {R} _ _ _.
Arguments field_name {R} _.
Arguments field_type {R} _.
Arguments resolve {R} _.

Record GraphQLType (R : Type) := mkType {
  type_name : string;
  type_kind : TypeKind;
  type_fields : list (GraphQLField R)
}.
Arguments mkType {R} _ _ _.
Arguments type_name {R} _.
Arguments type_kind {R} _.
Arguments type_fields {R} _.

(** ** What leaves the gateway and what comes back *)

(** The text of the [query] member of a request body: a printed
    operation followed by printed fragment definitions, or a fixed
    text. *)
Inductive QueryText :=
| Printed (doc : DocumentNode) (fragments : list FragmentDefinitionNode)
| Raw (text : string).

(** [JSON.stringify({ query, variables })], kept structured;
    [variables] is absent from the introspection body. *)
Record Body := mkBody {
  query : QueryText;
  variables : option (list (string * JsVal))
}.

Record Response := mkResponse {
  statusCode : Z;
  json : JsVal
}.

(** [selections.filter(keep).map(f)]: the filter runs to its end before
    the map starts, so a throw of [keep] anywhere comes first; the second
    pass maps the retained elements in order. *)
Definition map_retained (keep : SelectionNode → result bool)
           (f : SelectionNode → result SelectionNode)
  : list SelectionNode → result (list SelectionNode) :=
  fix go (l : list SelectionNode) : result (list SelectionNode) :=
    match l with
    | [] => Ok []
    | x :: l' =>
        b ← keep x;
        if b : bool then x' ← f x; r ← go l'; Ok (x' :: r) else go l'
    end.

Definition filter_map (keep : SelectionNode → result bool)
           (f : SelectionNode → result SelectionNode)
           (selections : list SelectionNode) : result (list SelectionNode) :=
  _ ← mapM keep selections;
  map_retained keep f selections.

(** [obj[k] = v] on an object kept in insertion order. *)
Fixpoint obj_set {A} (k : string) (v : A) (o : list (string * A)) : list (string * A) :=
  match o with
  | [] => [(k, v)]
  | (k', v') :: o' => if decide (k = k') then (k, v) :: o' else (k', v') :: obj_set k v o'
  end.

(** *** Enumeration order of an object's keys

    [Object.entries], [Object.values] and [Object.keys] list the keys
    that are array indices first, in ascending numeric order, and then
    the other string keys in insertion order.  An array index is the
    canonical decimal form of an integer below [2^32 - 1]. *)

Definition digit_value (a : Ascii.ascii) : option N :=
  let n := Ascii.N_of_ascii a in
  if (48 <=? n)%N && (n <=? 57)%N then Some (n - 48)%N else None.

Fixpoint decimal_value (acc : N) (s : string) : option N :=
  match s with
  | EmptyString => Some acc
  | String a s' => d ← digit_value a; decimal_value (acc * 10 + d) s'
  end.

Definition array_index (k : string) : option N :=
  match k with
  | EmptyString => None
  | String a rest =>
      n ← decimal_value 0 k;
      if (bool_decide (rest = "") || negb (bool_decide (Ascii.N_of_ascii a = 48%N)))
         && (n <? 4294967295)%N
      then Some n else None
  end.

Definition index_le {A} (x y : N * A) : Prop := (x.1 ≤ y.1)%N.

#[global] Instance index_le_dec {A} (x y : N * A) : Decision (index_le x y).
Proof. unfold index_le. apply _. Defined.

(** [Object.entries(o)] of an object [o] given in insertion order. *)
Definition Object_entries {A} (o : list (string * A)) : list (string * A) :=
  (snd <$> merge_sort index_le
             (omap (λ entry, n ← array_index entry.1; Some (n, entry)) o))
  ++ filter (λ entry, array_index entry.1 = None) o.

(** ** The gateway module *)

Module Gateway.

(** *** Transport: [serviceConfig.request]

    The callback [done] of one request runs with an error (the request's
    ['error'] event, or a failure [end] reports while it writes the
    body) or with a response: a status code and a stream that emits
    ['data'] chunks and ['end'].  The promise keeps the first
    settlement. *)

Inductive StreamEvent := Data (chunk : string) | End.

Inductive ReqEvent :=
| ReqError (err : Exn)
| ReqResponse (status : Z) (stream : list StreamEvent).

Definition resolve_ {A} (p : Promise A) (a : A) : Promise A :=
  match p with Pending => Resolved a | _ => p end.

Definition reject_ {A} (p : Promise A) (e : Exn) : Promise A :=
  match p with Pending => Rejected e | _ => p end.

Section Request.
(** [JSON.parse], a built-in. *)
Variable JSON_parse : string → result JsVal.

(** The two listeners registered on a 200 response's stream; [data] is
    the closure variable they share.  A throw of [JSON.parse] inside
    the ['end'] listener escapes as an uncaught exception and leaves
    the promise as it was. *)
Fixpoint read_stream (status : Z) (data : string) (evs : list StreamEvent)
         (p : Promise Response) : Promise Response :=
  match evs with
  | [] => p
  | Data chunk :: evs' => read_stream status (data +:+ chunk) evs' p
  | End :: evs' =>
      match JSON_parse data with
      | Ok j => read_stream status data evs' (resolve_ p (mkResponse status j))
      | Throw _ => read_stream status data evs' p
      end
  end.

(** The callback [(err, response) => ...] of lines 116-134. *)
Definition on_event (p : Promise Response) (ev : ReqEvent) : Promise Response :=
  match ev with
  | ReqError err => reject_ p err
  | ReqResponse status stream =>
      if decide (status = 200%Z) then read_stream status "" stream p
      else p
  end.

Definition request_promise (evs : list ReqEvent) : Promise Response :=
  foldl on_event Pending evs.
End Request.

(** *** Service registry *)

Record ServiceDescriptor := mkDescriptor {
  svc_name : string;
  url : string
}.

Inductive DefinitionKind :=
| OPERATION_DEFINITION | FRAGMENT_DEFINITION
| SCHEMA_DEFINITION | DIRECTIVE_DEFINITION | SCHEMA_EXTENSION
| SCALAR_TYPE_DEFINITION | OBJECT_TYPE_DEFINITION | INTERFACE_TYPE_DEFINITION
| UNION_TYPE_DEFINITION | ENUM_TYPE_DEFINITION | INPUT_OBJECT_TYPE_DEFINITION
| SCALAR_TYPE_EXTENSION | OBJECT_TYPE_EXTENSION | INTERFACE_TYPE_EXTENSION
| UNION_TYPE_EXTENSION | ENUM_TYPE_EXTENSION | INPUT_OBJECT_TYPE_EXTENSION.

Definition isTypeDefinitionNode (k : DefinitionKind) : bool :=
  match k with
  | SCALAR_TYPE_DEFINITION | OBJECT_TYPE_DEFINITION | INTERFACE_TYPE_DEFINITION
  | UNION_TYPE_DEFINITION | ENUM_TYPE_DEFINITION | INPUT_OBJECT_TYPE_DEFINITION => true
  | _ => false
  end.

Definition isTypeExtensionNode (k : DefinitionKind) : bool :=
  match k with
  | SCALAR_TYPE_EXTENSION | OBJECT_TYPE_EXTENSION | INTERFACE_TYPE_EXTENSION
  | UNION_TYPE_EXTENSION | ENUM_TYPE_EXTENSION | INPUT_OBJECT_TYPE_EXTENSION => true
  | _ => false
  end.

(** A definition of a parsed SDL: [fields] is absent on scalar, union
    and enum definitions. *)
Record DefinitionNode := mkDefinition {
  def_kind : DefinitionKind;
  def_name : string;
  def_fields : option (list string)
}.

(** A bootstrapped entry of [serviceMap]. *)
Record Service := mkService {
  schemaDefinition : string;
  typeMap : gmap string (gset string);
  request : Body → Promise Response
}.

Definition introspection_body : Body :=
  mkBody (Raw "query ServiceInfo { _service { sdl } }") None.

Section Bootstrap.
Variable JSON_parse : string → result JsVal.
(** graphql's [parse], on a string. *)
Variable parse : string → result (list DefinitionNode).
(** What the network does with a request body sent to a url. *)
Variable network : string → Body → list ReqEvent.

(** [parse(schemaDefinition)]: graphql refuses a body that is not a
    string. *)
Definition parse_source (schemaDefinition : JsVal) : result (string * list DefinitionNode) :=
  match schemaDefinition with
  | JString sdl => defs ← parse sdl; Ok (sdl, defs)
  | _ => Throw (GraphQLError "Body must be a string")
  end.

Fixpoint typeMap_of_definitions (defs : list DefinitionNode)
         (typeMap : gmap string (gset string)) : result (gmap string (gset string)) :=
  match defs with
  | [] => Ok typeMap
  | definition :: defs' =>
      if isTypeDefinitionNode (def_kind definition)
         || (isTypeExtensionNode (def_kind definition)
             && bool_decide (def_name definition = "Query"))
      then
        match def_fields definition with
        | Some fields =>
            typeMap_of_definitions defs'
              (<[def_name definition := list_to_set fields]> typeMap)
        | None => Throw (TypeError "Cannot read property 'map' of undefined")
        end
      else typeMap_of_definitions defs' typeMap
  end.

Definition createTypeMap (schemaDefinition : JsVal)
  : result (string * gmap string (gset string)) :=
  '(sdl, defs) ← parse_source schemaDefinition;
  typeMap ← typeMap_of_definitions defs ∅;
  Ok (sdl, typeMap).

Definition service_request (d : ServiceDescriptor) (body : Body) : Promise Response :=
  request_promise JSON_parse (network (url d) body).

(** [serviceConfig.init] *)
Definition init (d : ServiceDescriptor) : Promise (string * gmap string (gset string)) :=
  then_ (service_request d introspection_body) (λ response,
    data ← get_prop (json response) "data";
    _service ← get_prop data "_service";
    sdl ← get_prop _service "sdl";
    createTypeMap sdl).

(** The first loop of [buildServiceMap]: one configuration per name,
    a later service of the same name replacing the earlier one. *)
Definition configs (services : list ServiceDescriptor) : list (string * ServiceDescriptor) :=
  foldl (λ m d, obj_set (svc_name d) d m) [] services.

(** [mapper]: [serviceMap[service.name]] once its [init] has resolved. *)
Definition mapper (services : list ServiceDescriptor) (d : ServiceDescriptor)
  : Promise Service :=
  match assoc (svc_name d) (configs services) with
  | Some c =>
      then_ (init c) (λ '(sdl, typeMap), Ok (mkService sdl typeMap (service_request c)))
  | None => Rejected (TypeError "Cannot read property 'init' of undefined")
  end.

Definition is_resolved {A} (p : Promise A) : bool :=
  match p with Resolved _ => true | _ => false end.

(** p-map with [concurrency: 8] and its default [stopOnError]: mappers
    start in list order, a slot is freed only by a mapper that
    resolves, and the first rejection settles the whole.  The mapper at
    position [k] can start when fewer than 8 of those before it never
    resolve. *)
Definition startable {A} (ps : list (Promise A)) (k : nat) : bool :=
  bool_decide (length (filter (λ p, is_resolved p = false) (take k ps)) < 8).

Definition rejections {A} (ps : list (Promise A)) : list Exn :=
  omap (λ '(k, p), match p with
                   | Rejected e => if startable ps k then Some e else None
                   | _ => None
                   end) (imap (λ k p, (k, p)) ps).

Fixpoint resolved_values {A} (ps : list (Promise A)) : option (list A) :=
  match ps with
  | [] => Some []
  | Resolved a :: ps' => (a ::.) <$> resolved_values ps'
  | _ => None
  end.

(** Every state [pmap(services, mapper, { concurrency: 8 })] can end in;
    which of several rejections comes first is a matter of timing. *)
Definition pmap {A} (ps : list (Promise A)) : list (Promise (list A)) :=
  match rejections ps with
  | [] => match resolved_values ps with
          | Some vs => [Resolved vs]
          | None => [Pending]
          end
  | errs => Rejected <$> errs
  end.

(** [buildServiceMap]: the entries are created in list order, and each
    mapper fills in the entry of its service's name.  The object is
    returned as its entries in insertion order; whoever enumerates it
    does so through [Object_entries]. *)
Definition buildServiceMap (services : list ServiceDescriptor)
  : list (Promise (list (string * Service))) :=
  (λ p, then_ p (λ entries,
      Ok (foldl (λ m '(d, s), obj_set (svc_name d) s m) [] (zip services entries))))
  <$> pmap (mapper services <$> services).
End Bootstrap.

(** *** Ownership index *)

(** What [typeToServiceMap] holds: [null] or a service name; a missing
    key reads as [undefined], here [None]. *)
Inductive Owner := Null | Svc (service : string).

#[global] Instance Owner_eq_dec : EqDecision Owner.
Proof. solve_decision. Defined.

(** Lines 460-466 of [buildGateway]; [serviceDefinition.types] is
    [new Set(Object.keys(typeMap))].  The argument of
    [typeToServiceMap_of] is the list the loop runs over,
    [Object.entries(serviceMap)]. *)
Definition assign_types (service : string) (types : gset string)
           (m : gmap string Owner) : gmap string Owner :=
  set_fold (λ type m, <[type := Svc service]> m) m types.

Definition typeToServiceMap_of (serviceMap : list (string * Service)) : gmap string Owner :=
  <["Query" := Null]>
    (foldl (λ m '(service, serviceDefinition),
              assign_types service (dom (typeMap serviceDefinition)) m)
           ∅ serviceMap).

(** *** Selection rewriter, first generation (lines 199-224) *)

(** [service.typeMap[type].has(selection.name.value)], in evaluation
    order; [service] may be [undefined]. *)
Definition has_field (service : option Service) (type : string)
           (selection : SelectionNode) : result bool :=
  match service with
  | None => Throw (TypeError "Cannot read property 'typeMap' of undefined")
  | Some svc =>
      match typeMap svc !! type with
      | None => Throw (TypeError "Cannot read property 'has' of undefined")
      | Some fields => n ← name_value selection; Ok (bool_decide (n ∈ fields))
      end
  end.

(** The [map] callback: the nested selection set is rewritten under the
    same [type]. *)
Fixpoint rewrite_selection (service : option Service) (type : string)
         (selection : SelectionNode) {struct selection} : result SelectionNode :=
  match selectionSet selection with
  | Some selections =>
      kept ← filter_map (has_field service type) (rewrite_selection service type) selections;
      Ok (with_selections selection (kept ++ [typename_field]))
  | None => Ok selection
  end.

Definition removeNonServiceTypeFields (selections : list SelectionNode)
           (service : option Service) (type : string) : result (list SelectionNode) :=
  kept ← filter_map (has_field service type) (rewrite_selection service type) selections;
  Ok (kept ++ [typename_field]).

(** *** Operation synthesizer, first generation *)

Definition field_node (fieldName : string) (args : option (list ArgumentNode))
           (selections : list SelectionNode) : SelectionNode :=
  Selection FIELD None (Some fieldName) args [] None (Some selections).

Definition createQueryOperation (fieldName : string) (selections : list SelectionNode)
  : DocumentNode :=
  Document [OperationDefinition "query" ("Query_" +:+ fieldName) None []
              [field_node fieldName (Some []) selections]].

Definition representations_definition : VariableDefinitionNode :=
  VariableDefinition "representations"
    (NON_NULL_TYPE (LIST_TYPE (NON_NULL_TYPE (NAMED_TYPE "_Any")))) [].

Definition entities_field (onType : string) (selections : list SelectionNode) : SelectionNode :=
  field_node "_entities"
    (Some [Argument "representations" (VARIABLE "representations")])
    [typename_field;
     Selection INLINE_FRAGMENT None None None [] (Some onType) (Some selections)].

Definition createEntityReferenceResolverOperation (inlineFragmentOnType : string)
           (selections : list SelectionNode) : DocumentNode :=
  Document [OperationDefinition "query" "EntitiesQuery"
              (Some [representations_definition]) []
              [entities_field inlineFragmentOnType selections]].

Definition createFieldResolverOperation (fragmentType fieldName : string)
           (selections : list SelectionNode) : DocumentNode :=
  createEntityReferenceResolverOperation fragmentType
    [field_node fieldName None selections].

(** *** Resolvers *)

Record Info := mkInfo {
  fieldName : string;
  returnType : TypeRef;
  fieldNodes : list SelectionNode
}.

(** [fieldNodes[0].selectionSet.selections] *)
Definition field_selections (info : Info) : result (list SelectionNode) :=
  match fieldNodes info with
  | [] => Throw (TypeError "Cannot read property 'selectionSet' of undefined")
  | node :: _ =>
      match selectionSet node with
      | None => Throw (TypeError "Cannot read property 'selections' of undefined")
      | Some selections => Ok selections
      end
  end.

(** [sendServiceRequest(service, query, variables = {})] *)
Definition sendServiceRequest (service : option Service) (query : DocumentNode)
           (variables : list (string * JsVal)) : result (Promise Response) :=
  match service with
  | None => Throw (TypeError "Cannot read property 'request' of undefined")
  | Some svc => Ok (request svc (mkBody (Printed query []) (Some variables)))
  end.

(** The three closures [defineResolvers] can attach, by what they
    capture; [Other] stands for a resolver that was there before. *)
Inductive Resolver :=
| ResolveQuery (service : option Service)
| FieldResolver (service : option Service) (typeForFragment : string)
| ReferenceResolver (service : option Service)
| Other (tag : string).

Definition makeResolveQuery (service : option Service) : Resolver :=
  ResolveQuery service.

Definition makeFieldResolver (service : option Service) (typeForFragment : string)
  : Resolver := FieldResolver service typeForFragment.

Definition makeReferenceResolver (service : option Service) : Resolver :=
  ReferenceResolver service.

(** What a resolver hands to [sendServiceRequest]. *)
Definition resolver_request (r : Resolver) (parent : JsVal) (info : Info)
  : result (DocumentNode * list (string * JsVal)) :=
  let type := (getNamedType (returnType info)).1 in
  match r with
  | ResolveQuery service =>
      selections ← field_selections info;
      selections ← removeNonServiceTypeFields selections service type;
      Ok (createQueryOperation (fieldName info) selections, [])
  | FieldResolver service typeForFragment =>
      selections ← field_selections info;
      selections ← removeNonServiceTypeFields selections service type;
      Ok (createFieldResolverOperation typeForFragment (fieldName info) selections,
          [("representations", JArray [parent])])
  | ReferenceResolver service =>
      selections ← field_selections info;
      selections ← removeNonServiceTypeFields selections service type;
      field ← get_prop parent (fieldName info);
      Ok (createEntityReferenceResolverOperation type selections,
          [("representations", JArray [field])])
  | Other _ => Throw (TypeError "not a gateway resolver")
  end.

(** The [.then] callback of each resolver. *)
Definition transform (r : Resolver) (info : Info) (response : Response) : result JsVal :=
  match r with
  | ResolveQuery _ =>
      data ← get_prop (json response) "data";
      get_prop data (fieldName info)
  | FieldResolver _ _ =>
      data ← get_prop (json response) "data";
      _entities ← get_prop data "_entities";
      entity ← get_index _entities 0;
      get_prop entity (fieldName info)
  | ReferenceResolver _ =>
      data ← get_prop (json response) "data";
      _entities ← get_prop data "_entities";
      get_index _entities 0
  | Other _ => Throw (TypeError "not a gateway resolver")
  end.

Definition resolver_service (r : Resolver) : option Service :=
  match r with
  | ResolveQuery s | FieldResolver s _ | ReferenceResolver s => s
  | Other _ => None
  end.

(** Calling the function [makeResolveQuery], [makeFieldResolver] or
    [makeReferenceResolver] returned: a synchronous throw, or the
    promise of the field's value. *)
Definition call (r : Resolver) (parent args context : JsVal) (info : Info)
  : result (Promise JsVal) :=
  '(operation, variables) ← resolver_request r parent info;
  p ← sendServiceRequest (resolver_service r) operation variables;
  Ok (then_ p (transform r info)).

(** *** Resolver dispatcher: [defineResolvers] *)

Definition isDefaultType (type : string) : bool :=
  bool_decide (type ∈ ["__Schema"; "__Type"; "__Field"; "__InputValue";
                        "__EnumValue"; "__Directive"]).

(** A property key made of a value read from [typeToServiceMap]. *)
Definition owner_key (o : option Owner) : string :=
  match o with
  | None => "undefined"
  | Some Null => "null"
  | Some (Svc service) => service
  end.

Definition define_field (typeToServiceMap : gmap string Owner)
           (serviceMap : list (string * Service))
           (type : string) (serviceForType : option Owner)
           (field : GraphQLField Resolver) : result (GraphQLField Resolver) :=
  let '(fieldType, fieldKind) := getNamedType (field_type field) in
  if negb (bool_decide (fieldKind = ScalarType)) then
    let serviceForFieldType := typeToServiceMap !! fieldType in
    if bool_decide (serviceForFieldType ≠ serviceForType) then
      if bool_decide (serviceForType = Some Null) then
        Ok (mkField (field_name field) (field_type field)
              (Some (makeResolveQuery (assoc (owner_key serviceForFieldType) serviceMap))))
      else
        match assoc (owner_key serviceForType) serviceMap with
        | None => Throw (TypeError "Cannot read property 'typeMap' of undefined")
        | Some declaring =>
            match typeMap declaring !! type with
            | None => Throw (TypeError "Cannot read property 'has' of undefined")
            | Some fields =>
                if bool_decide (field_name field ∈ fields) then
                  Ok (mkField (field_name field) (field_type field)
                        (Some (makeReferenceResolver
                                 (assoc (owner_key serviceForFieldType) serviceMap))))
                else
                  Ok (mkField (field_name field) (field_type field)
                        (Some (makeFieldResolver
                                 (assoc (owner_key serviceForFieldType) serviceMap) type)))
            end
        end
    else Ok field
  else Ok field.

Definition define_type (typeToServiceMap : gmap string Owner)
           (serviceMap : list (string * Service))
           (type : GraphQLType Resolver) : result (GraphQLType Resolver) :=
  if bool_decide (type_kind type = ObjectType) && negb (isDefaultType (type_name type)) then
    let serviceForType := typeToServiceMap !! type_name type in
    fields ← mapM (define_field typeToServiceMap serviceMap (type_name type) serviceForType)
                  (type_fields type);
    Ok (mkType (type_name type) (type_kind type) fields)
  else Ok type.

(** The schema is the list [Object.values(schema.getTypeMap())]; the
    result carries the [resolve] slots as the loop leaves them. *)
Definition defineResolvers (schema : list (GraphQLType Resolver))
           (typeToServiceMap : gmap string Owner)
           (serviceMap : list (string * Service)) : result (list (GraphQLType Resolver)) :=
  mapM (define_type typeToServiceMap serviceMap) schema.

(** *** [buildGateway] *)

Record GatewayObject := mkGateway {
  gw_schema : list (GraphQLType Resolver);
  gw_serviceMap : list (string * Service)
}.

Section BuildGateway.
Variable JSON_parse : string → result JsVal.
Variable parse : string → result (list DefinitionNode).
Variable network : string → Body → list ReqEvent.
(** The schema composer, [require('./federation')]. *)
Variable buildFederatedSchema : string → result (list (GraphQLType Resolver)).

Definition compose (serviceMap : list (string * Service)) : result GatewayObject :=
  let serviceSDLs := (λ entry, schemaDefinition entry.2) <$> Object_entries serviceMap in
  schema ← buildFederatedSchema (String.concat "" serviceSDLs);
  let typeToServiceMap := typeToServiceMap_of (Object_entries serviceMap) in
  schema ← defineResolvers schema typeToServiceMap serviceMap;
  Ok (mkGateway schema serviceMap).

(** Every state the promise of [buildGateway] can end in. *)
Definition buildGateway (services : list ServiceDescriptor)
  : list (Promise GatewayObject) :=
  (λ p, then_ p compose) <$> buildServiceMap JSON_parse parse network services.
End BuildGateway.

End Gateway.

(** ** [lib/gateway/make-resolver.js] *)

Module MakeResolver.

Record Service := mkService {
  typeMap : gmap string (gset string);
  sendRequest : Body → Promise Response
}.

Definition Schema := list (GraphQLType ()).

(** [schema.getType(type)] *)
Definition getType (schema : Schema) (type : string) : option (GraphQLType ()) :=
  find (λ t, bool_decide (type_name t = type)) schema.

(** Kinds of type object that have a [getFields] method. *)
Definition has_getFields (k : TypeKind) : bool :=
  match k with
  | ObjectType | InterfaceType | InputObjectType => true
  | _ => false
  end.

(** [getNamedType(schema.getType(type).getFields()[fieldName].type)],
    as a type name; [schema] is [undefined] where a caller leaves it
    out. *)
Definition getFieldType (schema : option Schema) (type fieldName : string) : result string :=
  match schema with
  | None => Throw (TypeError "Cannot read property 'getType' of undefined")
  | Some schema =>
      match getType schema type with
      | None => Throw (TypeError "Cannot read property 'getFields' of undefined")
      | Some t =>
          if has_getFields (type_kind t) then
            match find (λ f, bool_decide (field_name f = fieldName)) (type_fields t) with
            | None => Throw (TypeError "Cannot read property 'type' of undefined")
            | Some f => Ok (getNamedType (field_type f)).1
            end
          else Throw (TypeError "getFields is not a function")
      end
  end.

(** The filter callback of line 15. *)
Definition keep (service : Service) (type : string) (selection : SelectionNode)
  : result bool :=
  match typeMap service !! type with
  | None => Throw (TypeError "Cannot read property 'has' of undefined")
  | Some fields =>
      n ← name_value selection;
      Ok (bool_decide (n ∈ fields) || bool_decide (kind selection = FRAGMENT_SPREAD))
  end.

(** The map callback of lines 15-27: the nested selection set is
    rewritten under [getFieldType(schema, type, selection.name.value)]. *)
Fixpoint rewrite_selection (service : Service) (schema : option Schema) (type : string)
         (selection : SelectionNode) {struct selection} : result SelectionNode :=
  match selectionSet selection with
  | Some selections =>
      n ← name_value selection;
      type' ← getFieldType schema type n;
      kept ← filter_map (keep service type') (rewrite_selection service schema type')
                        selections;
      Ok (with_selections selection (kept ++ [typename_field]))
  | None => Ok selection
  end.

Definition removeNonServiceTypeFields (selections : list SelectionNode)
           (service : Service) (type : string) (schema : option Schema)
  : result (list SelectionNode) :=
  kept ← filter_map (keep service type) (rewrite_selection service schema type) selections;
  Ok (kept ++ [typename_field]).

(** *** Operation synthesizer *)

(** The object handed to [createOperation]. *)
Record OperationOptions := mkOptions {
  opt_returnType : string;
  opt_parentType : string;
  opt_fieldName : string;
  opt_selections : list SelectionNode;
  opt_isQuery : bool;
  opt_isReference : bool;
  opt_variableDefinitions : list VariableDefinitionNode;
  opt_args : option (list ArgumentNode);
  opt_operation : string
}.

Definition field_node (fieldName : string) (args : option (list ArgumentNode))
           (selections : list SelectionNode) : SelectionNode :=
  Selection FIELD None (Some fieldName) args [] None (Some selections).

Definition createQueryOperation (o : OperationOptions) : DocumentNode :=
  Document [OperationDefinition (opt_operation o) ("Query_" +:+ opt_fieldName o)
              (Some (opt_variableDefinitions o)) []
              [field_node (opt_fieldName o) (opt_args o) (opt_selections o)]].

Definition representations_definition : VariableDefinitionNode :=
  VariableDefinition "representations"
    (NON_NULL_TYPE (LIST_TYPE (NON_NULL_TYPE (NAMED_TYPE "_Any")))) [].

Definition entities_operation (returnType : string) (selections : list SelectionNode)
           (variableDefinitions : list VariableDefinitionNode) : DocumentNode :=
  Document [OperationDefinition "query" "EntitiesQuery"
              (Some (variableDefinitions ++ [representations_definition])) []
              [field_node "_entities"
                 (Some [Argument "representations" (VARIABLE "representations")])
                 [typename_field;
                  Selection INLINE_FRAGMENT None None None [] (Some returnType)
                            (Some selections)]]].

Definition createEntityReferenceResolverOperation (o : OperationOptions) : DocumentNode :=
  entities_operation (opt_returnType o) (opt_selections o) (opt_variableDefinitions o).

Definition createFieldResolverOperation (o : OperationOptions) : DocumentNode :=
  entities_operation (opt_parentType o)
    [field_node (opt_fieldName o) None (opt_selections o)]
    (opt_variableDefinitions o).

(** *** Variable forwarding *)

Definition is_variable (v : ValueNode) : bool :=
  match v with VARIABLE _ => true | _ => false end.

Definition collectArgumentNames (fieldNode : SelectionNode) : list string :=
  match arguments fieldNode with
  | Some args => arg_name <$> filter (λ argument, is_variable (arg_value argument) = true) args
  | None => []
  end.

Fixpoint collect_in_selection (selection : SelectionNode) : list string :=
  collectArgumentNames selection ++
  match selectionSet selection with
  | Some selections => concat (map collect_in_selection selections)
  | None => []
  end.

Definition collectArgumentsWithVariableValues (selections : list SelectionNode)
  : list string :=
  concat (map collect_in_selection selections).

(** *** Fragment forwarding *)

Fixpoint fragment_names_in (selection : SelectionNode) : result (list string) :=
  here ← (if bool_decide (kind selection = FRAGMENT_SPREAD)
          then n ← name_value selection; Ok [n] else Ok []);
  match selectionSet selection with
  | Some selections =>
      nested ← mapM fragment_names_in selections;
      Ok (here ++ concat nested)
  | None => Ok here
  end.

Definition getFragmentNamesInSelection (selections : list SelectionNode)
  : result (list string) :=
  nested ← mapM fragment_names_in selections; Ok (concat nested).

(** [{ ...fragment, selectionSet: { kind, selections } }] *)
Definition with_fragment_selections (fragment : FragmentDefinitionNode)
           (selections : list SelectionNode) : FragmentDefinitionNode :=
  FragmentDefinition (frag_name fragment) (frag_typeCondition fragment)
                     (frag_directives fragment) selections.

(** [collectFragmentsToInclude] recurses on names found in rewritten
    selections, so its recursion depth is bounded here by [fuel]: [None]
    says the fuel ran out.  Each activation starts from its own empty
    [visitedFragments] (line 238), and the recursive call of line 255
    passes three arguments, leaving [schema] undefined. *)
Fixpoint collectFragmentsToInclude (fuel : nat) (usedFragments : list string)
         (fragments : gmap string FragmentDefinitionNode) (service : Service)
         (schema : option Schema) {struct fuel}
  : option (result (list FragmentDefinitionNode)) :=
  match fuel with
  | 0 => None
  | S fuel' =>
      (fix loop (used : list string) (visitedFragments : gset string)
         : option (result (list FragmentDefinitionNode)) :=
         match used with
         | [] => Some (Ok [])
         | fragmentName :: used' =>
             let visitedFragments := {[fragmentName]} ∪ visitedFragments in
             match fragments !! fragmentName with
             | None => Some (Throw (TypeError "Cannot read property 'selectionSet' of undefined"))
             | Some fragment =>
                 match removeNonServiceTypeFields (frag_selections fragment) service
                         (frag_typeCondition fragment) schema with
                 | Throw e => Some (Throw e)
                 | Ok selections =>
                     match getFragmentNamesInSelection selections with
                     | Throw e => Some (Throw e)
                     | Ok names =>
                         let fragmentsInSelections :=
                           filter (λ fragmentName, fragmentName ∉ visitedFragments) names in
                         match collectFragmentsToInclude fuel' fragmentsInSelections
                                 fragments service None with
                         | None => None
                         | Some (Throw e) => Some (Throw e)
                         | Some (Ok nested) =>
                             match loop used' visitedFragments with
                             | None => None
                             | Some (Throw e) => Some (Throw e)
                             | Some (Ok rest) =>
                                 Some (Ok (with_fragment_selections fragment selections
                                           :: nested ++ rest))
                             end
                         end
                     end
                 end
             end
         end) usedFragments ∅
  end.

(** *** [makeResolver] *)

Record Info := mkInfo {
  fieldNodes : list SelectionNode;
  returnType : TypeRef;
  fieldName : string;
  parentType : string;
  originalOperation : OperationDefinitionNode;
  variableValues : list (string * JsVal);
  fragments : gmap string FragmentDefinitionNode;
  schema : Schema
}.

(** The options object [makeResolver] is called with. *)
Record Config := mkConfig {
  service : Service;
  createOperation : OperationOptions → DocumentNode;
  transformData : Response → result JsVal;
  isQuery : bool;
  isReference : bool
}.

(** Lines 289-291: the names in [variableNamesToDefine]. *)
Definition variableNamesToDefine (selections : list SelectionNode)
           (fieldNode : SelectionNode) : gset string :=
  list_to_set (collectArgumentsWithVariableValues selections)
  ∪ list_to_set (collectArgumentNames fieldNode).

(** Line 292 *)
Definition variablesToDefine (names : gset string)
           (variableDefinitions : list VariableDefinitionNode)
  : list VariableDefinitionNode :=
  filter (λ definition, variable definition ∈ names) variableDefinitions.

(** Lines 318-331: the [variables] object of the payload. *)
Definition forwarded_variables (names : gset string)
           (variableValues : list (string * JsVal)) : list (string * JsVal) :=
  filter (λ entry, entry.1 ∈ names) variableValues.

Definition payload_variables (cfg : Config) (names : gset string) (parent : JsVal)
           (info : Info) : result (list (string * JsVal)) :=
  let variables := forwarded_variables names (variableValues info) in
  if isReference cfg then
    field ← get_prop parent (fieldName info);
    Ok (obj_set "representations" (JArray [field]) variables)
  else if negb (isQuery cfg) then
    Ok (obj_set "representations" (JArray [parent]) variables)
  else Ok variables.

(** The body the returned resolver passes to [service.sendRequest];
    [None] when fragment collection runs out of [fuel]. *)
Definition resolver_body (fuel : nat) (cfg : Config) (parent : JsVal) (info : Info)
  : option (result Body) :=
  match fieldNodes info with
  | [] => Some (Throw (TypeError "Cannot read property 'selectionSet' of undefined"))
  | fieldNode :: _ =>
      match selectionSet fieldNode with
      | None => Some (Throw (TypeError "Cannot read property 'selections' of undefined"))
      | Some fieldSelections =>
          let type := (getNamedType (returnType info)).1 in
          match removeNonServiceTypeFields fieldSelections (service cfg) type
                  (Some (schema info)) with
          | Throw e => Some (Throw e)
          | Ok selections =>
              let names := variableNamesToDefine selections fieldNode in
              match variableDefinitions (originalOperation info) with
              | None => Some (Throw (TypeError "Cannot read property 'filter' of undefined"))
              | Some definitions =>
                  let operation := createOperation cfg
                    (mkOptions type (parentType info) (fieldName info) selections
                       (isQuery cfg) (isReference cfg)
                       (variablesToDefine names definitions)
                       (arguments fieldNode)
                       (operation (originalOperation info))) in
                  match getFragmentNamesInSelection selections with
                  | Throw e => Some (Throw e)
                  | Ok usedFragments =>
                      match collectFragmentsToInclude fuel usedFragments (fragments info)
                              (service cfg) (Some (schema info)) with
                      | None => None
                      | Some (Throw e) => Some (Throw e)
                      | Some (Ok fragmentsToDefine) =>
                          Some (variables ← payload_variables cfg names parent info;
                                Ok (mkBody (Printed operation fragmentsToDefine)
                                           (Some variables)))
                      end
                  end
              end
          end
      end
  end.

(** The function [makeResolver] returns, applied. *)
Definition makeResolver (fuel : nat) (cfg : Config) (parent args context : JsVal)
           (info : Info) : option (result (Promise JsVal)) :=
  match resolver_body fuel cfg parent info with
  | None => None
  | Some (Throw e) => Some (Throw e)
  | Some (Ok body) => Some (Ok (then_ (sendRequest (service cfg) body) (transformData cfg)))
  end.

(** The three configurations the header comment of [makeResolver]
    names. *)
Inductive ResolverKind := RootDelegate | EntityReference | FieldResolver.

Definition kind_isQuery (k : ResolverKind) : bool :=
  match k with RootDelegate => true | _ => false end.

Definition kind_isReference (k : ResolverKind) : bool :=
  match k with EntityReference => true | _ => false end.

End MakeResolver.

(** * Vocabulary of the statements *)

(** The services of [serviceMap] whose typeMap has the key [type], in
    [Object.entries] order. *)
Definition declaring (serviceMap : list (string * Gateway.Service)) (type : string)
  : list string :=
  fst <$> filter (λ entry, type ∈ dom (Gateway.typeMap entry.2)) serviceMap.

(** The text accumulated in [data] by the chunks of a stream prefix,
    starting from [data0]. *)
Definition stream_data_from (data0 : string) (evs : list Gateway.StreamEvent) : string :=
  foldl (λ data ev, match ev with
                    | Gateway.Data chunk => data +:+ chunk
                    | Gateway.End => data
                    end) data0 evs.

Definition stream_data : list Gateway.StreamEvent → string := stream_data_from "".

Definition is_settled {A} (p : Promise A) : Prop := p ≠ Pending.

(** The object types of GraphQL's introspection schema, which section
    4.3 leaves out. *)
Definition introspection_meta_types : list string :=
  ["__Schema"; "__Type"; "__Field"; "__InputValue"; "__EnumValue"; "__Directive"].

(** A crossing field, in the words of section 4.3: it sits on an object
    type that is not an introspection meta-type, its named return type
    is not a scalar, and the owner of the return type differs from the
    owner of the declaring type. *)
Definition crossing (typeToServiceMap : gmap string Gateway.Owner)
           (type : GraphQLType Gateway.Resolver)
           (field : GraphQLField Gateway.Resolver) : Prop :=
  type_kind type = ObjectType
  ∧ (type_name type ∉ introspection_meta_types)
  ∧ (getNamedType (field_type field)).2 ≠ ScalarType
  ∧ typeToServiceMap !! (getNamedType (field_type field)).1
    ≠ typeToServiceMap !! type_name type.

#[global] Instance crossing_dec m type field : Decision (crossing m type field).
Proof. unfold crossing. apply _. Defined.

(** The service a delegating resolver is bound to: the entry of
    [serviceMap] under the return type's owner. *)
Definition target (typeToServiceMap : gmap string Gateway.Owner)
           (serviceMap : list (string * Gateway.Service))
           (field : GraphQLField Gateway.Resolver) : option Gateway.Service :=
  assoc (Gateway.owner_key (typeToServiceMap !! (getNamedType (field_type field)).1))
        serviceMap.

Definition with_resolver (field : GraphQLField Gateway.Resolver) (r : Gateway.Resolver)
  : GraphQLField Gateway.Resolver :=
  mkField (field_name field) (field_type field) (Some r).

(** The classification of section 4.3, one case per row. *)
Inductive attached (typeToServiceMap : gmap string Gateway.Owner)
          (serviceMap : list (string * Gateway.Service))
          (type : GraphQLType Gateway.Resolver) (field : GraphQLField Gateway.Resolver)
  : GraphQLField Gateway.Resolver → Prop :=
| attached_none :
    ¬ crossing typeToServiceMap type field →
    attached typeToServiceMap serviceMap type field field
| attached_root_delegated :
    crossing typeToServiceMap type field →
    typeToServiceMap !! type_name type = Some Gateway.Null →
    attached typeToServiceMap serviceMap type field
      (with_resolver field (Gateway.ResolveQuery (target typeToServiceMap serviceMap field)))
| attached_entity_reference declaringService fields :
    crossing typeToServiceMap type field →
    typeToServiceMap !! type_name type ≠ Some Gateway.Null →
    assoc (Gateway.owner_key (typeToServiceMap !! type_name type)) serviceMap
    = Some declaringService →
    Gateway.typeMap declaringService !! type_name type = Some fields →
    field_name field ∈ fields →
    attached typeToServiceMap serviceMap type field
      (with_resolver field
         (Gateway.ReferenceResolver (target typeToServiceMap serviceMap field)))
| attached_field_resolver declaringService fields :
    crossing typeToServiceMap type field →
    typeToServiceMap !! type_name type ≠ Some Gateway.Null →
    assoc (Gateway.owner_key (typeToServiceMap !! type_name type)) serviceMap
    = Some declaringService →
    Gateway.typeMap declaringService !! type_name type = Some fields →
    field_name field ∉ fields →
    attached typeToServiceMap serviceMap type field
      (with_resolver field
         (Gateway.FieldResolver (target typeToServiceMap serviceMap field)
                                (type_name type))).

(** The schema after the dispatcher, type by type and field by field. *)
Definition dispatched (typeToServiceMap : gmap string Gateway.Owner)
           (serviceMap : list (string * Gateway.Service))
           (schema schema' : list (GraphQLType Gateway.Resolver)) : Prop :=
  Forall2 (λ type type',
             type_name type' = type_name type
             ∧ type_kind type' = type_kind type
             ∧ Forall2 (attached typeToServiceMap serviceMap type)
                       (type_fields type) (type_fields type'))
          schema schema'.

(** What the dispatcher needs in order not to throw: the declaring
    service of every crossing field off [Query] is an entry of
    [serviceMap] whose typeMap has the declaring type. *)
Definition dispatchable (typeToServiceMap : gmap string Gateway.Owner)
           (serviceMap : list (string * Gateway.Service))
           (schema : list (GraphQLType Gateway.Resolver)) : Prop :=
  ∀ type field,
    type ∈ schema → field ∈ type_fields type →
    crossing typeToServiceMap type field →
    typeToServiceMap !! type_name type ≠ Some Gateway.Null →
    ∃ declaringService,
      assoc (Gateway.owner_key (typeToServiceMap !! type_name type)) serviceMap
      = Some declaringService
      ∧ is_Some (Gateway.typeMap declaringService !! type_name type).

(** The variable names an argument value refers to, a variable nested in
    a list or object value included. *)
Fixpoint variables_of_value (v : ValueNode) : list string :=
  match v with
  | VARIABLE n => [n]
  | Literal _ => []
  | ListValue values => concat (map variables_of_value values)
  | ObjectValue fields =>
      concat (map (λ f, match f with (_, v') => variables_of_value v' end) fields)
  end.

Definition variables_of_arguments (args : option (list ArgumentNode)) : list string :=
  match args with
  | Some args => concat (map (λ a, variables_of_value (arg_value a)) args)
  | None => []
  end.

(** The variable names referenced by the arguments of a selection and
    of everything nested in it. *)
Fixpoint variables_of_selection (s : SelectionNode) : list string :=
  variables_of_arguments (arguments s) ++
  match selectionSet s with
  | Some selections => concat (map variables_of_selection selections)
  | None => []
  end.

(** The variables section 4.5 asks a sub-operation to declare: those
    referenced by the pruned selections and those referenced by the
    originating field's own arguments. *)
Definition referenced_variables (selections : list SelectionNode)
           (fieldNode : SelectionNode) : gset string :=
  list_to_set (concat (map variables_of_selection selections))
  ∪ list_to_set (variables_of_arguments (arguments fieldNode)).

(** The variables an operation declares. *)
Definition declared_variables (op : OperationDefinitionNode) : gset string :=
  list_to_set (variable <$> default [] (variableDefinitions op)).

(** Section 4.4 in relational form.  A selection is retained when its
    field name is in the owned-field set of the current type or when it
    is a fragment spread. *)
Definition retained (fields : gset string) (selection : SelectionNode) : Prop :=
  ∃ n, name selection = Some n ∧ (n ∈ fields ∨ kind selection = FRAGMENT_SPREAD).

#[global] Instance retained_dec fields selection : Decision (retained fields selection).
Proof.
  unfold retained. destruct (name selection) as [n|].
  - destruct (decide (n ∈ fields ∨ kind selection = FRAGMENT_SPREAD)) as [Hyes|Hno].
    + left. by exists n.
    + right. intros (n' & [= <-] & Hor). by destruct Hno.
  - right. intros (n & Hn & _). discriminate Hn.
Defined.

Definition owned_fields (typeMap : gmap string (gset string)) (type : string) : gset string :=
  default ∅ (typeMap !! type).

(** [pruned type selections out]: [out] is the retained selections, in
    order, each with its nested selection set pruned under the declared
    return type of its field, followed by one [__typename]. *)
Inductive pruned (typeMap : gmap string (gset string)) (schema : option MakeResolver.Schema)
  : string → list SelectionNode → list SelectionNode → Prop :=
| pruned_level type selections kept :
    Forall2 (pruned_selection typeMap schema type)
            (filter (retained (owned_fields typeMap type)) selections) kept →
    pruned typeMap schema type selections (kept ++ [typename_field])
with pruned_selection (typeMap : gmap string (gset string))
                      (schema : option MakeResolver.Schema)
  : string → SelectionNode → SelectionNode → Prop :=
| pruned_leaf type selection :
    selectionSet selection = None →
    pruned_selection typeMap schema type selection selection
| pruned_nested type selection n type' nested nested' :
    selectionSet selection = Some nested →
    name selection = Some n →
    MakeResolver.getFieldType schema type n = Ok type' →
    pruned typeMap schema type' nested nested' →
    pruned_selection typeMap schema type selection (with_selections selection nested').

(** Input the rewriter of [make-resolver.js] accepts: every selection has
    a name (there is no inline fragment), the current type is a key of
    the typeMap wherever a selection is tested against it, and every
    retained selection that has a nested set names a field whose return
    type the schema tells, under which the nested set is accepted in
    turn. *)
Inductive rewritable (typeMap : gmap string (gset string))
          (schema : option MakeResolver.Schema)
  : string → list SelectionNode → Prop :=
| rewritable_level type selections :
    (selections ≠ [] → is_Some (typeMap !! type)) →
    Forall (rewritable_selection typeMap schema type) selections →
    rewritable typeMap schema type selections
with rewritable_selection (typeMap : gmap string (gset string))
                          (schema : option MakeResolver.Schema)
  : string → SelectionNode → Prop :=
| rewritable_dropped type selection n :
    name selection = Some n →
    ¬ retained (owned_fields typeMap type) selection →
    rewritable_selection typeMap schema type selection
| rewritable_leaf type selection n :
    name selection = Some n →
    selectionSet selection = None →
    rewritable_selection typeMap schema type selection
| rewritable_nested type selection n nested type' :
    name selection = Some n →
    selectionSet selection = Some nested →
    MakeResolver.getFieldType schema type n = Ok type' →
    rewritable typeMap schema type' nested →
    rewritable_selection typeMap schema type selection.

(** * Concrete inputs *)

Module Fixtures.
Import Gateway.

(** A [JSON.parse] restricted to the one text the examples receive. *)
Definition parse_empty_object (text : string) : result JsVal :=
  if decide (text = "{}") then Ok (JObject [])
  else Throw (SyntaxError "Unexpected token").

(** Two bootstraps of the same pair of services.  A healthy service
    answers the introspection query with its SDL; a service whose answer
    is [{}] has no [data]. *)
Definition dq : string := String (Ascii.ascii_of_nat 34) EmptyString.

Definition product_sdl : string := "type Product { id: ID! }".

Definition healthy_text : string :=
  "{" +:+ dq +:+ "data" +:+ dq +:+ ":{" +:+ dq +:+ "_service" +:+ dq +:+ ":{"
  +:+ dq +:+ "sdl" +:+ dq +:+ ":" +:+ dq +:+ product_sdl +:+ dq +:+ "}}}".

(** [JSON.parse] on the two texts of the bootstraps. *)
Definition parse_json (text : string) : result JsVal :=
  if decide (text = "{}") then Ok (JObject [])
  else if decide (text = healthy_text) then
    Ok (JObject [("data", JObject [("_service", JObject [("sdl", JString product_sdl)])])])
  else Throw (SyntaxError "Unexpected token").

(** graphql's [parse] on the one SDL of the bootstraps. *)
Definition parse_sdl (sdl : string) : result (list DefinitionNode) :=
  if decide (sdl = product_sdl)
  then Ok [mkDefinition OBJECT_TYPE_DEFINITION "Product" (Some ["id"])]
  else Throw (GraphQLError "Syntax Error").

Definition compose_nothing (sdl : string) : result (list (GraphQLType Resolver)) := Ok [].

Definition service_a : ServiceDescriptor := mkDescriptor "a" "http://a.internal/graphql".
Definition service_b : ServiceDescriptor := mkDescriptor "b" "http://b.internal/graphql".

Definition answers (text : string) : list ReqEvent :=
  [ReqResponse 200 [Data text; End]].



(** A service that declares [type Mutation] itself. *)
Definition users_service : Service :=
  Gateway.mkService "type Mutation { addUser: User } type User { id: ID }"
    {[ "Mutation" := {[ "addUser" ]}; "User" := {[ "id" ]} ]}
    (λ _, Pending).


(** The scenario of the specification's last testable property, with an
    [author] reference added: the reviews service owns [Query.reviews]
    and [Review], the products service owns [Product] and extends
    [Review] with [product]. *)
Definition reviews_service : Service :=
  Gateway.mkService "type Query { reviews: [Review] } type Review { id: ID! productId: ID! author: User }"
    {[ "Query" := {[ "reviews" ]};
       "Review" := {[ "id"; "productId"; "author" ]} ]}
    (λ _, Pending).

Definition products_service : Service :=
  Gateway.mkService "type Product { id: ID! name: String } extend type Review { product: Product }"
    {[ "Product" := {[ "id"; "name" ]} ]}
    (λ _, Pending).

Definition scenario_serviceMap : list (string * Service) :=
  [("reviews", reviews_service); ("products", products_service);
   ("users", users_service)].

Definition ID : TypeRef := NonNull (Named "ID" ScalarType).

Definition scenario_schema : list (GraphQLType Resolver) :=
  [mkType "Query" ObjectType
     [mkField "reviews" (ListOf (Named "Review" ObjectType)) None];
   mkType "Review" ObjectType
     [mkField "id" ID None; mkField "productId" ID None;
      mkField "author" (Named "User" ObjectType) None;
      mkField "product" (Named "Product" ObjectType) None];
   mkType "Product" ObjectType
     [mkField "id" ID None; mkField "name" (Named "String" ScalarType) None];
   mkType "User" ObjectType [mkField "id" ID None];
   mkType "__Type" ObjectType [mkField "ofType" (Named "__Type" ObjectType) None]].


(** Resolution of [Review.product] and of [Review.author] for the review
    with id 7, against services that answer. *)
Definition review_7 : JsVal :=
  JObject [("__typename", JString "Review"); ("id", JString "7");
           ("author", JObject [("__typename", JString "User"); ("id", JString "3")])].

Definition leaf (fieldName : string) : SelectionNode :=
  Selection FIELD None (Some fieldName) (Some []) [] None None.

Definition spread (fragmentName : string) : SelectionNode :=
  Selection FRAGMENT_SPREAD None (Some fragmentName) None [] None None.

Definition answering (typeMap : gmap string (gset string)) (data : JsVal) : Service :=
  Gateway.mkService "" typeMap (λ _, Resolved (mkResponse 200 (JObject [("data", data)]))).

Definition chair : JsVal :=
  JObject [("name", JString "Chair"); ("__typename", JString "Product")].

Definition products_answering : Service :=
  answering {[ "Product" := {[ "id"; "name" ]} ]}
    (JObject [("_entities",
               JArray [JObject [("__typename", JString "Review"); ("product", chair)]])]).

Definition product_info : Info :=
  mkInfo "product" (Named "Product" ObjectType)
    [Selection FIELD None (Some "product") (Some []) [] None (Some [leaf "name"])].




Definition reviews_answering : Service :=
  answering {[ "Query" := {[ "reviews" ]}; "Review" := {[ "id"; "productId"; "author" ]} ]}
    (JObject [("reviews", JArray [JObject [("id", JString "7")]])]).



(** A service of the gateway module that owns [User] and [Address]. *)
Definition profiles_service : Service :=
  Gateway.mkService
    "type User { id: ID! name: String address: Address } type Address { city: String }"
    {[ "User" := {[ "id"; "name"; "address" ]}; "Address" := {[ "city" ]} ]}
    (λ _, Pending).

(** [{ address { city } }] *)
Definition address_city : SelectionNode :=
  Selection FIELD None (Some "address") (Some []) [] None (Some [leaf "city"]).

(** *** Inputs of [make-resolver.js] *)

Definition mr_users : MakeResolver.Service :=
  MakeResolver.mkService
    {[ "Query" := {[ "user"; "me" ]};
       "User" := {[ "id"; "name"; "address" ]};
       "Address" := {[ "city" ]} ]}
    (λ _, Resolved (mkResponse 200 (JObject [("data", JObject [("user", JNull)])]))).

Definition mr_schema : MakeResolver.Schema :=
  [mkType "Query" ObjectType
     [mkField "user" (Named "User" ObjectType) None;
      mkField "me" (Named "User" ObjectType) None];
   mkType "User" ObjectType
     [mkField "id" ID None; mkField "name" (Named "String" ScalarType) None;
      mkField "address" (Named "Address" ObjectType) None];
   mkType "Address" ObjectType [mkField "city" (Named "String" ScalarType) None]].

(** [query GetUser($userId: ID!) { user(id: $userId) { name } }] *)
Definition user_field : SelectionNode :=
  Selection FIELD None (Some "user") (Some [Argument "id" (VARIABLE "userId")]) [] None
            (Some [leaf "name"]).

Definition GetUser : OperationDefinitionNode :=
  OperationDefinition "query" "GetUser"
    (Some [VariableDefinition "userId" (NON_NULL_TYPE (NAMED_TYPE "ID")) []]) []
    [user_field].

Definition GetUser_info : MakeResolver.Info :=
  MakeResolver.mkInfo [user_field] (Named "User" ObjectType) "user" "Query" GetUser
    [("userId", JString "1")] ∅ mr_schema.

(** [query Swap($id: ID!, $other: ID!) { user(id: $other) { name } }] *)
Definition swapped_field : SelectionNode :=
  Selection FIELD None (Some "user") (Some [Argument "id" (VARIABLE "other")]) [] None
            (Some [leaf "name"]).

Definition Swap : OperationDefinitionNode :=
  OperationDefinition "query" "Swap"
    (Some [VariableDefinition "id" (NON_NULL_TYPE (NAMED_TYPE "ID")) [];
           VariableDefinition "other" (NON_NULL_TYPE (NAMED_TYPE "ID")) []]) []
    [swapped_field].

Definition Swap_info : MakeResolver.Info :=
  MakeResolver.mkInfo [swapped_field] (Named "User" ObjectType) "user" "Query" Swap
    [("id", JString "1"); ("other", JString "2")] ∅ mr_schema.

Definition transform_root (fieldName : string) (response : Response) : result JsVal :=
  data ← get_prop (json response) "data"; get_prop data fieldName.

Definition transform_entity (response : Response) : result JsVal :=
  data ← get_prop (json response) "data";
  _entities ← get_prop data "_entities";
  get_index _entities 0.

Definition mr_config (k : MakeResolver.ResolverKind) : MakeResolver.Config :=
  MakeResolver.mkConfig mr_users
    match k with
    | MakeResolver.RootDelegate => MakeResolver.createQueryOperation
    | MakeResolver.EntityReference => MakeResolver.createEntityReferenceResolverOperation
    | MakeResolver.FieldResolver => MakeResolver.createFieldResolverOperation
    end
    match k with
    | MakeResolver.RootDelegate => transform_root "user"
    | _ => transform_entity
    end
    (MakeResolver.kind_isQuery k) (MakeResolver.kind_isReference k).

(** [fragment A on User { ...B }] and [fragment B on User { ...A }] *)
Definition fragment_A : FragmentDefinitionNode :=
  FragmentDefinition "A" "User" [] [spread "B"].

Definition fragment_B : FragmentDefinitionNode :=
  FragmentDefinition "B" "User" [] [spread "A"].

Definition cyclic_fragments : gmap string FragmentDefinitionNode :=
  {[ "A" := fragment_A; "B" := fragment_B ]}.

(** [fragment S on User { name ...S }] *)
Definition fragment_S : FragmentDefinitionNode :=
  FragmentDefinition "S" "User" [] [leaf "name"; spread "S"].

Definition self_fragments : gmap string FragmentDefinitionNode :=
  {[ "S" := fragment_S ]}.

(** A parent object whose [user] member is an entity reference. *)
Definition parent_with_user : JsVal :=
  JObject [("__typename", JString "Review");
           ("user", JObject [("__typename", JString "User"); ("id", JString "1")])].

End Fixtures.

(** * Vocabulary and inputs of the further properties *)

(** A definition [createTypeMap] records: a type definition, or an
    extension of [Query]. *)
Definition recorded (definition : Gateway.DefinitionNode) : Prop :=
  Gateway.isTypeDefinitionNode (Gateway.def_kind definition) = true
  ∨ (Gateway.isTypeExtensionNode (Gateway.def_kind definition) = true
     ∧ Gateway.def_name definition = "Query").

#[global] Instance recorded_dec definition : Decision (recorded definition).
Proof. unfold recorded. apply _. Defined.

(** The recorded definitions of a document that bear a given name, in
    document order. *)
Definition recorded_as (name : string) (defs : list Gateway.DefinitionNode)
  : list Gateway.DefinitionNode :=
  filter (λ definition, recorded definition ∧ Gateway.def_name definition = name) defs.

Definition field_set (definition : Gateway.DefinitionNode) : option (gset string) :=
  list_to_set <$> Gateway.def_fields definition.



(** What the rewriters leave untouched on a selection they retain. *)
Definition same_head (selection selection' : SelectionNode) : Prop :=
  kind selection' = kind selection
  ∧ alias selection' = alias selection
  ∧ name selection' = name selection
  ∧ arguments selection' = arguments selection
  ∧ directives selection' = directives selection
  ∧ typeCondition selection' = typeCondition selection.

(** No selection set, at any depth, is empty: what graphql's parser
    guarantees of a document. *)
Fixpoint no_empty_set (selection : SelectionNode) : bool :=
  match selectionSet selection with
  | None => true
  | Some [] => false
  | Some selections => forallb no_empty_set selections
  end.

(** An argument that passes a variable passes the variable that bears
    the argument's own name, as in [user(id: $id)]; any other value holds
    no variable. *)
Definition variable_named_as_argument (argument : ArgumentNode) : bool :=
  match arg_value argument with
  | VARIABLE v => bool_decide (v = arg_name argument)
  | v => bool_decide (variables_of_value v = [])
  end.

Fixpoint same_named_variables (selection : SelectionNode) : bool :=
  forallb variable_named_as_argument (default [] (arguments selection))
  && match selectionSet selection with
     | Some selections => forallb same_named_variables selections
     | None => true
     end.

(** The variables the field arguments of an operation refer to. *)
Definition operation_variables (op : OperationDefinitionNode) : list string :=
  concat (map variables_of_selection (op_selections op)).

(** The variables the field arguments of a fragment definition refer
    to, and those of a whole printed document: its operation and the
    fragment definitions appended to it. *)
Definition fragment_variables (fragment : FragmentDefinitionNode) : list string :=
  concat (map variables_of_selection (frag_selections fragment)).


(** No fragment spread, at any depth. *)
Fixpoint spread_free (selection : SelectionNode) : bool :=
  negb (bool_decide (kind selection = FRAGMENT_SPREAD))
  && match selectionSet selection with
     | Some selections => forallb spread_free selections
     | None => true
     end.

Module MoreFixtures.
Import Gateway.

(** Two services that only extend [Mutation]:
    [extend type Mutation { addProduct: Product }] is recorded in no
    typeMap, so [Mutation] has no owner. *)
Definition extending_serviceMap : list (string * Service) :=
  [("reviews", Fixtures.reviews_service); ("products", Fixtures.products_service)].

Definition addProduct : GraphQLField Resolver :=
  mkField "addProduct" (Named "Product" ObjectType) None.

Definition mutation_schema : list (GraphQLType Resolver) :=
  [mkType "Mutation" ObjectType [addProduct]].

(** graphql's [parse] on [enum Role { ADMIN } type User { role: Role }]. *)
Definition role_sdl : string := "enum Role { ADMIN } type User { role: Role }".

Definition parse_role_sdl (sdl : string) : result (list DefinitionNode) :=
  if decide (sdl = role_sdl)
  then Ok [mkDefinition ENUM_TYPE_DEFINITION "Role" None;
           mkDefinition OBJECT_TYPE_DEFINITION "User" (Some ["role"])]
  else Throw (GraphQLError "Syntax Error").

(** Two services listed under one name, at two urls; only the second
    url answers. *)
Definition billing_old : ServiceDescriptor := mkDescriptor "billing" "http://old.internal/graphql".
Definition billing_new : ServiceDescriptor := mkDescriptor "billing" "http://new.internal/graphql".

Definition network_new_only (url : string) (body : Body) : list ReqEvent :=
  if decide (url = "http://new.internal/graphql") then Fixtures.answers Fixtures.healthy_text
  else [ReqError (TransportError "ECONNREFUSED")].

(** A network on which [a] answers 503 and [b] is healthy. *)
Definition network_a_unavailable (url : string) (body : Body) : list ReqEvent :=
  if decide (url = "http://a.internal/graphql") then [ReqResponse 503 [Data "busy"; End]]
  else Fixtures.answers Fixtures.healthy_text.

(** A service whose name is an array index: [Object.entries] lists it
    before [b], whenever it was inserted. *)
Definition service_2 : ServiceDescriptor := mkDescriptor "2" "http://two.internal/graphql".

(** A network on which every service is healthy, and the schema the
    composer makes of [type Product { id: ID! }]. *)
Definition network_healthy (url : string) (body : Body) : list ReqEvent :=
  Fixtures.answers Fixtures.healthy_text.

Definition compose_product (sdl : string) : result (list (GraphQLType Resolver)) :=
  Ok [mkType "Query" ObjectType [mkField "product" (Named "Product" ObjectType) None];
      mkType "Product" ObjectType [mkField "id" Fixtures.ID None]].

(** [mutation { reviews(first: $n) { id } }], as the [info] of the
    [reviews] field. *)
Definition reviews_with_argument : Info :=
  mkInfo "reviews" (ListOf (Named "Review" ObjectType))
    [Selection FIELD None (Some "reviews") (Some [Argument "first" (VARIABLE "n")]) [] None
       (Some [Fixtures.leaf "id"])].

(** [{ ... on User { name } id }] *)
Definition inline_on_user : SelectionNode :=
  Selection INLINE_FRAGMENT None None None [] (Some "User") (Some [Fixtures.leaf "name"]).

(** [{ t: __typename name }], the client's own [__typename] under an
    alias. *)
Definition aliased_typename : SelectionNode :=
  Selection FIELD (Some "t") (Some "__typename") (Some []) [] None None.

(** [query Find($representations: [_Any!]!)
      { user(representations: $representations) { name } }], with a value
    for the client's variable. *)
Definition find_field : SelectionNode :=
  Selection FIELD None (Some "user")
            (Some [Argument "representations" (VARIABLE "representations")]) [] None
            (Some [Fixtures.leaf "name"]).

Definition Find_info : MakeResolver.Info :=
  MakeResolver.mkInfo [find_field] (Named "User" ObjectType) "user" "Query"
    (OperationDefinition "query" "Find"
       (Some [VariableDefinition "representations"
                (NON_NULL_TYPE (LIST_TYPE (NON_NULL_TYPE (NAMED_TYPE "_Any")))) []]) []
       [find_field])
    [("representations", JArray [JObject [("id", JString "1")]])] ∅ Fixtures.mr_schema.



(** [query Q($upper: Boolean) { me { ...F } }] with
    [fragment F on User { name(upper: $upper) }] *)
Definition me_spread_field : SelectionNode :=
  Selection FIELD None (Some "me") (Some []) [] None (Some [Fixtures.spread "F"]).

Definition name_upper : SelectionNode :=
  Selection FIELD None (Some "name") (Some [Argument "upper" (VARIABLE "upper")]) []
            None None.

Definition MeSpread_info : MakeResolver.Info :=
  MakeResolver.mkInfo [me_spread_field] (Named "User" ObjectType) "me" "Query"
    (OperationDefinition "query" "Q"
       (Some [VariableDefinition "upper" (NAMED_TYPE "Boolean") []]) []
       [me_spread_field])
    [("upper", JBool true)]
    {[ "F" := FragmentDefinition "F" "User" [] [name_upper] ]}
    Fixtures.mr_schema.

(** [query ById($id: ID!) { user(id: $id) { name } }] *)
Definition by_id_field : SelectionNode :=
  Selection FIELD None (Some "user") (Some [Argument "id" (VARIABLE "id")]) [] None
            (Some [Fixtures.leaf "name"]).

Definition ById : OperationDefinitionNode :=
  OperationDefinition "query" "ById"
    (Some [VariableDefinition "id" (NON_NULL_TYPE (NAMED_TYPE "ID")) []]) []
    [by_id_field].

Definition ById_info : MakeResolver.Info :=
  MakeResolver.mkInfo [by_id_field] (Named "User" ObjectType) "user" "Query" ById
    [("id", JString "1")] ∅ Fixtures.mr_schema.

(** [query Me { me { name address { city } } }], resolved at [me] *)
Definition me_field : SelectionNode :=
  Selection FIELD None (Some "me") (Some []) [] None
            (Some [Fixtures.leaf "name"; Fixtures.address_city]).

Definition Me_info : MakeResolver.Info :=
  MakeResolver.mkInfo [me_field] (NonNull (Named "User" ObjectType)) "me" "Query"
    (OperationDefinition "query" "Me" (Some []) [] [me_field])
    [] ∅ Fixtures.mr_schema.

(** [fragment Outer on User { ...Inner }] and
    [fragment Inner on User { address { city } }] *)
Definition nested_fragments : gmap string FragmentDefinitionNode :=
  {[ "Outer" := FragmentDefinition "Outer" "User" [] [Fixtures.spread "Inner"];
     "Inner" := FragmentDefinition "Inner" "User" [] [Fixtures.address_city] ]}.

End MoreFixtures.

(** * The HTTP routes ([lib/routes.js]) *)

Module Routes.

(** JavaScript truthiness, on the values modelled. *)
Definition truthy (v : JsVal) : bool :=
  match v with
  | JUndefined | JNull => false
  | JBool b => b
  | JNumber z => negb (z =? 0)%Z
  | JString s => negb (bool_decide (s = ""))
  | JArray _ | JObject _ => true
  end.

(** An entry of [err.errors]: what the error handler reads of it. *)
Record ErrorItem := mkItem {
  item_message : string;
  item_isGraphQLError : bool;
  item_extensions : JsVal
}.

(** An error object: what this file reads of it or sets on it. *)
Record HttpError := mkError {
  err_message : string;
  err_statusCode : option Z;
  err_errors : option (list ErrorItem);
  err_data : JsVal
}.

(** [new BadRequest(message)] of http-errors: status 400, and the status
    text for a message that is left out. *)
Definition BadRequest (message : option string) : HttpError :=
  mkError (default "Bad Request" message) (Some 400%Z) None JUndefined.

(** A [TypeError] the engine raises. *)
Definition engine_error (message : string) : HttpError :=
  mkError message None None JUndefined.

(** How a call or an awaited promise ends. *)
Inductive outcome (A : Type) :=
| Return (a : A)
| Raise (err : HttpError).
Arguments Return {A} a.
Arguments Raise {A} err.

#[global] Instance outcome_ret : MRet outcome := λ A a, Return a.
#[global] Instance outcome_bind : MBind outcome := λ A B f o,
  match o with
  | Return a => f a
  | Raise err => Raise err
  end.

(** What an execution resolves with: the result of [reply.graphql], or
    the error object that [executeQuery] returns for a missing query. *)
Inductive Value :=
| Payload (v : JsVal)
| ErrorObject (err : HttpError).

(** The calls to the outside that the statements speak of. *)
Inductive Event :=
| ContextRequested
| Executed (query : JsVal) (context : list (string * JsVal))
           (variables operationName : JsVal)
| SaveQueryCalled (hash query : JsVal)
| Warned (err : HttpError)
| Informed (err : HttpError).

(** An [async] function run to its end: the calls it made, in order,
    and how its promise settled. *)
Record Run (A : Type) := mkRun {
  events : list Event;
  settled : outcome A
}.
Arguments mkRun {A} _ _.
Arguments events {A} _.
Arguments settled {A} _.

#[global] Instance Run_ret : MRet Run := λ A a, mkRun [] (Return a).
#[global] Instance Run_bind : MBind Run := λ A B f m,
  match settled m with
  | Return a => mkRun (events m ++ events (f a)) (settled (f a))
  | Raise err => mkRun (events m) (Raise err)
  end.

Definition lift {A} (o : outcome A) : Run A := mkRun [] o.

Definition tell (ev : Event) : Run () := mkRun [ev] (Return ()).

(** A plain function called: it throws before it returns anything, or it
    returns the promise of an [async] function. *)
Inductive Called (A : Type) :=
| SyncThrow (err : HttpError)
| Async (run : Run A).
Arguments SyncThrow {A} err.
Arguments Async {A} run.

Record Request := mkRequest {
  validationError : option ErrorItem;
  req_query : list (string * JsVal);
  req_body : JsVal
}.

Record Reply := mkReply {
  graphql : JsVal → list (string * JsVal) → JsVal → JsVal → outcome JsVal
}.

(** [persistedQueryProvider]: every member may be left out. *)
Record Provider := mkProvider {
  isPersistedQuery : option (JsVal → outcome JsVal);
  getHash : option (JsVal → outcome JsVal);
  getQueryFromHash : option (JsVal → outcome JsVal);
  getHashForQuery : option (JsVal → outcome JsVal);
  saveQuery : option (JsVal → JsVal → outcome ());
  notFoundError : option string;
  notSupportedError : option string
}.

(** The members of [opts] the handlers read; [context] yields the own
    properties of what the context function resolves with. *)
Record Options := mkOptions {
  context : option (Request → outcome (list (string * JsVal)));
  subscriber : JsVal;
  persistedQueryProvider : option Provider;
  allowBatchedQueries : bool
}.

(** [f(x)] where [f] may be undefined. *)
Definition call {A B} (fname : string) (f : option (A → outcome B)) (x : A) : outcome B :=
  match f with
  | Some f => f x
  | None => Raise (engine_error (fname +:+ " is not a function"))
  end.

(** [f && f(x)] *)
Definition call_if_defined {A} (f : option (A → outcome JsVal)) (x : A) : outcome JsVal :=
  match f with
  | Some f => f x
  | None => Return JUndefined
  end.

(** [const { k } = body]; on [undefined] and [null] the engine names the
    first property of the pattern, which is [query] in both patterns of
    this file. *)
Definition destructure (body : JsVal) (k : string) : outcome JsVal :=
  match body with
  | JUndefined =>
      Raise (engine_error ("Cannot destructure property 'query' of 'body' as it is undefined."))
  | JNull =>
      Raise (engine_error ("Cannot destructure property 'query' of 'body' as it is null."))
  | JObject props => Return (default JUndefined (assoc k props))
  | JArray items =>
      if decide (k = "length") then Return (JNumber (Z.of_nat (length items)))
      else Return JUndefined
  | _ => Return JUndefined
  end.

(** [{ pubsub: subscriber, ...context, __currentQuery: query }] *)
Definition context_object (subscriber query : JsVal) (context : list (string * JsVal))
  : list (string * JsVal) :=
  obj_set "__currentQuery" query
    (foldl (λ o entry, obj_set entry.1 entry.2 o) [("pubsub", subscriber)] context).

(** Lines 166-180 *)
Definition executeQuery (opts : Options) (query variables operationName : JsVal)
           (request : Request) (reply : Reply) : Run Value :=
  if truthy query then
    context ← match context opts with
              | Some contextFn => _ ← tell ContextRequested; lift (contextFn request)
              | None => mret []
              end;
    let context := context_object (subscriber opts) query context in
    _ ← tell (Executed query context variables operationName);
    result ← lift (graphql reply query context variables operationName);
    mret (Payload result)
  else mret (ErrorObject (BadRequest (Some "Unknown query"))).

(** Lines 182-185: not an [async] function, the destructuring throws
    synchronously. *)
Definition executeRegularQuery (opts : Options) (body : JsVal) (request : Request)
           (reply : Reply) : Called Value :=
  match destructure body "query" with
  | Raise err => SyncThrow err
  | Return query =>
      match destructure body "operationName", destructure body "variables" with
      | Return operationName, Return variables =>
          Async (executeQuery opts query variables operationName request reply)
      | Raise err, _ | _, Raise err => SyncThrow err
      end
  end.

(** Lines 224-228: a failure of [saveQuery] is logged and dropped. *)
Definition try_saveQuery (provider : Provider) (hash query : JsVal) : Run () :=
  match saveQuery provider with
  | Some saveQuery =>
      _ ← tell (SaveQueryCalled hash query);
      match saveQuery hash query with
      | Return _ => mret ()
      | Raise err => tell (Warned err)
      end
  | None => tell (Warned (engine_error "saveQuery is not a function"))
  end.

(** Lines 187-234 *)
Definition executePersistedQuery (opts : Options) (provider : Provider) (body : JsVal)
           (request : Request) (reply : Reply) : Run Value :=
  query ← lift (destructure body "query");
  operationName ← lift (destructure body "operationName");
  variables ← lift (destructure body "variables");
  persisted ← lift (call "isPersistedQuery" (isPersistedQuery provider) body);
  query ← (if truthy persisted then
             hash ← lift (call_if_defined (getHash provider) body);
             if truthy hash then
               query ← lift (call "getQueryFromHash" (getQueryFromHash provider) hash);
               if truthy query then mret query
               else lift (Raise (BadRequest (notFoundError provider)))
             else lift (Raise (BadRequest (notSupportedError provider)))
           else mret query);
  result ← executeQuery opts query variables operationName request reply;
  _ ← (if negb (truthy persisted) && truthy query then
         hash ← lift (call_if_defined (getHashForQuery provider) query);
         if truthy hash then try_saveQuery provider hash query else mret ()
       else mret ());
  mret result.

(** Line 236 *)
Definition execute (opts : Options) (body : JsVal) (request : Request) (reply : Reply)
  : Called Value :=
  match persistedQueryProvider opts with
  | Some provider => Async (executePersistedQuery opts provider body request reply)
  | None => executeRegularQuery opts body request reply
  end.

(** Lines 129-135: [new BadRequest()] with [errors] set. *)
Definition validationHandler (validationError : option ErrorItem) : outcome () :=
  match validationError with
  | Some validationError =>
      Raise (mkError "Bad Request" (Some 400%Z) (Some [validationError]) JUndefined)
  | None => Return ()
  end.

(** What a handler's promise resolves with: one result, the results of a
    batch, or what [reply.send] returned after it was given an error. *)
Inductive Answer :=
| One (v : Value)
| Many (vs : list Value)
| Sent (err : HttpError).

(** [return execute(...)] inside an [async] handler. *)
Definition returned (called : Called Value) : Run Answer :=
  match called with
  | SyncThrow err => lift (Raise err)
  | Async run => v ← run; mret (One v)
  end.

(** Lines 243-261: the handler of [GET]; [JSON_parse] is [JSON.parse]. *)
Definition get_handler (JSON_parse : JsVal → outcome JsVal) (opts : Options)
           (request : Request) (reply : Reply) : Run Answer :=
  _ ← lift (validationHandler (validationError request));
  let variables := default JUndefined (assoc "variables" (req_query request)) in
  if truthy variables then
    match JSON_parse variables with
    | Raise err =>
        _ ← tell (Informed err);
        mret (Sent (BadRequest (Some (err_message err))))
    | Return variables =>
        returned (execute opts (JObject (obj_set "variables" variables (req_query request)))
                          request reply)
    end
  else
    returned (execute opts (JObject (obj_set "variables" variables (req_query request)))
                      request reply).

(** [.catch(e => ({ errors: [{ message: e.message }] }))] *)
Definition caught (run : Run Value) : Run Value :=
  mkRun (events run)
        match settled run with
        | Return v => Return v
        | Raise e =>
            Return (Payload (JObject [("errors",
                                       JArray [JObject [("message",
                                                         JString (err_message e))]])]))
        end.

(** [Promise.all(request.body.map(r => execute(r, ...).catch(...)))]:
    a call that throws synchronously ends the [map], after the calls
    before it were started and before the calls after it are.  The calls
    of concurrent executions are listed execution by execution. *)
Fixpoint batch (calls : list (Called Value)) : Run (list Value) :=
  match calls with
  | [] => mret []
  | SyncThrow err :: _ => lift (Raise err)
  | Async run :: calls' => v ← caught run; vs ← batch calls'; mret (v :: vs)
  end.

(** Lines 284-297: the handler of [POST]. *)
Definition post_handler (opts : Options) (request : Request) (reply : Reply)
  : Run Answer :=
  _ ← lift (validationHandler (validationError request));
  match req_body request with
  | JArray items =>
      if allowBatchedQueries opts then
        vs ← batch (map (λ r, execute opts r request reply) items);
        mret (Many vs)
      else returned (execute opts (req_body request) request reply)
  | _ => returned (execute opts (req_body request) request reply)
  end.

(** *** [defaultErrorHandler]

    [FEDERATED_ERROR.toString()], [toGraphQLError] (both of
    [lib/errors.js]) and graphql's [formatError] are taken as given. *)

(** What the handler leaves on the reply and returns as payload. *)
Record ErrorReply := mkErrorReply {
  code : Z;
  reply_errors : list JsVal;
  reply_data : JsVal
}.

(** [error.extensions.errors], as the receiver of [map] *)
Definition federated_errors (extensions : JsVal) : outcome (list JsVal) :=
  match extensions with
  | JUndefined => Raise (engine_error "Cannot read property 'errors' of undefined")
  | JNull => Raise (engine_error "Cannot read property 'errors' of null")
  | JObject props =>
      match default JUndefined (assoc "errors" props) with
      | JArray items => Return items
      | JUndefined => Raise (engine_error "Cannot read property 'map' of undefined")
      | JNull => Raise (engine_error "Cannot read property 'map' of null")
      | _ => Raise (engine_error "error.extensions.errors.map is not a function")
      end
  | _ => Raise (engine_error "Cannot read property 'map' of undefined")
  end.

(** The callback of line 108, its result as the list that [concat]
    appends. *)
Definition format_item (FEDERATED_ERROR : string) (toGraphQLError : JsVal → ErrorItem)
           (formatError : ErrorItem → JsVal) (error : ErrorItem) : outcome (list JsVal) :=
  if decide (item_message error = FEDERATED_ERROR) then
    errors ← federated_errors (item_extensions error);
    Return (map (λ err, formatError (toGraphQLError err)) errors)
  else
    Return [if item_isGraphQLError error then formatError error
            else JObject [("message", JString (item_message error))]].

(** [err.statusCode || 500] *)
Definition statusCode_or_500 (statusCode : option Z) : Z :=
  match statusCode with
  | Some c => if (c =? 0)%Z then 500%Z else c
  | None => 500%Z
  end.

(** Lines 100-127 *)
Definition defaultErrorHandler (FEDERATED_ERROR : string)
           (toGraphQLError : JsVal → ErrorItem) (formatError : ErrorItem → JsVal)
           (err : HttpError) : outcome ErrorReply :=
  let code := if truthy (err_data err) then 200%Z
              else statusCode_or_500 (err_statusCode err) in
  let data := if truthy (err_data err) then err_data err else JNull in
  match err_errors err with
  | Some errors =>
      formatted ← mapM (format_item FEDERATED_ERROR toGraphQLError formatError) errors;
      mret (mkErrorReply code (concat formatted) data)
  | None =>
      mret (mkErrorReply code [JObject [("message", JString (err_message err))]] data)
  end.

End Routes.

Module RoutesFixtures.
Import Routes.

(** A [reply.graphql] that answers with the query it was given. *)
Definition echo : Reply :=
  mkReply (λ query _ _ _, Return (JObject [("data", query)])).

(** A provider in the manner of the prepared one ([persisted] marks a
    request, [query] holds its hash), that also tries to save what is
    not persisted, on a store that refuses every write. *)
Definition provider : Provider :=
  mkProvider
    (Some (λ body, destructure body "persisted"))
    (Some (λ body, destructure body "query"))
    (Some (λ hash, match hash with
                   | JString h => if decide (h = "h1") then Return (JString "{ me { name } }")
                                  else Return JUndefined
                   | _ => Return JUndefined
                   end))
    (Some (λ query, Return (JString "h2")))
    (Some (λ _ _, Raise (engine_error "read-only store")))
    (Some "PersistedQueryNotFound")
    (Some "PersistedQueryNotSupported").

Definition with_provider : Options := mkOptions None JNull (Some provider) true.

Definition without_provider : Options := mkOptions None JNull None true.

(** A context function whose object tries to set [__currentQuery]. *)
Definition spoofing : Options :=
  mkOptions (Some (λ _, Return [("user", JString "ann");
                               ("__currentQuery", JString "{ secret }")]))
            JNull None false.

Definition persisted_body (hash : string) : JsVal :=
  JObject [("query", JString hash); ("persisted", JBool true)].

Definition plain_body (query : string) : JsVal :=
  JObject [("query", JString query)].

Definition post (body : JsVal) : Request := mkRequest None [] body.

(** A validation error of the schema compiler: no [GraphQLError]. *)
Definition must_be_string : ErrorItem :=
  mkItem "body.query should be string" false JUndefined.

Definition parse_nothing : JsVal → outcome JsVal :=
  λ _, Raise (engine_error "Unexpected token } in JSON at position 0").

End RoutesFixtures.

(** * Theorems *)

(** ** Generic facts *)

Lemma mapM_Ok_Forall2 {A B} (f : A → result B) (l : list A) (k : list B) :
  mapM f l = Ok k ↔ Forall2 (λ x y, f x = Ok y) l k.
Proof.
  revert k. induction l as [|x l IH]; intros k; simpl.
  - split.
    + intros [= <-]. constructor.
    + intros H. inversion H. reflexivity.
  - split.
    + destruct (f x) as [y|e] eqn:Hx; simpl; [|discriminate].
      destruct (mapM f l) as [k'|e] eqn:Hl; simpl; [|discriminate].
      intros [= <-]. constructor; [done|]. by apply IH.
    + intros H. inversion H as [|? y ? k' Hx Hl]; subst.
      rewrite Hx. simpl. apply IH in Hl. rewrite Hl. reflexivity.
Qed.

Lemma assoc_obj_set {A} (k k' : string) (v : A) (o : list (string * A)) :
  assoc k' (obj_set k v o) = if decide (k' = k) then Some v else assoc k' o.
Proof.
  induction o as [|[k0 v0] o IH]; simpl.
  - reflexivity.
  - destruct (decide (k = k0)) as [->|Hne]; simpl.
    + destruct (decide (k' = k0)); reflexivity.
    + destruct (decide (k' = k0)) as [->|]; simpl.
      * destruct (decide (k0 = k)); congruence.
      * apply IH.
Qed.

(** ** Ownership index *)

Lemma assign_types_lookup (service : string) (types : gset string)
      (m : gmap string Gateway.Owner) (type : string) :
  Gateway.assign_types service types m !! type =
    if decide (type ∈ types) then Some (Gateway.Svc service) else m !! type.
Proof.
  unfold Gateway.assign_types.
  cut ((type ∈ types → set_fold (λ type m, <[type := Gateway.Svc service]> m) m types !! type
                       = Some (Gateway.Svc service))
       ∧ (type ∉ types → set_fold (λ type m, <[type := Gateway.Svc service]> m) m types !! type
                       = m !! type)).
  { intros [Hin Hout]. destruct (decide (type ∈ types)); auto. }
  apply (set_fold_ind_L (λ r X, (type ∈ X → r !! type = Some (Gateway.Svc service))
                                ∧ (type ∉ X → r !! type = m !! type))).
  - split; [set_solver|done].
  - intros x X r Hx [IHin IHout].
    destruct (decide (type = x)) as [->|Hne].
    + rewrite lookup_insert_eq. split; [done|set_solver].
    + rewrite lookup_insert_ne by done. split; intros ?.
      * apply IHin. set_solver.
      * apply IHout. set_solver.
Qed.

Lemma ownership_loop_lookup (serviceMap : list (string * Gateway.Service)) (type : string) :
  foldl (λ m '(service, serviceDefinition),
           Gateway.assign_types service (dom (Gateway.typeMap serviceDefinition)) m)
        ∅ serviceMap !! type
  = Gateway.Svc <$> last (declaring serviceMap type).
Proof.
  induction serviceMap as [|[service def] serviceMap IH] using rev_ind.
  - reflexivity.
  - rewrite foldl_app. simpl. rewrite assign_types_lookup.
    unfold declaring in *. rewrite filter_app, fmap_app.
    rewrite filter_cons, filter_nil. simpl.
    destruct (decide (type ∈ dom (Gateway.typeMap def))).
    + simpl. rewrite last_snoc. reflexivity.
    + simpl. rewrite app_nil_r. exact IH.
Qed.

(** C8, as the code has it: after [buildGateway]'s loop, [Query] reads
    as the sentinel [null] whatever the services declare, and every other
    type name -- [Mutation] and [Subscription] among them -- reads as the
    last service, in [Object.entries] order, whose typeMap has it as a
    key ([undefined] when none has). *)
Theorem typeToServiceMap_last_declaring_wins
        (serviceMap : list (string * Gateway.Service)) (type : string) :
  Gateway.typeToServiceMap_of serviceMap !! type =
    if decide (type = "Query") then Some Gateway.Null
    else Gateway.Svc <$> last (declaring serviceMap type).
Proof.
  unfold Gateway.typeToServiceMap_of.
  destruct (decide (type = "Query")) as [->|Hne].
  - apply lookup_insert_eq.
  - rewrite lookup_insert_ne by done. apply ownership_loop_lookup.
Qed.

(** C8 as stated fails: a service that declares [Mutation] owns it; the
    index does not read as [null] there. *)
Lemma Mutation_is_not_forced_to_none :
  "Mutation" ∈ dom (Gateway.typeMap Fixtures.users_service) ∧
  Gateway.typeToServiceMap_of [("users", Fixtures.users_service)] !! "Mutation"
    = Some (Gateway.Svc "users") ∧
  Gateway.typeToServiceMap_of [("users", Fixtures.users_service)] !! "Mutation"
    ≠ Some Gateway.Null.
Proof.
  assert (Hdom : "Mutation" ∈ dom (Gateway.typeMap Fixtures.users_service)).
  { apply elem_of_dom. eexists. reflexivity. }
  assert (Hlook : Gateway.typeToServiceMap_of [("users", Fixtures.users_service)] !! "Mutation"
                  = Some (Gateway.Svc "users")).
  { unfold Gateway.typeToServiceMap_of.
    rewrite lookup_insert_ne by discriminate. rewrite ownership_loop_lookup.
    unfold declaring. rewrite filter_cons, filter_nil.
    destruct (decide _) as [|Hn]; [reflexivity|]. by destruct Hn. }
  split; [exact Hdom|]. split; [exact Hlook|]. rewrite Hlook. discriminate.
Qed.

(** ** Transport *)

Section RequestFacts.
Variable JSON_parse : string → result JsVal.

Lemma read_stream_settled status data evs (p : Promise Response) :
  is_settled p → Gateway.read_stream JSON_parse status data evs p = p.
Proof.
  revert data p. induction evs as [|[chunk|] evs IH]; intros data p Hp; simpl.
  - reflexivity.
  - by apply IH.
  - destruct (JSON_parse data); [|by apply IH].
    destruct p; [by destruct Hp| |]; simpl; apply IH; done.
Qed.

Lemma on_event_settled (p : Promise Response) ev :
  is_settled p → Gateway.on_event JSON_parse p ev = p.
Proof.
  intros Hp. destruct ev as [err|status stream]; simpl.
  - destruct p; [by destruct Hp|done|done].
  - case_decide; [|done]. by apply read_stream_settled.
Qed.

Lemma foldl_on_event_settled (p : Promise Response) evs :
  is_settled p → foldl (Gateway.on_event JSON_parse) p evs = p.
Proof.
  intros Hp. induction evs as [|ev evs IH]; simpl; [done|].
  by rewrite on_event_settled.
Qed.

(** What a stream can do to a pending promise. *)
Lemma read_stream_pending status data0 evs :
  Gateway.read_stream JSON_parse status data0 evs Pending = Pending
  ∨ ∃ pre post j,
      evs = pre ++ Gateway.End :: post
      ∧ JSON_parse (stream_data_from data0 pre) = Ok j
      ∧ Gateway.read_stream JSON_parse status data0 evs Pending
        = Resolved (mkResponse status j).
Proof.
  revert data0. induction evs as [|[chunk|] evs IH]; intros data0; simpl.
  - by left.
  - destruct (IH (data0 +:+ chunk)) as [Hp|(pre & post & j & -> & Hj & Hr)]; [by left|].
    right. exists (Gateway.Data chunk :: pre), post, j. simpl. done.
  - destruct (JSON_parse data0) as [j|e] eqn:Hparse.
    + right. exists [], evs, j. simpl. split; [done|]. split; [done|].
      by apply read_stream_settled.
    + destruct (IH data0) as [Hp|(pre & post & j & -> & Hj & Hr)]; [by left|].
      right. exists (Gateway.End :: pre), post, j. simpl. done.
Qed.

Lemma read_stream_whole status chunks j data0 rest :
  JSON_parse (foldl (λ data chunk, data +:+ chunk) data0 chunks) = Ok j →
  Gateway.read_stream JSON_parse status data0
    ((Gateway.Data <$> chunks) ++ Gateway.End :: rest) Pending
  = Resolved (mkResponse status j).
Proof.
  revert data0. induction chunks as [|chunk chunks IH]; intros data0 Hj; simpl in *.
  - rewrite Hj. simpl. by apply read_stream_settled.
  - by apply IH.
Qed.

Lemma request_promise_inv evs :
  (∀ err, Gateway.request_promise JSON_parse evs = Rejected err →
          Gateway.ReqError err ∈ evs)
  ∧ (∀ response, Gateway.request_promise JSON_parse evs = Resolved response →
       ∃ stream pre post j,
         Gateway.ReqResponse 200 stream ∈ evs
         ∧ stream = pre ++ Gateway.End :: post
         ∧ JSON_parse (stream_data pre) = Ok j
         ∧ response = mkResponse 200 j).
Proof.
  unfold Gateway.request_promise.
  induction evs as [|ev evs [IHrej IHres]] using rev_ind.
  - split; intros ?; simpl; discriminate.
  - rewrite foldl_app. simpl.
    destruct (foldl (Gateway.on_event JSON_parse) Pending evs) as [|r0|e0] eqn:Hst.
    + destruct ev as [err|status stream]; simpl.
      * split; [|discriminate]. intros ? [= <-]. set_solver.
      * case_decide as Hs; [subst status|split; discriminate].
        destruct (read_stream_pending 200 "" stream)
          as [Hp|(pre & post & j & -> & Hj & Hr)].
        -- rewrite Hp. split; discriminate.
        -- rewrite Hr. split; [discriminate|]. intros ? [= <-].
           exists (pre ++ Gateway.End :: post), pre, post, j.
           split; [set_solver|done].
    + rewrite on_event_settled by done. split; [discriminate|].
      intros response Hr. destruct (IHres response Hr) as (st & pre & post & j & Hin & ?).
      exists st, pre, post, j. split; [set_solver|done].
    + rewrite on_event_settled by done. split; [|discriminate].
      intros err Hr. specialize (IHrej err Hr). set_solver.
Qed.

Lemma request_promise_no_success evs :
  (∀ ev, ev ∈ evs → ∃ status stream,
           ev = Gateway.ReqResponse status stream ∧ status ≠ 200%Z) →
  Gateway.request_promise JSON_parse evs = Pending.
Proof.
  unfold Gateway.request_promise.
  induction evs as [|ev evs IH] using rev_ind; intros Hall; [done|].
  rewrite foldl_app. simpl. rewrite IH.
  - destruct (Hall ev) as (status & stream & -> & Hne); [set_solver|].
    simpl. by case_decide.
  - intros ev' Hin. apply Hall. set_solver.
Qed.
End RequestFacts.

(** C10, as the code has it: the promise of [serviceConfig.request]
    rejects only on a transport error and resolves only with the parsed
    body of a fully read 200 response; it does reject when an error
    reaches it pending, it does resolve with status 200 and the parsed
    body when a 200 response whose body [JSON.parse] accepts is read to
    its end; while every response has a status other than 200 and no
    error is reported it stays pending; and a 200 response read to its
    end whose body [JSON.parse] refuses leaves it pending as well. *)
Theorem request_promise_settles (JSON_parse : string → result JsVal) :
  (∀ evs err, Gateway.request_promise JSON_parse evs = Rejected err →
              Gateway.ReqError err ∈ evs)
  ∧ (∀ evs response, Gateway.request_promise JSON_parse evs = Resolved response →
       ∃ stream pre post j,
         Gateway.ReqResponse 200 stream ∈ evs
         ∧ stream = pre ++ Gateway.End :: post
         ∧ JSON_parse (stream_data pre) = Ok j
         ∧ response = mkResponse 200 j)
  ∧ (∀ before err after,
       Gateway.request_promise JSON_parse before = Pending →
       Gateway.request_promise JSON_parse (before ++ Gateway.ReqError err :: after)
       = Rejected err)
  ∧ (∀ before chunks rest after j,
       Gateway.request_promise JSON_parse before = Pending →
       JSON_parse (foldl (λ data chunk, data +:+ chunk) "" chunks) = Ok j →
       Gateway.request_promise JSON_parse
         (before ++ Gateway.ReqResponse 200
                      ((Gateway.Data <$> chunks) ++ Gateway.End :: rest) :: after)
       = Resolved (mkResponse 200 j))
  ∧ (∀ evs,
       (∀ ev, ev ∈ evs → ∃ status stream,
                ev = Gateway.ReqResponse status stream ∧ status ≠ 200%Z) →
       Gateway.request_promise JSON_parse evs = Pending)
  ∧ (∀ before chunks e,
       Gateway.request_promise JSON_parse before = Pending →
       JSON_parse (foldl (λ data chunk, data +:+ chunk) "" chunks) = Throw e →
       Gateway.request_promise JSON_parse
         (before ++ [Gateway.ReqResponse 200
                       ((Gateway.Data <$> chunks) ++ [Gateway.End])])
       = Pending).
Proof.
  split; [intros evs; apply request_promise_inv|].
  split; [intros evs; apply request_promise_inv|].
  split; [|split; [|split]].
  - intros before err after Hp. unfold Gateway.request_promise in *.
    rewrite foldl_app, Hp. simpl. by apply foldl_on_event_settled.
  - intros before chunks rest after j Hp Hj. unfold Gateway.request_promise in *.
    rewrite foldl_app, Hp. simpl.
    rewrite (read_stream_whole JSON_parse 200 chunks j "" rest Hj).
    by apply foldl_on_event_settled.
  - intros evs. apply request_promise_no_success.
  - intros before chunks e Hp. unfold Gateway.request_promise in *.
    rewrite foldl_app, Hp. simpl. generalize EmptyString.
    induction chunks as [|chunk chunks IH]; intros data0 Hparse; simpl in *.
    + by rewrite Hparse.
    + by apply IH.
Qed.

Lemma request_promise_settles_witness :
  Gateway.request_promise Fixtures.parse_empty_object
    [Gateway.ReqResponse 404 [Gateway.Data "{}"; Gateway.End]] = Pending
  ∧ Gateway.request_promise Fixtures.parse_empty_object
      [Gateway.ReqResponse 200 [Gateway.Data "{"; Gateway.Data "}"; Gateway.End]]
    = Resolved (mkResponse 200 (JObject []))
  ∧ Gateway.request_promise Fixtures.parse_empty_object
      [Gateway.ReqResponse 500 []; Gateway.ReqError (TransportError "ECONNRESET")]
    = Rejected (TransportError "ECONNRESET").
Proof.
  destruct (request_promise_settles Fixtures.parse_empty_object)
    as (_ & _ & Hrej & Hres & Hpend & _).
  split; [|split].
  - apply Hpend. intros ev Hin. apply list_elem_of_singleton in Hin as ->.
    eexists _, _. split; [reflexivity|]. discriminate.
  - apply (Hres [] ["{"; "}"] [] [] (JObject [])); reflexivity.
  - apply (Hrej [Gateway.ReqResponse 500 []] (TransportError "ECONNRESET") []).
    reflexivity.
Defined.

(** C10 as stated fails: a response of status 200 is read to its end,
    no transport error is reported, and the promise does not resolve;
    [JSON.parse] threw in the ['end'] listener, where nothing settles
    the promise. *)
Lemma fully_read_200_response_does_not_resolve :
  Fixtures.parse_empty_object "<html></html>" = Throw (SyntaxError "Unexpected token")
  ∧ Gateway.request_promise Fixtures.parse_empty_object
      [Gateway.ReqResponse 200
         [Gateway.Data "<html>"; Gateway.Data "</html>"; Gateway.End]]
    = Pending
  ∧ ∀ later,
      (∀ ev, ev ∈ later → ∃ status stream,
               ev = Gateway.ReqResponse status stream ∧ status ≠ 200%Z) →
      Gateway.request_promise Fixtures.parse_empty_object
        (Gateway.ReqResponse 200
           [Gateway.Data "<html>"; Gateway.Data "</html>"; Gateway.End] :: later)
      = Pending.
Proof.
  split; [reflexivity|]. split; [reflexivity|].
  intros later Hlater. unfold Gateway.request_promise. simpl.
  induction later as [|ev later IH] using rev_ind; [reflexivity|].
  rewrite foldl_app, IH.
  - destruct (Hlater ev) as (status & stream & -> & Hne); [set_solver|].
    simpl. by case_decide.
  - intros ev' Hin. apply Hlater. set_solver.
Qed.

(** ** Resolver dispatcher *)

Lemma mapM_total {A B} (f : A → result B) (l : list A) :
  Forall (λ x, ∃ y, f x = Ok y) l → ∃ k, mapM f l = Ok k.
Proof.
  induction 1 as [|x l [y Hy] _ [k Hk]]; simpl.
  - by eexists.
  - rewrite Hy. simpl. rewrite Hk. simpl. by eexists.
Qed.

Lemma assoc_NoDup {A} (k : string) (v : A) (l : list (string * A)) :
  NoDup l.*1 → (k, v) ∈ l → assoc k l = Some v.
Proof.
  induction l as [|[k' v'] l IH]; simpl; intros Hnd Hin.
  - by apply elem_of_nil in Hin.
  - apply NoDup_cons in Hnd as [Hk' Hnd].
    apply elem_of_cons in Hin as [[= <- <-]|Hin].
    + by rewrite decide_True.
    + destruct (decide (k = k')) as [->|_]; [|by apply IH].
      destruct Hk'. apply list_elem_of_fmap. by exists (k', v).
Qed.

Lemma Object_entries_Permutation {A} (o : list (string * A)) : Object_entries o ≡ₚ o.
Proof.
  unfold Object_entries. rewrite merge_sort_Permutation.
  induction o as [|[k v] o IH]; [done|].
  rewrite filter_cons. cbn [omap list_omap fst].
  destruct (array_index k) as [n|] eqn:Hk.
  - destruct (decide (Some n = None)) as [Heq|_]; [discriminate Heq|].
    simpl. by rewrite IH.
  - destruct (decide (None = None)) as [_|Hne]; [|done].
    simpl. rewrite <- Permutation_middle. by rewrite IH.
Qed.

(** The code's test for an introspection meta-type is the test for the
    six names. *)
Lemma isDefaultType_meta (type : string) :
  Gateway.isDefaultType type = false ↔ type ∉ introspection_meta_types.
Proof. unfold Gateway.isDefaultType. by rewrite bool_decide_eq_false. Qed.

Lemma mapM_Throw_inv {A B} (f : A → result B) (l : list A) (e : Exn) :
  mapM f l = Throw e → ∃ x, x ∈ l ∧ f x = Throw e.
Proof.
  induction l as [|x l IH]; simpl; [discriminate|].
  destruct (f x) as [y|e'] eqn:Hx; simpl.
  - destruct (mapM f l) as [k|e'] eqn:Hl; simpl; [discriminate|].
    intros [= ->]. destruct (IH eq_refl) as (x' & Hin & Hx').
    exists x'. split; [by apply list_elem_of_further|done].
  - intros [= ->]. exists x. split; [apply list_elem_of_here|done].
Qed.

(** An owner read from the index of [buildGateway] is an entry of
    [serviceMap] whose typeMap has the type. *)
Lemma owner_is_declaring (serviceMap : list (string * Gateway.Service))
      (type owner : string) :
  NoDup serviceMap.*1 →
  Gateway.typeToServiceMap_of (Object_entries serviceMap) !! type
  = Some (Gateway.Svc owner) →
  ∃ declaringService fields,
    assoc owner serviceMap = Some declaringService
    ∧ Gateway.typeMap declaringService !! type = Some fields.
Proof.
  intros Hnd. unfold Gateway.typeToServiceMap_of.
  destruct (decide (type = "Query")) as [->|Hne].
  - rewrite lookup_insert_eq. discriminate.
  - rewrite lookup_insert_ne by done. rewrite ownership_loop_lookup.
    destruct (last (declaring (Object_entries serviceMap) type)) as [owner'|] eqn:Hlast;
      [|discriminate].
    intros [= ->]. apply last_Some_elem_of in Hlast.
    unfold declaring in Hlast. apply list_elem_of_fmap in Hlast as ([o def] & -> & Hin).
    apply list_elem_of_filter in Hin as [Hdom Hin]. simpl in *.
    rewrite Object_entries_Permutation in Hin.
    apply elem_of_dom in Hdom as [fields Hfields].
    exists def, fields. split; [|done]. by apply assoc_NoDup.
Qed.

Lemma define_field_attached typeToServiceMap serviceMap type field field' :
  type_kind type = ObjectType →
  type_name type ∉ introspection_meta_types →
  Gateway.define_field typeToServiceMap serviceMap (type_name type)
    (typeToServiceMap !! type_name type) field = Ok field' →
  attached typeToServiceMap serviceMap type field field'.
Proof.
  intros Hobj Hdef. unfold Gateway.define_field.
  destruct (getNamedType (field_type field)) as [fieldType fieldKind] eqn:Hnamed.
  assert (Hcross : crossing typeToServiceMap type field ↔
                   fieldKind ≠ ScalarType
                   ∧ typeToServiceMap !! fieldType ≠ typeToServiceMap !! type_name type).
  { unfold crossing. rewrite Hnamed. simpl. tauto. }
  assert (Htarget : target typeToServiceMap serviceMap field
                    = assoc (Gateway.owner_key (typeToServiceMap !! fieldType)) serviceMap).
  { unfold target. by rewrite Hnamed. }
  destruct (bool_decide (fieldKind = ScalarType)) eqn:Hscalar; simpl.
  { apply bool_decide_eq_true in Hscalar. intros [= <-].
    apply attached_none. rewrite Hcross. tauto. }
  apply bool_decide_eq_false in Hscalar.
  destruct (bool_decide (typeToServiceMap !! fieldType ≠ typeToServiceMap !! type_name type))
    eqn:Howners.
  2:{ apply bool_decide_eq_false in Howners. intros [= <-].
      apply attached_none. rewrite Hcross. tauto. }
  apply bool_decide_eq_true in Howners.
  assert (crossing typeToServiceMap type field) as Hc by (rewrite Hcross; done).
  destruct (bool_decide (typeToServiceMap !! type_name type = Some Gateway.Null)) eqn:Hnull.
  { apply bool_decide_eq_true in Hnull. intros [= <-].
    rewrite <- Htarget. by apply attached_root_delegated. }
  apply bool_decide_eq_false in Hnull.
  destruct (assoc (Gateway.owner_key (typeToServiceMap !! type_name type)) serviceMap)
    as [declaringService|] eqn:Hdecl; [|discriminate].
  destruct (Gateway.typeMap declaringService !! type_name type) as [fields|] eqn:Hfields;
    [|discriminate].
  rewrite <- Htarget.
  destruct (bool_decide (field_name field ∈ fields)) eqn:Hlisted; intros [= <-].
  - apply bool_decide_eq_true in Hlisted. by eapply attached_entity_reference.
  - apply bool_decide_eq_false in Hlisted. by eapply attached_field_resolver.
Qed.

Lemma define_field_total typeToServiceMap serviceMap type field :
  (crossing typeToServiceMap type field →
   typeToServiceMap !! type_name type ≠ Some Gateway.Null →
   ∃ declaringService,
     assoc (Gateway.owner_key (typeToServiceMap !! type_name type)) serviceMap
     = Some declaringService
     ∧ is_Some (Gateway.typeMap declaringService !! type_name type)) →
  type_kind type = ObjectType →
  type_name type ∉ introspection_meta_types →
  ∃ field',
    Gateway.define_field typeToServiceMap serviceMap (type_name type)
      (typeToServiceMap !! type_name type) field = Ok field'.
Proof.
  intros Hdecl Hobj Hdef. unfold Gateway.define_field.
  destruct (getNamedType (field_type field)) as [fieldType fieldKind] eqn:Hnamed.
  destruct (bool_decide (fieldKind = ScalarType)) eqn:Hscalar; simpl; [by eexists|].
  apply bool_decide_eq_false in Hscalar.
  destruct (bool_decide (typeToServiceMap !! fieldType ≠ typeToServiceMap !! type_name type))
    eqn:Howners; [|by eexists].
  apply bool_decide_eq_true in Howners.
  destruct (bool_decide (typeToServiceMap !! type_name type = Some Gateway.Null)) eqn:Hnull;
    [by eexists|].
  apply bool_decide_eq_false in Hnull.
  destruct Hdecl as (declaringService & -> & [fields ->]); [|done|].
  - unfold crossing. rewrite Hnamed. simpl. done.
  - destruct (bool_decide (field_name field ∈ fields)); by eexists.
Qed.

(** What the dispatcher needs of a crossing field off [Query] it needs
    in earnest: without it the field's loop body throws a TypeError. *)
Lemma define_field_needs typeToServiceMap serviceMap type field :
  crossing typeToServiceMap type field →
  typeToServiceMap !! type_name type ≠ Some Gateway.Null →
  match Gateway.define_field typeToServiceMap serviceMap (type_name type)
          (typeToServiceMap !! type_name type) field with
  | Ok _ =>
      ∃ declaringService,
        assoc (Gateway.owner_key (typeToServiceMap !! type_name type)) serviceMap
        = Some declaringService
        ∧ is_Some (Gateway.typeMap declaringService !! type_name type)
  | Throw e => ∃ msg, e = TypeError msg
  end.
Proof.
  intros (_ & _ & Hkind & Howners) Hnull. unfold Gateway.define_field.
  destruct (getNamedType (field_type field)) as [fieldType fieldKind]. simpl in *.
  rewrite bool_decide_eq_false_2 by done. simpl.
  rewrite bool_decide_eq_true_2 by done.
  rewrite bool_decide_eq_false_2 by done.
  destruct (assoc (Gateway.owner_key (typeToServiceMap !! type_name type)) serviceMap)
    as [declaringService|]; [|by eexists].
  destruct (Gateway.typeMap declaringService !! type_name type) as [fields|] eqn:Hfields;
    [|by eexists].
  destruct (bool_decide (field_name field ∈ fields)); exists declaringService;
    (split; [done|by eexists]).
Qed.

Lemma define_field_throws typeToServiceMap serviceMap type owner field e :
  Gateway.define_field typeToServiceMap serviceMap type owner field = Throw e →
  ∃ msg, e = TypeError msg.
Proof.
  unfold Gateway.define_field.
  destruct (getNamedType (field_type field)) as [fieldType fieldKind].
  destruct (negb (bool_decide (fieldKind = ScalarType))); [|discriminate].
  destruct (bool_decide (typeToServiceMap !! fieldType ≠ owner)); [|discriminate].
  destruct (bool_decide (owner = Some Gateway.Null)); [discriminate|].
  destruct (assoc (Gateway.owner_key owner) serviceMap) as [declaringService|];
    [|intros [= <-]; by eexists].
  destruct (Gateway.typeMap declaringService !! type) as [fields|];
    [|intros [= <-]; by eexists].
  destruct (bool_decide (field_name field ∈ fields)); discriminate.
Qed.

Lemma Forall2_attached_none typeToServiceMap serviceMap type :
  ¬ (type_kind type = ObjectType ∧ type_name type ∉ introspection_meta_types) →
  Forall2 (attached typeToServiceMap serviceMap type) (type_fields type) (type_fields type).
Proof.
  intros Hskip. apply Forall2_same_length_lookup_2; [done|].
  intros i f f' Hf Hf'. rewrite Hf in Hf'. injection Hf' as <-.
  apply attached_none. unfold crossing. tauto.
Qed.

Lemma defineResolvers_dispatched schema typeToServiceMap serviceMap schema' :
  Gateway.defineResolvers schema typeToServiceMap serviceMap = Ok schema' →
  dispatched typeToServiceMap serviceMap schema schema'.
Proof.
  unfold Gateway.defineResolvers, dispatched. rewrite mapM_Ok_Forall2.
  intros Htypes. eapply Forall2_impl; [exact Htypes|]. clear Htypes.
  intros type type'. unfold Gateway.define_type.
  destruct (bool_decide (type_kind type = ObjectType)) eqn:Hobj; simpl.
  - destruct (Gateway.isDefaultType (type_name type)) eqn:Hdef; simpl.
    + intros [= <-]. split; [done|]. split; [done|].
      apply Forall2_attached_none. intros [_ Hmeta].
      apply isDefaultType_meta in Hmeta. congruence.
    + apply bool_decide_eq_true in Hobj. apply isDefaultType_meta in Hdef.
      destruct (mapM _ (type_fields type)) as [fields'|] eqn:Hfields; simpl; [|discriminate].
      intros [= <-]. simpl. split; [done|]. split; [done|].
      apply mapM_Ok_Forall2 in Hfields. eapply Forall2_impl; [exact Hfields|].
      intros field field'. by apply define_field_attached.
  - apply bool_decide_eq_false in Hobj. intros [= <-]. split; [done|]. split; [done|].
    apply Forall2_attached_none. tauto.
Qed.

Lemma defineResolvers_total schema typeToServiceMap serviceMap :
  dispatchable typeToServiceMap serviceMap schema →
  ∃ schema', Gateway.defineResolvers schema typeToServiceMap serviceMap = Ok schema'.
Proof.
  intros Hdisp. unfold Gateway.defineResolvers. apply mapM_total.
  apply Forall_forall. intros type Htype. unfold Gateway.define_type.
  destruct (bool_decide (type_kind type = ObjectType)) eqn:Hobj; simpl; [|by eexists].
  destruct (Gateway.isDefaultType (type_name type)) eqn:Hdef; simpl; [by eexists|].
  apply bool_decide_eq_true in Hobj. apply isDefaultType_meta in Hdef.
  destruct (mapM_total
              (Gateway.define_field typeToServiceMap serviceMap (type_name type)
                 (typeToServiceMap !! type_name type)) (type_fields type)) as [fields' ->].
  - apply Forall_forall. intros field Hfield.
    apply define_field_total; [|done|done]. intros Hc Hnull. by apply (Hdisp type field).
  - simpl. by eexists.
Qed.

(** The dispatcher returns only if it found what it needs. *)
Lemma defineResolvers_Ok_dispatchable schema typeToServiceMap serviceMap schema' :
  Gateway.defineResolvers schema typeToServiceMap serviceMap = Ok schema' →
  dispatchable typeToServiceMap serviceMap schema.
Proof.
  unfold Gateway.defineResolvers. rewrite mapM_Ok_Forall2.
  intros Htypes type field Htype Hfield Hc Hnull.
  apply list_elem_of_lookup in Htype as [i Hi].
  destruct (Forall2_lookup_l _ _ _ _ _ Htypes Hi) as (type' & _ & Hdefine).
  unfold Gateway.define_type in Hdefine.
  pose proof Hc as (Hobj & Hmeta & _).
  apply isDefaultType_meta in Hmeta.
  rewrite bool_decide_eq_true_2, Hmeta in Hdefine by done. simpl in Hdefine.
  destruct (mapM _ (type_fields type)) as [fields'|] eqn:Hfields; [|discriminate].
  apply mapM_Ok_Forall2 in Hfields.
  apply list_elem_of_lookup in Hfield as [j Hj].
  destruct (Forall2_lookup_l _ _ _ _ _ Hfields Hj) as (field' & _ & Hdefined).
  pose proof (define_field_needs typeToServiceMap serviceMap type field Hc Hnull) as Hneeds.
  by rewrite Hdefined in Hneeds.
Qed.

Lemma defineResolvers_throws schema typeToServiceMap serviceMap e :
  Gateway.defineResolvers schema typeToServiceMap serviceMap = Throw e →
  ∃ msg, e = TypeError msg.
Proof.
  unfold Gateway.defineResolvers. intros Hthrow.
  apply mapM_Throw_inv in Hthrow as (type & _ & Htype).
  unfold Gateway.define_type in Htype.
  destruct (bool_decide (type_kind type = ObjectType)
            && negb (Gateway.isDefaultType (type_name type))); [|discriminate].
  destruct (mapM _ (type_fields type)) as [fields'|e'] eqn:Hfields; [discriminate|].
  simpl in Htype. injection Htype as ->.
  apply mapM_Throw_inv in Hfields as (field & _ & Hfield).
  by eapply define_field_throws.
Qed.

(** On the index [buildGateway] computes, a declaring type that has an
    owner is enough. *)
Lemma owned_dispatchable serviceMap schema :
  NoDup serviceMap.*1 →
  (∀ type field,
     type ∈ schema → field ∈ type_fields type →
     crossing (Gateway.typeToServiceMap_of (Object_entries serviceMap)) type field →
     is_Some (Gateway.typeToServiceMap_of (Object_entries serviceMap) !! type_name type)) →
  dispatchable (Gateway.typeToServiceMap_of (Object_entries serviceMap)) serviceMap schema.
Proof.
  intros Hnd Howned type field Htype Hfield Hc Hnull.
  destruct (Howned type field Htype Hfield Hc) as [[|owner] Howner]; [done|].
  destruct (owner_is_declaring serviceMap (type_name type) owner Hnd Howner)
    as (declaringService & fields & Hdecl & Hfields).
  exists declaringService. rewrite Howner. simpl. split; [done|]. by exists fields.
Qed.

(** C1, as the code has it.  The dispatcher looks at the fields of
    object types other than the six introspection meta-types whose
    named return type is not a scalar and whose two owners differ.  It
    completes exactly when every such field off [Query] has its
    declaring type's owner in [serviceMap], with the declaring type in
    that service's typeMap, and otherwise throws a TypeError and
    attaches nothing.  When it completes, every field is in exactly one
    of four states: untouched when it is not such a field,
    root-delegated when the declaring type's owner is [null],
    entity-reference when the declaring service's typeMap lists the
    field on the declaring type, field-resolver otherwise.  On the index
    of [buildGateway] it completes as soon as the declaring type of
    every such field has an owner. *)
Theorem defineResolvers_attaches_by_ownership :
  (∀ schema typeToServiceMap serviceMap schema',
     Gateway.defineResolvers schema typeToServiceMap serviceMap = Ok schema' →
     dispatchable typeToServiceMap serviceMap schema
     ∧ dispatched typeToServiceMap serviceMap schema schema')
  ∧ (∀ schema typeToServiceMap serviceMap,
       dispatchable typeToServiceMap serviceMap schema →
       ∃ schema',
         Gateway.defineResolvers schema typeToServiceMap serviceMap = Ok schema'
         ∧ dispatched typeToServiceMap serviceMap schema schema')
  ∧ (∀ schema typeToServiceMap serviceMap,
       ¬ dispatchable typeToServiceMap serviceMap schema →
       ∃ msg,
         Gateway.defineResolvers schema typeToServiceMap serviceMap
         = Throw (TypeError msg))
  ∧ (∀ serviceMap schema,
       NoDup serviceMap.*1 →
       (∀ type field,
          type ∈ schema → field ∈ type_fields type →
          crossing (Gateway.typeToServiceMap_of (Object_entries serviceMap)) type field →
          is_Some (Gateway.typeToServiceMap_of (Object_entries serviceMap)
                   !! type_name type)) →
       ∃ schema',
         Gateway.defineResolvers schema
           (Gateway.typeToServiceMap_of (Object_entries serviceMap)) serviceMap
         = Ok schema'
         ∧ dispatched (Gateway.typeToServiceMap_of (Object_entries serviceMap))
                      serviceMap schema schema').
Proof.
  assert (Hcomplete : ∀ schema typeToServiceMap serviceMap,
             dispatchable typeToServiceMap serviceMap schema →
             ∃ schema',
               Gateway.defineResolvers schema typeToServiceMap serviceMap = Ok schema'
               ∧ dispatched typeToServiceMap serviceMap schema schema').
  { intros schema typeToServiceMap serviceMap Hdisp.
    destruct (defineResolvers_total schema typeToServiceMap serviceMap Hdisp)
      as [schema' Hdefine].
    exists schema'. split; [done|]. by apply defineResolvers_dispatched. }
  split; [|split; [exact Hcomplete|split]].
  - intros schema typeToServiceMap serviceMap schema' Hdefine. split.
    + by eapply defineResolvers_Ok_dispatchable.
    + by apply defineResolvers_dispatched.
  - intros schema typeToServiceMap serviceMap Hnot.
    destruct (Gateway.defineResolvers schema typeToServiceMap serviceMap)
      as [schema'|e] eqn:Hdefine.
    + destruct Hnot. by eapply defineResolvers_Ok_dispatchable.
    + destruct (defineResolvers_throws _ _ _ _ Hdefine) as [msg ->]. by exists msg.
  - intros serviceMap schema Hnd Howned. apply Hcomplete. by apply owned_dispatchable.
Qed.

Lemma defineResolvers_attaches_by_ownership_witness :
  ∃ schema',
    Gateway.defineResolvers Fixtures.scenario_schema
      (Gateway.typeToServiceMap_of (Object_entries Fixtures.scenario_serviceMap))
      Fixtures.scenario_serviceMap = Ok schema'
    ∧ dispatched (Gateway.typeToServiceMap_of (Object_entries Fixtures.scenario_serviceMap))
                 Fixtures.scenario_serviceMap Fixtures.scenario_schema schema'.
Proof.
  destruct defineResolvers_attaches_by_ownership as (_ & _ & _ & Hpipeline).
  apply Hpipeline.
  - apply (bool_decide_unpack _). vm_compute. exact I.
  - intros type field Htype _ (_ & Hmeta & _).
    unfold Fixtures.scenario_schema in Htype.
    repeat (apply elem_of_cons in Htype as [->|Htype]);
      try (vm_compute; eexists; reflexivity).
    + destruct Hmeta. simpl. unfold introspection_meta_types.
      apply list_elem_of_further, list_elem_of_here.
    + by apply elem_of_nil in Htype.
Defined.

(** C1 as stated fails.  [Mutation.addProduct] returns [Product], which
    the products service owns, while [Mutation], which the services
    only extend, has no owner: the field is on an object type, its
    return type is no scalar and the two owners differ, yet the
    dispatcher attaches no resolver to it, field-resolver or other: it
    throws, and no schema comes out. *)
Lemma crossing_field_of_unowned_type_throws :
  type_kind (mkType "Mutation" ObjectType [MoreFixtures.addProduct]) = ObjectType
  ∧ (getNamedType (field_type MoreFixtures.addProduct)) = ("Product", ObjectType)
  ∧ Gateway.typeToServiceMap_of (Object_entries MoreFixtures.extending_serviceMap)
    !! "Product" = Some (Gateway.Svc "products")
  ∧ Gateway.typeToServiceMap_of (Object_entries MoreFixtures.extending_serviceMap)
    !! "Mutation" = None
  ∧ Gateway.defineResolvers MoreFixtures.mutation_schema
      (Gateway.typeToServiceMap_of (Object_entries MoreFixtures.extending_serviceMap))
      MoreFixtures.extending_serviceMap
    = Throw (TypeError "Cannot read property 'typeMap' of undefined").
Proof.
  split; [reflexivity|]. split; [reflexivity|].
  split; [vm_compute; reflexivity|]. split; [vm_compute; reflexivity|].
  vm_compute. reflexivity.
Qed.

(** The scenario, evaluated: [Query.reviews] is root-delegated to the
    reviews service, [Review.author] is an entity reference into the
    users service, [Review.product] is a field-resolver on [Review] bound
    to the products service, and nothing else is touched. *)
Example defineResolvers_scenario :
  Gateway.defineResolvers Fixtures.scenario_schema
    (Gateway.typeToServiceMap_of Fixtures.scenario_serviceMap)
    Fixtures.scenario_serviceMap
  = Ok [mkType "Query" ObjectType
          [mkField "reviews" (ListOf (Named "Review" ObjectType))
             (Some (Gateway.ResolveQuery (Some Fixtures.reviews_service)))];
        mkType "Review" ObjectType
          [mkField "id" Fixtures.ID None; mkField "productId" Fixtures.ID None;
           mkField "author" (Named "User" ObjectType)
             (Some (Gateway.ReferenceResolver (Some Fixtures.users_service)));
           mkField "product" (Named "Product" ObjectType)
             (Some (Gateway.FieldResolver (Some Fixtures.products_service) "Review"))];
        mkType "Product" ObjectType
          [mkField "id" Fixtures.ID None;
           mkField "name" (Named "String" ScalarType) None];
        mkType "User" ObjectType [mkField "id" Fixtures.ID None];
        mkType "__Type" ObjectType
          [mkField "ofType" (Named "__Type" ObjectType) None]].
Proof. vm_compute. reflexivity. Qed.

(** ** Resolvers of the gateway module *)




(** ** The [representations] variable *)

Lemma payload_variables_spec cfg names parent info vars :
  MakeResolver.payload_variables cfg names parent info = Ok vars →
  (MakeResolver.isReference cfg = true →
     ∃ field, get_prop parent (MakeResolver.fieldName info) = Ok field
              ∧ assoc "representations" vars = Some (JArray [field]))
  ∧ (MakeResolver.isReference cfg = false → MakeResolver.isQuery cfg = false →
       assoc "representations" vars = Some (JArray [parent]))
  ∧ (MakeResolver.isReference cfg = false → MakeResolver.isQuery cfg = true →
       vars = MakeResolver.forwarded_variables names (MakeResolver.variableValues info)).
Proof.
  unfold MakeResolver.payload_variables.
  destruct (MakeResolver.isReference cfg).
  - destruct (get_prop parent (MakeResolver.fieldName info)) as [field|e] eqn:Hf;
      simpl; [|discriminate].
    intros [= <-]. split; [|split; discriminate].
    intros _. exists field. split; [done|]. rewrite assoc_obj_set. by rewrite decide_True.
  - destruct (MakeResolver.isQuery cfg); simpl; intros [= <-].
    + split; [discriminate|]. split; [discriminate|done].
    + split; [discriminate|]. split; [|discriminate].
      intros _ _. rewrite assoc_obj_set. by rewrite decide_True.
Qed.

Lemma resolver_body_variables fuel cfg parent info body :
  MakeResolver.resolver_body fuel cfg parent info = Some (Ok body) →
  ∃ names vars,
    variables body = Some vars
    ∧ MakeResolver.payload_variables cfg names parent info = Ok vars.
Proof.
  unfold MakeResolver.resolver_body.
  destruct (MakeResolver.fieldNodes info) as [|fieldNode ?]; [discriminate|].
  destruct (selectionSet fieldNode) as [fieldSelections|]; [|discriminate].
  destruct (MakeResolver.removeNonServiceTypeFields _ _ _ _) as [selections|];
    [|discriminate].
  destruct (variableDefinitions _) as [definitions|]; [|discriminate].
  destruct (MakeResolver.getFragmentNamesInSelection selections) as [used|]; [|discriminate].
  destruct (MakeResolver.collectFragmentsToInclude _ _ _ _ _) as [[frags|]|]; try discriminate.
  destruct (MakeResolver.payload_variables _ _ _ _) as [vars|] eqn:Hvars; simpl;
    [|discriminate].
  intros [= <-]. eexists _, vars. split; [reflexivity|exact Hvars].
Qed.

(** ** Variable forwarding *)

(** What line 292 keeps: the definitions of the original operation whose
    variable bears the name of an argument that is given a variable,
    on the originating field or in the pruned selections. *)
Lemma variablesToDefine_by_argument_name selections fieldNode definitions definition :
  definition ∈ MakeResolver.variablesToDefine
                 (MakeResolver.variableNamesToDefine selections fieldNode) definitions
  ↔ definition ∈ definitions
    ∧ (variable definition ∈ MakeResolver.collectArgumentsWithVariableValues selections
       ∨ variable definition ∈ MakeResolver.collectArgumentNames fieldNode).
Proof.
  unfold MakeResolver.variablesToDefine, MakeResolver.variableNamesToDefine.
  rewrite list_elem_of_filter. set_solver.
Qed.

(** C3 at [query GetUser($userId: ID!) { user(id: $userId) { name } }]:
    the root-delegated sub-operation keeps the argument [id: $userId]
    and declares no variable, because the collector gathers the argument
    name [id] where the variable name [userId] is meant; the value of
    [userId] is not forwarded either.  At
    [query Swap($id: ID!, $other: ID!) { user(id: $other) { name } }] it
    declares and sends [id], which nothing references, and leaves out
    [other]. *)
Theorem forwarded_definitions_miss_renamed_variable :
  MakeResolver.resolver_body 1 (Fixtures.mr_config MakeResolver.RootDelegate)
    JUndefined Fixtures.GetUser_info
  = Some (Ok (mkBody
       (Printed
          (Document
             [OperationDefinition "query" "Query_user" (Some []) []
                [Selection FIELD None (Some "user")
                   (Some [Argument "id" (VARIABLE "userId")]) [] None
                   (Some [Fixtures.leaf "name"; typename_field])]])
          [])
       (Some [])))
  ∧ MakeResolver.collectArgumentNames Fixtures.user_field = ["id"]
  ∧ ("userId" ∈ referenced_variables [Fixtures.leaf "name"; typename_field]
                  Fixtures.user_field)
  ∧ ("userId" ∉ declared_variables
                  (OperationDefinition "query" "Query_user" (Some []) []
                     [Selection FIELD None (Some "user")
                        (Some [Argument "id" (VARIABLE "userId")]) [] None
                        (Some [Fixtures.leaf "name"; typename_field])]))
  ∧ MakeResolver.resolver_body 1 (Fixtures.mr_config MakeResolver.RootDelegate)
      JUndefined Fixtures.Swap_info
    = Some (Ok (mkBody
         (Printed
            (Document
               [OperationDefinition "query" "Query_user"
                  (Some [VariableDefinition "id" (NON_NULL_TYPE (NAMED_TYPE "ID")) []]) []
                  [Selection FIELD None (Some "user")
                     (Some [Argument "id" (VARIABLE "other")]) [] None
                     (Some [Fixtures.leaf "name"; typename_field])]])
            [])
         (Some [("id", JString "1")])))
  ∧ ("id" ∉ referenced_variables [Fixtures.leaf "name"; typename_field]
              Fixtures.swapped_field).
Proof.
  split; [vm_compute; reflexivity|]. split; [reflexivity|].
  split; [unfold referenced_variables; simpl; set_solver|].
  split; [unfold declared_variables; simpl; set_solver|].
  split; [vm_compute; reflexivity|].
  unfold referenced_variables. simpl. set_solver.
Qed.

(** ** Fragment forwarding *)

Lemma collectFragmentsToInclude_step fuel fragmentName fragment selections names
      fragments service schema :
  fragments !! fragmentName = Some fragment →
  MakeResolver.removeNonServiceTypeFields (frag_selections fragment) service
    (frag_typeCondition fragment) schema = Ok selections →
  MakeResolver.getFragmentNamesInSelection selections = Ok names →
  MakeResolver.collectFragmentsToInclude (S fuel) [fragmentName] fragments service schema
  = match MakeResolver.collectFragmentsToInclude fuel
            (filter (λ n, n ∉ ({[fragmentName]} ∪ ∅ : gset string)) names)
            fragments service None with
    | None => None
    | Some (Throw e) => Some (Throw e)
    | Some (Ok nested) =>
        Some (Ok (MakeResolver.with_fragment_selections fragment selections
                  :: nested ++ []))
    end.
Proof.
  intros Hfragment Hselections Hnames. simpl.
  rewrite Hfragment, Hselections, Hnames.
  destruct (MakeResolver.collectFragmentsToInclude fuel _ fragments service None)
    as [[nested|e]|]; reflexivity.
Qed.

(** Two fragments that spread each other: whatever [schema] a caller
    passes, no recursion depth is enough. *)
Lemma two_cycle_never_returns fuel schema :
  MakeResolver.collectFragmentsToInclude fuel ["A"] Fixtures.cyclic_fragments
    Fixtures.mr_users schema = None
  ∧ MakeResolver.collectFragmentsToInclude fuel ["B"] Fixtures.cyclic_fragments
      Fixtures.mr_users schema = None.
Proof.
  revert schema. induction fuel as [|fuel IH]; intros schema; [done|].
  split.
  - rewrite (collectFragmentsToInclude_step fuel "A" Fixtures.fragment_A
               [Fixtures.spread "B"; typename_field] ["B"]);
      [|reflexivity|reflexivity|reflexivity].
    replace (filter (λ n, n ∉ ({["A"]} ∪ ∅ : gset string)) ["B"]) with ["B"]
      by (vm_compute; reflexivity).
    by rewrite (proj2 (IH None)).
  - rewrite (collectFragmentsToInclude_step fuel "B" Fixtures.fragment_B
               [Fixtures.spread "A"; typename_field] ["A"]);
      [|reflexivity|reflexivity|reflexivity].
    replace (filter (λ n, n ∉ ({["B"]} ∪ ∅ : gset string)) ["A"]) with ["A"]
      by (vm_compute; reflexivity).
    by rewrite (proj1 (IH None)).
Qed.

(** C9 at the fragments [A { ...B }] and [B { ...A }]: collection never
    returns, at any recursion depth; the visited set that would stop it
    is created afresh by each activation.  A fragment that spreads
    itself is stopped, which is as far as the guard reaches. *)
Theorem collectFragmentsToInclude_two_cycle_diverges :
  (∀ fuel,
     MakeResolver.collectFragmentsToInclude fuel ["A"] Fixtures.cyclic_fragments
       Fixtures.mr_users (Some Fixtures.mr_schema) = None)
  ∧ MakeResolver.collectFragmentsToInclude 2 ["S"] Fixtures.self_fragments
      Fixtures.mr_users (Some Fixtures.mr_schema)
    = Some (Ok [FragmentDefinition "S" "User" []
                  [Fixtures.leaf "name"; Fixtures.spread "S"; typename_field]]).
Proof.
  split.
  - intros fuel. apply two_cycle_never_returns.
  - vm_compute. reflexivity.
Qed.

(** ** Selection rewriter *)

Lemma SelectionNode_nested_ind (P : SelectionNode → Prop) :
  (∀ k a n args d tc, P (Selection k a n args d tc None)) →
  (∀ k a n args d tc selections,
     Forall P selections → P (Selection k a n args d tc (Some selections))) →
  ∀ selection, P selection.
Proof.
  intros Hleaf Hnode. fix IH 1. intros [k a n args d tc [selections|]].
  - apply Hnode. induction selections as [|x l IHl]; constructor; [apply IH|exact IHl].
  - apply Hleaf.
Qed.

Lemma map_retained_cons keep f x l :
  map_retained keep f (x :: l)
  = (b ← keep x;
     if b : bool then x' ← f x; r ← map_retained keep f l; Ok (x' :: r)
     else map_retained keep f l).
Proof. reflexivity. Qed.

(** [filter(keep).map(f)], when it returns: [keep] gave a verdict on
    every element and [f] mapped, in order, the elements whose verdict
    was true. *)
Lemma filter_map_Ok keep f selections out :
  filter_map keep f selections = Ok out →
  Forall (λ x, ∃ b, keep x = Ok b) selections
  ∧ Forall2 (λ x y, f x = Ok y) (filter (λ x, keep x = Ok true) selections) out.
Proof.
  unfold filter_map. destruct (mapM keep selections) as [flags|e] eqn:Hflags; simpl;
    [|discriminate].
  clear flags Hflags. revert out.
  induction selections as [|x l IH]; intros out.
  - intros [= <-]. split; constructor.
  - rewrite map_retained_cons.
    destruct (keep x) as [b|e] eqn:Hx; simpl; [|discriminate].
    rewrite filter_cons. destruct b.
    + destruct (f x) as [x'|e] eqn:Hfx; simpl; [|discriminate].
      destruct (map_retained keep f l) as [r|e] eqn:Hr; simpl; [|discriminate].
      intros [= <-]. destruct (IH r eq_refl) as [Hall Hmap].
      split; [constructor; eauto|].
      rewrite decide_True by done. by constructor.
    + intros Hr. destruct (IH out Hr) as [Hall Hmap].
      split; [constructor; eauto|].
      rewrite Hx. by rewrite decide_False by discriminate.
Qed.

Lemma filter_ext_Forall {A} (P Q : A → Prop)
      `{∀ x, Decision (P x)} `{∀ x, Decision (Q x)} (l : list A) :
  Forall (λ x, P x ↔ Q x) l → filter P l = filter Q l.
Proof.
  induction 1 as [|x l Hx _ IH]; [done|].
  rewrite !filter_cons, IH.
  destruct (decide (P x)), (decide (Q x)); tauto.
Qed.

Lemma Forall2_Forall_impl {A B} (P : A → Prop) (R S : A → B → Prop) l k :
  Forall P l → (∀ x y, P x → R x y → S x y) → Forall2 R l k → Forall2 S l k.
Proof.
  intros HP Himpl HR. induction HR as [|x y l k Hxy _ IH]; [constructor|].
  apply Forall_cons in HP as [Hx HP]. constructor; auto.
Qed.

(** *** The rewriter of [make-resolver.js] does what section 4.4 says *)

Lemma keep_retained service type selection :
  (∃ b, MakeResolver.keep service type selection = Ok b) →
  MakeResolver.keep service type selection = Ok true
  ↔ retained (owned_fields (MakeResolver.typeMap service) type) selection.
Proof.
  unfold MakeResolver.keep, owned_fields, retained, name_value.
  destruct (MakeResolver.typeMap service !! type) as [fields|]; simpl;
    [|intros [b Hb]; discriminate Hb].
  destruct (name selection) as [n|]; simpl; [|intros [b Hb]; discriminate Hb].
  intros _. split.
  - intros [= Hb]. exists n. split; [done|].
    apply orb_true_iff in Hb as [Hb|Hb]; apply bool_decide_eq_true in Hb; auto.
  - intros (n' & [= <-] & Hor). f_equal. apply orb_true_iff.
    destruct Hor; [left|right]; by apply bool_decide_eq_true.
Qed.

Lemma rewrite_selection_pruned service schema selection :
  ∀ type selection',
    MakeResolver.rewrite_selection service schema type selection = Ok selection' →
    pruned_selection (MakeResolver.typeMap service) schema type selection selection'.
Proof.
  induction selection as [k a n args d tc|k a n args d tc nested IH]
    using SelectionNode_nested_ind; intros type selection'; simpl.
  - intros [= <-]. by apply pruned_leaf.
  - unfold name_value. simpl. destruct n as [n|]; simpl; [|discriminate].
    destruct (MakeResolver.getFieldType schema type n) as [type'|] eqn:Htype'; simpl;
      [|discriminate].
    destruct (filter_map _ _ nested) as [kept|] eqn:Hkept; simpl; [|discriminate].
    intros [= <-]. apply filter_map_Ok in Hkept as [Hverdicts Hmapped].
    eapply (pruned_nested _ _ _ _ n type' nested); [done|done|done|].
    constructor.
    rewrite <- (filter_ext_Forall (λ x, MakeResolver.keep service type' x = Ok true)
                  (retained (owned_fields (MakeResolver.typeMap service) type'))).
    + apply (Forall2_Forall_impl
               (λ x, ∀ type y, MakeResolver.rewrite_selection service schema type x = Ok y →
                               pruned_selection (MakeResolver.typeMap service) schema type x y)
               (λ x y, MakeResolver.rewrite_selection service schema type' x = Ok y));
        [|intros x y Hx Hxy; exact (Hx type' y Hxy)|exact Hmapped].
      apply Forall_forall. intros x Hx. apply list_elem_of_filter in Hx as [_ Hx].
      exact (proj1 (Forall_forall _ _) IH x Hx).
    + eapply Forall_impl; [exact Hverdicts|]. intros x Hx. by apply keep_retained.
Qed.

(** Section 4.4, for the rewriter of [make-resolver.js]: whenever it
    returns, the result is the retained selections in order, each pruned
    under its field's declared return type, and one [__typename] at the
    end of every level. *)
Lemma removeNonServiceTypeFields_pruned selections service type schema out :
  MakeResolver.removeNonServiceTypeFields selections service type schema = Ok out →
  pruned (MakeResolver.typeMap service) schema type selections out.
Proof.
  unfold MakeResolver.removeNonServiceTypeFields.
  destruct (filter_map _ _ selections) as [kept|] eqn:Hkept; simpl; [|discriminate].
  intros [= <-]. apply filter_map_Ok in Hkept as [Hverdicts Hmapped].
  constructor.
  rewrite <- (filter_ext_Forall (λ x, MakeResolver.keep service type x = Ok true)
                (retained (owned_fields (MakeResolver.typeMap service) type))).
  - eapply Forall2_impl; [exact Hmapped|]. intros x y. apply rewrite_selection_pruned.
  - eapply Forall_impl; [exact Hverdicts|]. intros x Hx. by apply keep_retained.
Qed.

Lemma filter_map_total keep f selections :
  Forall (λ x, ∃ b, keep x = Ok b) selections →
  Forall (λ x, keep x = Ok true → ∃ y, f x = Ok y) selections →
  ∃ out, filter_map keep f selections = Ok out.
Proof.
  intros Hkeep Hf. unfold filter_map.
  destruct (mapM_total keep selections Hkeep) as [flags ->]. simpl.
  induction selections as [|x l IH].
  - by eexists.
  - rewrite map_retained_cons.
    apply Forall_cons in Hkeep as [[b Hb] Hkeep]. apply Forall_cons in Hf as [Hfx Hf].
    rewrite Hb. simpl. destruct (IH Hkeep Hf) as [r Hr]. destruct b.
    + destruct (Hfx Hb) as [y ->]. simpl. rewrite Hr. simpl. by eexists.
    + by eexists.
Qed.

Lemma rewritable_keep service schema type selections :
  rewritable (MakeResolver.typeMap service) schema type selections →
  Forall (λ x, ∃ b, MakeResolver.keep service type x = Ok b) selections.
Proof.
  intros Hrw. inversion Hrw as [? ? Htype Hall]; subst.
  destruct selections as [|x l]; [constructor|].
  destruct Htype as [fields Hfields]; [done|].
  eapply Forall_impl; [exact Hall|]. intros y Hy.
  unfold MakeResolver.keep, name_value. rewrite Hfields.
  inversion Hy as [? ? n Hn|? ? n Hn|? ? n ? ? Hn]; subst; rewrite Hn; simpl; by eexists.
Qed.

Lemma rewrite_selection_total service schema selection :
  ∀ type,
    rewritable_selection (MakeResolver.typeMap service) schema type selection →
    retained (owned_fields (MakeResolver.typeMap service) type) selection →
    ∃ selection', MakeResolver.rewrite_selection service schema type selection
                  = Ok selection'.
Proof.
  induction selection as [k a n args d tc|k a n args d tc nested IH]
    using SelectionNode_nested_ind; intros type Hrw Hret; simpl; [by eexists|].
  inversion Hrw as [? ? n' Hn Hdrop|? ? n' Hn Hleaf|? ? n' nested' type' Hn Hnested Htype' Hsub];
    subst; simpl in *; [done|discriminate|].
  injection Hnested as <-. rewrite Hn in *. unfold name_value. simpl.
  rewrite Htype'. simpl.
  destruct (filter_map_total (MakeResolver.keep service type')
              (MakeResolver.rewrite_selection service schema type') nested) as [kept ->].
  - by eapply rewritable_keep.
  - inversion Hsub as [? ? _ Hall]; subst.
    apply Forall_forall. intros x Hx Hkeep.
    apply (proj1 (Forall_forall _ _) IH x Hx type').
    + exact (proj1 (Forall_forall _ _) Hall x Hx).
    + apply keep_retained; [by eexists|done].
  - simpl. by eexists.
Qed.

(** On accepted input the rewriter of [make-resolver.js] returns, and
    what it returns is the pruning of section 4.4. *)
Lemma removeNonServiceTypeFields_returns selections service type schema :
  rewritable (MakeResolver.typeMap service) schema type selections →
  ∃ out,
    MakeResolver.removeNonServiceTypeFields selections service type schema = Ok out
    ∧ pruned (MakeResolver.typeMap service) schema type selections out.
Proof.
  intros Hrw.
  assert (∃ out, MakeResolver.removeNonServiceTypeFields selections service type schema
                 = Ok out) as [out Hout].
  { unfold MakeResolver.removeNonServiceTypeFields.
    destruct (filter_map_total (MakeResolver.keep service type)
                (MakeResolver.rewrite_selection service schema type) selections)
      as [kept ->].
    - by eapply rewritable_keep.
    - inversion Hrw as [? ? _ Hall]; subst.
      apply Forall_forall. intros x Hx Hkeep.
      apply rewrite_selection_total.
      + exact (proj1 (Forall_forall _ _) Hall x Hx).
      + apply keep_retained; [by eexists|done].
    - simpl. by eexists. }
  exists out. split; [done|]. by apply removeNonServiceTypeFields_pruned.
Qed.

(** *** The rewriter of the gateway module *)

(** Retention is by field name alone, and the nested selection set is
    rewritten under the type the parent level was rewritten under. *)
Lemma gateway_rewriter_shape selections service type out :
  Gateway.removeNonServiceTypeFields selections service type = Ok out →
  ∃ kept,
    out = kept ++ [typename_field]
    ∧ Forall2 (λ x y, Gateway.rewrite_selection service type x = Ok y)
              (filter (λ x, Gateway.has_field service type x = Ok true) selections) kept.
Proof.
  unfold Gateway.removeNonServiceTypeFields.
  destruct (filter_map _ _ selections) as [kept|] eqn:Hkept; simpl; [|discriminate].
  intros [= <-]. apply filter_map_Ok in Hkept as [_ Hmapped]. by exists kept.
Qed.

Lemma gateway_rewriter_same_type service type k a n args d tc nested :
  Gateway.rewrite_selection service type (Selection k a n args d tc (Some nested))
  = (out ← Gateway.removeNonServiceTypeFields nested service type;
     Ok (Selection k a n args d tc (Some out))).
Proof.
  simpl. unfold Gateway.removeNonServiceTypeFields.
  by destruct (filter_map _ _ nested).
Qed.

Lemma gateway_rewriter_drops_spread service fields type fragmentName a args d tc sub :
  Gateway.typeMap service !! type = Some fields →
  fragmentName ∉ fields →
  Gateway.has_field (Some service) type
    (Selection FRAGMENT_SPREAD a (Some fragmentName) args d tc sub) = Ok false.
Proof.
  intros Hfields Hnot. unfold Gateway.has_field. rewrite Hfields. simpl.
  by rewrite bool_decide_eq_false_2.
Qed.

(** C2 at [{ ...UserFields name }] on [User]: the rewriter of the
    gateway module returns [{ name __typename }], without the fragment
    spread that section 4.4 retains; the rewriter of [make-resolver.js]
    returns [{ ...UserFields name __typename }]. *)
Theorem first_rewriter_drops_fragment_spread :
  Gateway.removeNonServiceTypeFields
    [Fixtures.spread "UserFields"; Fixtures.leaf "name"]
    (Some Fixtures.profiles_service) "User"
  = Ok [Fixtures.leaf "name"; typename_field]
  ∧ retained (owned_fields (Gateway.typeMap Fixtures.profiles_service) "User")
             (Fixtures.spread "UserFields")
  ∧ MakeResolver.removeNonServiceTypeFields
      [Fixtures.spread "UserFields"; Fixtures.leaf "name"]
      Fixtures.mr_users "User" (Some Fixtures.mr_schema)
    = Ok [Fixtures.spread "UserFields"; Fixtures.leaf "name"; typename_field].
Proof.
  split; [vm_compute; reflexivity|]. split; [|vm_compute; reflexivity].
  exists "UserFields". split; [reflexivity|]. by right.
Qed.

(** C6 at [{ address { city } }] on [User]: the rewriter of the gateway
    module prunes the nested set against the fields of [User], the
    parent's type, and so loses [city]; the declared return type of
    [User.address] is [Address], which owns [city], and the rewriter of
    [make-resolver.js] keeps it. *)
Theorem first_rewriter_prunes_nested_under_parent_type :
  Gateway.removeNonServiceTypeFields [Fixtures.address_city]
    (Some Fixtures.profiles_service) "User"
  = Ok [Selection FIELD None (Some "address") (Some []) [] None (Some [typename_field]);
        typename_field]
  ∧ MakeResolver.getFieldType (Some Fixtures.mr_schema) "User" "address" = Ok "Address"
  ∧ ("city" ∈ owned_fields (Gateway.typeMap Fixtures.profiles_service) "Address")
  ∧ ("city" ∉ owned_fields (Gateway.typeMap Fixtures.profiles_service) "User")
  ∧ MakeResolver.removeNonServiceTypeFields [Fixtures.address_city]
      Fixtures.mr_users "User" (Some Fixtures.mr_schema)
    = Ok [Selection FIELD None (Some "address") (Some []) [] None
            (Some [Fixtures.leaf "city"; typename_field]);
          typename_field].
Proof.
  split; [vm_compute; reflexivity|]. split; [vm_compute; reflexivity|].
  split; [|split; [|vm_compute; reflexivity]].
  - apply (bool_decide_unpack _). vm_compute. exact I.
  - apply (bool_decide_unpack _). vm_compute. exact I.
Qed.

(** ** Bootstrap *)

Section BootstrapFacts.
Variable JSON_parse : string → result JsVal.
Variable parse : string → result (list Gateway.DefinitionNode).
Variable network : string → Body → list Gateway.ReqEvent.


Lemma rejections_spec {A} (ps : list (Promise A)) e :
  e ∈ Gateway.rejections ps
  ↔ ∃ k, ps !! k = Some (Rejected e) ∧ Gateway.startable ps k = true.
Proof.
  unfold Gateway.rejections. rewrite list_elem_of_omap. split.
  - intros ([k p] & Hin & Hp). apply list_elem_of_lookup in Hin as [i Hi].
    rewrite list_lookup_imap in Hi.
    destruct (ps !! i) as [p'|] eqn:Hpi; simpl in Hi; [|discriminate].
    injection Hi as <- <-. destruct p' as [| |e']; try discriminate.
    destruct (Gateway.startable ps i) eqn:Hs; [|discriminate].
    injection Hp as ->. by exists i.
  - intros (k & Hk & Hs). exists (k, Rejected e). split.
    + apply list_elem_of_lookup. exists k. rewrite list_lookup_imap. by rewrite Hk.
    + by rewrite Hs.
Qed.

End BootstrapFacts.

(** * Further properties *)

(** ** [createTypeMap] *)

Lemma recorded_test definition :
  Gateway.isTypeDefinitionNode (Gateway.def_kind definition)
  || (Gateway.isTypeExtensionNode (Gateway.def_kind definition)
      && bool_decide (Gateway.def_name definition = "Query")) = true
  ↔ recorded definition.
Proof.
  unfold recorded. rewrite orb_true_iff, andb_true_iff, bool_decide_eq_true. tauto.
Qed.

Lemma typeMap_of_definitions_lookup defs typeMap0 typeMap name :
  Gateway.typeMap_of_definitions defs typeMap0 = Ok typeMap →
  typeMap !! name = match last (recorded_as name defs) with
                    | Some definition => field_set definition
                    | None => typeMap0 !! name
                    end.
Proof.
  revert typeMap0. induction defs as [|d defs IH]; intros typeMap0; simpl.
  - by intros [= <-].
  - unfold recorded_as in *. rewrite filter_cons.
    destruct (_ || _) eqn:Htest.
    + apply recorded_test in Htest.
      destruct (Gateway.def_fields d) as [fields|] eqn:Hfields; [|discriminate].
      intros Hrest. rewrite (IH _ Hrest).
      destruct (decide (recorded d ∧ Gateway.def_name d = name)) as [[_ <-]|Hno].
      * rewrite last_cons. destruct (last _); [done|].
        rewrite lookup_insert_eq. unfold field_set. by rewrite Hfields.
      * destruct (last _); [done|]. rewrite lookup_insert_ne; [done|]. tauto.
    + intros Hrest. rewrite (IH _ Hrest).
      rewrite decide_False; [done|]. intros [Hrec _].
      apply recorded_test in Hrec. congruence.
Qed.

Lemma typeMap_of_definitions_returns defs typeMap0 :
  (Forall (λ d, recorded d → is_Some (Gateway.def_fields d)) defs →
   ∃ typeMap, Gateway.typeMap_of_definitions defs typeMap0 = Ok typeMap)
  ∧ (Exists (λ d, recorded d ∧ Gateway.def_fields d = None) defs →
     Gateway.typeMap_of_definitions defs typeMap0
     = Throw (TypeError "Cannot read property 'map' of undefined")).
Proof.
  revert typeMap0. induction defs as [|d defs IH]; intros typeMap0; simpl.
  - split; [by eexists|]. intros H. by apply Exists_nil in H.
  - destruct (_ || _) eqn:Htest.
    + apply recorded_test in Htest.
      destruct (Gateway.def_fields d) as [fields|] eqn:Hfields.
      * split.
        -- intros Hall. apply Forall_cons in Hall as [_ Hall]. by apply IH.
        -- intros Hex. apply Exists_cons in Hex as [[_ Hnone]|Hex]; [congruence|].
           by apply IH.
      * split; [|done]. intros Hall. apply Forall_cons in Hall as [Hd _].
        destruct (Hd Htest) as [? Heq]. congruence.
    + split.
      * intros Hall. apply Forall_cons in Hall as [_ Hall]. by apply IH.
      * intros Hex. apply Exists_cons in Hex as [[Hrec _]|Hex]; [|by apply IH].
        apply recorded_test in Hrec. congruence.
Qed.

(** X1: in the typeMap of an SDL, a type name reads as the field names of
    the last recorded definition that bears it -- a later [type Query] or
    [extend type Query] replaces the fields of an earlier one, it does
    not add to them -- and a name that only extensions of a type other
    than [Query] bear is no key at all. *)
Theorem createTypeMap_last_definition_wins
        (parse : string → result (list Gateway.DefinitionNode))
        (sdl : string) (defs : list Gateway.DefinitionNode)
        (result_sdl : string) (typeMap : gmap string (gset string))
        (Hparse : parse sdl = Ok defs)
        (Hreturns : Gateway.createTypeMap parse (JString sdl) = Ok (result_sdl, typeMap)) :
  result_sdl = sdl
  ∧ ∀ name, typeMap !! name = last (recorded_as name defs) ≫= field_set.
Proof.
  unfold Gateway.createTypeMap in Hreturns. simpl in Hreturns.
  rewrite Hparse in Hreturns. simpl in Hreturns.
  destruct (Gateway.typeMap_of_definitions defs ∅) as [tm|] eqn:Htm; [|discriminate].
  simpl in Hreturns. injection Hreturns as <- <-. split; [done|]. intros name.
  rewrite (typeMap_of_definitions_lookup defs ∅ tm name Htm).
  by destruct (last _).
Qed.

Lemma createTypeMap_last_definition_wins_witness :
  Fixtures.product_sdl = Fixtures.product_sdl
  ∧ ∀ name,
      ({[ "Product" := {[ "id" ]} ]} : gmap string (gset string)) !! name
      = last (recorded_as name
                [Gateway.mkDefinition Gateway.OBJECT_TYPE_DEFINITION "Product"
                                      (Some ["id"])])
        ≫= field_set.
Proof.
  apply (createTypeMap_last_definition_wins Fixtures.parse_sdl Fixtures.product_sdl
           _ Fixtures.product_sdl); vm_compute; reflexivity.
Defined.

(** X2: [createTypeMap] returns exactly when every recorded definition
    has a [fields] member; one recorded definition without it -- which
    is how graphql parses a scalar, union or enum definition -- makes it
    throw the TypeError of [undefined.map]. *)
Theorem createTypeMap_needs_fields
        (parse : string → result (list Gateway.DefinitionNode))
        (sdl : string) (defs : list Gateway.DefinitionNode)
        (Hparse : parse sdl = Ok defs) :
  (Forall (λ d, recorded d → is_Some (Gateway.def_fields d)) defs →
   ∃ typeMap, Gateway.createTypeMap parse (JString sdl) = Ok (sdl, typeMap))
  ∧ (Exists (λ d, recorded d ∧ Gateway.def_fields d = None) defs →
     Gateway.createTypeMap parse (JString sdl)
     = Throw (TypeError "Cannot read property 'map' of undefined")).
Proof.
  unfold Gateway.createTypeMap. simpl. rewrite Hparse. simpl.
  destruct (typeMap_of_definitions_returns defs ∅) as [Hyes Hno]. split.
  - intros Hall. destruct (Hyes Hall) as [tm ->]. by exists tm.
  - intros Hex. by rewrite (Hno Hex).
Qed.

Lemma createTypeMap_needs_fields_witness :
  Gateway.createTypeMap MoreFixtures.parse_role_sdl (JString MoreFixtures.role_sdl)
  = Throw (TypeError "Cannot read property 'map' of undefined")
  ∧ ∃ typeMap,
      Gateway.createTypeMap Fixtures.parse_sdl (JString Fixtures.product_sdl)
      = Ok (Fixtures.product_sdl, typeMap).
Proof.
  split.
  - eapply (createTypeMap_needs_fields MoreFixtures.parse_role_sdl); [reflexivity|].
    apply Exists_cons_hd. split; [by left|reflexivity].
  - eapply (createTypeMap_needs_fields Fixtures.parse_sdl); [reflexivity|].
    repeat constructor. intros _. by eexists.
Defined.

(** ** Transport, continued *)

(** X3: a status-200 response whose body [JSON.parse] refuses leaves a
    pending promise pending: the throw happens inside the ['end']
    listener, where nothing rejects. *)
Theorem unparsable_body_leaves_promise_pending
        (JSON_parse : string → result JsVal)
        (before : list Gateway.ReqEvent) (chunks : list string) (e : Exn)
        (Hpending : Gateway.request_promise JSON_parse before = Pending)
        (Hparse : JSON_parse (foldl (λ data chunk, data +:+ chunk) "" chunks) = Throw e) :
  Gateway.request_promise JSON_parse
    (before ++ [Gateway.ReqResponse 200 ((Gateway.Data <$> chunks) ++ [Gateway.End])])
  = Pending.
Proof.
  unfold Gateway.request_promise in *. rewrite foldl_app, Hpending. simpl.
  generalize dependent (EmptyString). intros data0.
  revert data0. induction chunks as [|chunk chunks IH]; intros data0 Hparse; simpl in *.
  - by rewrite Hparse.
  - by apply IH.
Qed.

Lemma unparsable_body_leaves_promise_pending_witness :
  Gateway.request_promise Fixtures.parse_empty_object
    ([] ++ [Gateway.ReqResponse 200 ((Gateway.Data <$> ["<html>"; "</html>"]) ++ [Gateway.End])])
  = Pending.
Proof.
  eapply (unparsable_body_leaves_promise_pending Fixtures.parse_empty_object []
            ["<html>"; "</html>"]); reflexivity.
Defined.

(** X4: the first settlement is final: whatever events follow -- an
    error after the body was read, a response after an error -- the
    promise stays as it was settled. *)
Theorem settled_promise_ignores_later_events
        (JSON_parse : string → result JsVal) (evs later : list Gateway.ReqEvent)
        (Hsettled : Gateway.request_promise JSON_parse evs ≠ Pending) :
  Gateway.request_promise JSON_parse (evs ++ later)
  = Gateway.request_promise JSON_parse evs.
Proof.
  unfold Gateway.request_promise in *. rewrite foldl_app.
  by apply foldl_on_event_settled.
Qed.

Lemma settled_promise_ignores_later_events_witness :
  Gateway.request_promise Fixtures.parse_empty_object
    ([Gateway.ReqResponse 200 [Gateway.Data "{}"; Gateway.End]]
     ++ [Gateway.ReqError (TransportError "ECONNRESET")])
  = Gateway.request_promise Fixtures.parse_empty_object
      [Gateway.ReqResponse 200 [Gateway.Data "{}"; Gateway.End]].
Proof.
  apply settled_promise_ignores_later_events. vm_compute. discriminate.
Defined.

(** ** Bootstrap, continued *)

Lemma keys_obj_set {A} (k : string) (v : A) (o : list (string * A)) :
  (obj_set k v o).*1 = if decide (k ∈ o.*1) then o.*1 else o.*1 ++ [k].
Proof.
  induction o as [|[k' v'] o IH].
  - destruct (decide (k ∈ ([] : list (string * A)).*1)) as [Hin|_]; [|done].
    by apply elem_of_nil in Hin.
  - cbn [obj_set]. destruct (decide (k = k')) as [->|Hne].
    + destruct (decide (k' ∈ ((k', v') :: o).*1)) as [_|Hnot]; [done|].
      destruct Hnot. apply list_elem_of_here.
    + rewrite !fmap_cons, IH. cbn [fst].
      destruct (decide (k ∈ o.*1)) as [Hin|Hnot];
        destruct (decide (k ∈ k' :: o.*1)) as [Hin'|Hnot']; try done.
      * destruct Hnot'. by apply list_elem_of_further.
      * apply elem_of_cons in Hin' as [?|?]; done.
Qed.

Lemma NoDup_obj_set {A} (k : string) (v : A) (o : list (string * A)) :
  NoDup o.*1 → NoDup (obj_set k v o).*1.
Proof.
  intros Hnd. rewrite keys_obj_set. destruct (decide (k ∈ o.*1)); [done|].
  apply NoDup_app. split; [done|]. split; [|apply NoDup_singleton].
  intros x Hx Hk. apply list_elem_of_singleton in Hk as ->. done.
Qed.

Section ObjectFold.
Context {X A : Type} (key : X → string) (val : X → A).

Lemma NoDup_foldl_obj_set (l : list X) (o : list (string * A)) :
  NoDup o.*1 → NoDup (foldl (λ m x, obj_set (key x) (val x) m) o l).*1.
Proof.
  revert o. induction l as [|x l IH]; intros o Hnd; simpl; [done|].
  apply IH. by apply NoDup_obj_set.
Qed.

Lemma assoc_foldl_obj_set (l : list X) (o : list (string * A)) (k : string) :
  assoc k (foldl (λ m x, obj_set (key x) (val x) m) o l)
  = match last (filter (λ x, key x = k) l) with
    | Some x => Some (val x)
    | None => assoc k o
    end.
Proof.
  revert o. induction l as [|x l IH]; intros o; simpl; [done|].
  rewrite IH, filter_cons. destruct (decide (key x = k)) as [<-|Hne].
  - rewrite last_cons. destruct (last _); [done|].
    rewrite assoc_obj_set. by rewrite decide_True.
  - destruct (last _); [done|]. rewrite assoc_obj_set. by rewrite decide_False.
Qed.

Lemma keys_foldl_obj_set (l : list X) (o : list (string * A)) (k : string) :
  k ∈ (foldl (λ m x, obj_set (key x) (val x) m) o l).*1 →
  k ∈ o.*1 ∨ ∃ x, x ∈ l ∧ key x = k.
Proof.
  revert o. induction l as [|x l IH]; intros o; simpl; [by left|].
  intros Hin. destruct (IH _ Hin) as [Ho|(y & Hy & Hk)].
  - rewrite keys_obj_set in Ho. destruct (decide (key x ∈ o.*1)); [by left|].
    apply elem_of_app in Ho as [?|Hk]; [by left|].
    apply list_elem_of_singleton in Hk as ->. right. exists x. split; [|done].
    apply list_elem_of_here.
  - right. exists y. split; [|done]. by apply list_elem_of_further.
Qed.
End ObjectFold.

Lemma foldl_entries (pairs : list (Gateway.ServiceDescriptor * Gateway.Service))
      (o : list (string * Gateway.Service)) :
  foldl (λ m '(d, s), obj_set (Gateway.svc_name d) s m) o pairs
  = foldl (λ m x, obj_set (Gateway.svc_name x.1) x.2 m) o pairs.
Proof.
  revert o. induction pairs as [|[d s] pairs IH]; intros o; simpl; [done|]. apply IH.
Qed.

Lemma resolved_values_Some {A} (ps : list (Promise A)) (vs : list A) :
  Gateway.resolved_values ps = Some vs ↔ ps = Resolved <$> vs.
Proof.
  revert vs. induction ps as [|p ps IH]; intros vs; simpl.
  - split.
    + by intros [= <-].
    + destruct vs; [done|discriminate].
  - destruct p as [|a|e].
    + split; [discriminate|]. destruct vs; discriminate.
    + destruct (Gateway.resolved_values ps) as [vs'|] eqn:Hvs; simpl.
      * split.
        -- intros [= <-]. simpl. f_equal. by apply IH.
        -- destruct vs as [|v vs]; [discriminate|]. simpl. intros [= -> Hps].
           apply IH in Hps. by injection Hps as ->.
      * split; [discriminate|]. destruct vs as [|v vs]; [discriminate|].
        simpl. intros [= -> Hps]. apply IH in Hps. discriminate.
    + split; [discriminate|]. destruct vs; discriminate.
Qed.

Lemma rejections_nil {A} (ps : list (Promise A)) :
  (∀ e, Rejected e ∉ ps) → Gateway.rejections ps = [].
Proof.
  intros Hnone. destruct (Gateway.rejections ps) as [|e errs] eqn:Herrs; [done|].
  assert (e ∈ Gateway.rejections ps) as Hin by (rewrite Herrs; apply list_elem_of_here).
  apply rejections_spec in Hin as (k & Hk & _).
  destruct (Hnone e). by eapply list_elem_of_lookup_2.
Qed.

Lemma pmap_resolved {A} (vs : list A) :
  Gateway.pmap (Resolved <$> vs) = [Resolved vs].
Proof.
  unfold Gateway.pmap. rewrite rejections_nil.
  - by rewrite (proj2 (resolved_values_Some _ vs) eq_refl).
  - intros e Hin. apply list_elem_of_fmap in Hin as (v & Hv & _). discriminate.
Qed.

Lemma pmap_Resolved_inv {A} (ps : list (Promise A)) (vs : list A) :
  Resolved vs ∈ Gateway.pmap ps → ps = Resolved <$> vs.
Proof.
  unfold Gateway.pmap. destruct (Gateway.rejections ps) as [|e errs].
  - destruct (Gateway.resolved_values ps) as [vs'|] eqn:Hvs.
    + intros Hin. apply list_elem_of_singleton in Hin. injection Hin as ->.
      by apply resolved_values_Some.
    + intros Hin. apply list_elem_of_singleton in Hin. discriminate.
  - intros Hin. apply list_elem_of_fmap in Hin as (e' & He' & _). discriminate.
Qed.

Lemma mapper_by_name JSON_parse parse network services d d' :
  Gateway.svc_name d = Gateway.svc_name d' →
  Gateway.mapper JSON_parse parse network services d
  = Gateway.mapper JSON_parse parse network services d'.
Proof. intros Hname. unfold Gateway.mapper. by rewrite Hname. Qed.

(** ** Failed introspections *)


Section IntrospectionFacts.
Variable JSON_parse : string → result JsVal.
Variable parse : string → result (list Gateway.DefinitionNode).
Variable network : string → Body → list Gateway.ReqEvent.





End IntrospectionFacts.




(** X5: of several services listed under one name, the last one is the
    configuration every mapper of that name uses: each of them is
    introspected at the url of the last, and the entry of [serviceMap]
    requests there ever after. *)
Theorem mapper_uses_last_service_of_name
        (JSON_parse : string → result JsVal)
        (parse : string → result (list Gateway.DefinitionNode))
        (network : string → Body → list Gateway.ReqEvent)
        (services : list Gateway.ServiceDescriptor) (d c : Gateway.ServiceDescriptor)
        (Hlast : last (filter (λ x, Gateway.svc_name x = Gateway.svc_name d) services)
                 = Some c) :
  Gateway.mapper JSON_parse parse network services d
  = then_ (Gateway.init JSON_parse parse network c)
          (λ '(sdl, typeMap),
             Ok (Gateway.mkService sdl typeMap
                   (Gateway.service_request JSON_parse network c))).
Proof.
  unfold Gateway.mapper, Gateway.configs.
  pose proof (assoc_foldl_obj_set Gateway.svc_name id services [] (Gateway.svc_name d))
    as Hconfig.
  unfold id in Hconfig. rewrite Hconfig. by rewrite Hlast.
Qed.

Lemma mapper_uses_last_service_of_name_witness :
  Gateway.mapper Fixtures.parse_json Fixtures.parse_sdl MoreFixtures.network_new_only
    [MoreFixtures.billing_old; MoreFixtures.billing_new] MoreFixtures.billing_old
  = then_ (Gateway.init Fixtures.parse_json Fixtures.parse_sdl
             MoreFixtures.network_new_only MoreFixtures.billing_new)
          (λ '(sdl, typeMap),
             Ok (Gateway.mkService sdl typeMap
                   (Gateway.service_request Fixtures.parse_json
                      MoreFixtures.network_new_only MoreFixtures.billing_new))).
Proof.
  apply mapper_uses_last_service_of_name. vm_compute. reflexivity.
Defined.

(** X6: when [buildServiceMap] resolves, the object it resolves with has
    one entry per distinct service name and no other key, and the entry
    under a service's name is what that service's mapper resolved
    with. *)
Theorem buildServiceMap_one_entry_per_name
        (JSON_parse : string → result JsVal)
        (parse : string → result (list Gateway.DefinitionNode))
        (network : string → Body → list Gateway.ReqEvent)
        (services : list Gateway.ServiceDescriptor)
        (serviceMap : list (string * Gateway.Service))
        (Hresolved : Resolved serviceMap
                     ∈ Gateway.buildServiceMap JSON_parse parse network services) :
  NoDup serviceMap.*1
  ∧ (∀ d, d ∈ services →
          ∃ s, assoc (Gateway.svc_name d) serviceMap = Some s
               ∧ Gateway.mapper JSON_parse parse network services d = Resolved s)
  ∧ (∀ name, name ∈ serviceMap.*1 → ∃ d, d ∈ services ∧ Gateway.svc_name d = name).
Proof.
  unfold Gateway.buildServiceMap in Hresolved.
  apply list_elem_of_fmap in Hresolved as (p & Hp & Hin).
  destruct p as [|entries|e]; simpl in Hp; try discriminate.
  injection Hp as ->. apply pmap_Resolved_inv in Hin.
  rewrite foldl_entries.
  assert (Hpairs : ∀ x, x ∈ zip services entries →
            x.1 ∈ services
            ∧ Gateway.mapper JSON_parse parse network services x.1 = Resolved x.2).
  { intros [d s] Hx. apply list_elem_of_lookup in Hx as [i Hi].
    apply lookup_zip_with_Some in Hi as (d' & s' & [= <- <-] & Hd & Hs).
    split; [by eapply list_elem_of_lookup_2|]. simpl.
    assert ((Gateway.mapper JSON_parse parse network services <$> services) !! i
            = Some (Resolved s)) as Hi.
    { rewrite Hin. by rewrite list_lookup_fmap, Hs. }
    rewrite list_lookup_fmap, Hd in Hi. by injection Hi. }
  split; [|split].
  - apply (NoDup_foldl_obj_set (λ x, Gateway.svc_name x.1) snd). constructor.
  - intros d Hd.
    rewrite (assoc_foldl_obj_set (λ x, Gateway.svc_name x.1) snd).
    destruct (last _) as [[d' s']|] eqn:Hlast.
    + apply last_Some_elem_of in Hlast.
      apply list_elem_of_filter in Hlast as [Hname Hx]. simpl in Hname.
      destruct (Hpairs _ Hx) as [_ Hmapper]. simpl in Hmapper.
      exists s'. split; [done|].
      by rewrite (mapper_by_name _ _ _ _ d d').
    + apply last_None in Hlast.
      apply list_elem_of_lookup in Hd as [i Hd].
      assert (is_Some (entries !! i)) as [s Hs].
      { apply lookup_lt_is_Some. apply lookup_lt_Some in Hd.
        apply (f_equal length) in Hin. rewrite !length_fmap in Hin. lia. }
      assert ((d, s) ∈ filter (λ x : Gateway.ServiceDescriptor * Gateway.Service,
                                 Gateway.svc_name x.1 = Gateway.svc_name d)
                              (zip services entries)) as Hmem.
      { apply list_elem_of_filter. split; [done|].
        apply list_elem_of_lookup. exists i. apply lookup_zip_with_Some. eauto. }
      rewrite Hlast in Hmem. by apply elem_of_nil in Hmem.
  - intros name Hname.
    apply (keys_foldl_obj_set (λ x, Gateway.svc_name x.1) snd) in Hname
      as [Hnil|([d s] & Hx & Hk)]; [by apply elem_of_nil in Hnil|].
    exists d. split; [|done]. by destruct (Hpairs _ Hx).
Qed.

Lemma buildServiceMap_one_entry_per_name_witness :
  ∃ serviceMap,
    Resolved serviceMap
    ∈ Gateway.buildServiceMap Fixtures.parse_json Fixtures.parse_sdl
        MoreFixtures.network_new_only [MoreFixtures.billing_old; MoreFixtures.billing_new]
    ∧ NoDup serviceMap.*1
    ∧ serviceMap.*1 = ["billing"].
Proof.
  eexists. split; [vm_compute; apply list_elem_of_here|].
  split; [|reflexivity].
  eapply (buildServiceMap_one_entry_per_name Fixtures.parse_json Fixtures.parse_sdl
            MoreFixtures.network_new_only
            [MoreFixtures.billing_old; MoreFixtures.billing_new]).
  vm_compute. apply list_elem_of_here.
Defined.

Lemma resolved_values_pending {A} (ps : list (Promise A)) :
  Pending ∈ ps → Gateway.resolved_values ps = None.
Proof.
  induction ps as [|p ps IH]; intros Hin; [by apply elem_of_nil in Hin|].
  apply elem_of_cons in Hin as [<-|Hin]; [done|].
  simpl. destruct p; [done| |done]. by rewrite IH.
Qed.

(** X7: a service that answers the introspection request with statuses
    other than 200, and with no error, keeps the promise of
    [buildGateway] pending for good, as long as no other introspection
    rejects: bootstrap neither fails nor completes. *)
Theorem buildGateway_pending_on_non_200
        (JSON_parse : string → result JsVal)
        (parse : string → result (list Gateway.DefinitionNode))
        (network : string → Body → list Gateway.ReqEvent)
        (buildFederatedSchema : string → result (list (GraphQLType Gateway.Resolver)))
        (services : list Gateway.ServiceDescriptor) (d c : Gateway.ServiceDescriptor)
        (Hnone_fails : ∀ d' e, d' ∈ services →
             Gateway.mapper JSON_parse parse network services d' ≠ Rejected e)
        (Hservice : d ∈ services)
        (Hconfig : assoc (Gateway.svc_name d) (Gateway.configs services) = Some c)
        (Hstatus : ∀ ev, ev ∈ network (Gateway.url c) Gateway.introspection_body →
             ∃ status stream, ev = Gateway.ReqResponse status stream ∧ status ≠ 200%Z) :
  Gateway.buildGateway JSON_parse parse network buildFederatedSchema services = [Pending].
Proof.
  assert (Hpending : Gateway.mapper JSON_parse parse network services d = Pending).
  { unfold Gateway.mapper. rewrite Hconfig. unfold Gateway.init, Gateway.service_request.
    by rewrite (request_promise_no_success JSON_parse _ Hstatus). }
  unfold Gateway.buildGateway, Gateway.buildServiceMap, Gateway.pmap.
  rewrite rejections_nil.
  - rewrite resolved_values_pending; [done|].
    apply list_elem_of_fmap. by exists d.
  - intros e Hin. apply list_elem_of_fmap in Hin as (d' & Hd' & Hin).
    by apply (Hnone_fails d' e).
Qed.

Lemma buildGateway_pending_on_non_200_witness :
  Gateway.buildGateway Fixtures.parse_json Fixtures.parse_sdl
    MoreFixtures.network_a_unavailable Fixtures.compose_nothing
    [Fixtures.service_a; Fixtures.service_b] = [Pending].
Proof.
  apply (buildGateway_pending_on_non_200 _ _ _ _ _ Fixtures.service_a Fixtures.service_a).
  - intros d' e Hd'.
    repeat (apply elem_of_cons in Hd' as [->|Hd']); [| |by apply elem_of_nil in Hd'];
      vm_compute; discriminate.
  - apply list_elem_of_here.
  - reflexivity.
  - intros ev Hev. vm_compute in Hev. apply list_elem_of_singleton in Hev as ->.
    eexists _, _. split; [reflexivity|]. discriminate.
Defined.

(** X8: when every introspection resolves and the composer accepts the
    SDLs joined in the order [Object.values] lists the services -- names
    that are array indices first, by number, then the others as they
    were inserted -- [buildGateway] resolves, with the [serviceMap] of
    one entry per service name and with the composed schema carrying
    the resolvers of the classification under the ownership index read
    off [Object.entries] in that same order, provided the declaring
    type of every crossing field has an owner in the index. *)
Theorem buildGateway_resolves_with_dispatched_schema
        (JSON_parse : string → result JsVal)
        (parse : string → result (list Gateway.DefinitionNode))
        (network : string → Body → list Gateway.ReqEvent)
        (buildFederatedSchema : string → result (list (GraphQLType Gateway.Resolver)))
        (services : list Gateway.ServiceDescriptor) (entries : list Gateway.Service)
        (schema : list (GraphQLType Gateway.Resolver))
        (Hmappers : Gateway.mapper JSON_parse parse network services <$> services
                    = Resolved <$> entries)
        (Hcomposed :
           buildFederatedSchema
             (String.concat ""
                ((λ entry, Gateway.schemaDefinition entry.2)
                 <$> Object_entries
                       (foldl (λ m '(d, s), obj_set (Gateway.svc_name d) s m) []
                              (zip services entries))))
           = Ok schema)
        (Howned : ∀ type field,
           type ∈ schema → field ∈ type_fields type →
           crossing (Gateway.typeToServiceMap_of
                       (Object_entries
                          (foldl (λ m '(d, s), obj_set (Gateway.svc_name d) s m) []
                                 (zip services entries)))) type field →
           is_Some (Gateway.typeToServiceMap_of
                      (Object_entries
                         (foldl (λ m '(d, s), obj_set (Gateway.svc_name d) s m) []
                                (zip services entries))) !! type_name type)) :
  ∃ gateway,
    Gateway.buildGateway JSON_parse parse network buildFederatedSchema services
    = [Resolved gateway]
    ∧ Gateway.gw_serviceMap gateway
      = foldl (λ m '(d, s), obj_set (Gateway.svc_name d) s m) [] (zip services entries)
    ∧ dispatched (Gateway.typeToServiceMap_of
                    (Object_entries (Gateway.gw_serviceMap gateway)))
                 (Gateway.gw_serviceMap gateway) schema (Gateway.gw_schema gateway).
Proof.
  set (serviceMap := foldl (λ m '(d, s), obj_set (Gateway.svc_name d) s m) []
                           (zip services entries)) in *.
  assert (Hnd : NoDup serviceMap.*1).
  { unfold serviceMap. rewrite foldl_entries.
    apply (NoDup_foldl_obj_set (λ x, Gateway.svc_name x.1) snd). constructor. }
  destruct (defineResolvers_total schema
              (Gateway.typeToServiceMap_of (Object_entries serviceMap)) serviceMap
              (owned_dispatchable serviceMap schema Hnd Howned)) as [schema' Hdefine].
  exists (Gateway.mkGateway schema' serviceMap).
  split; [|split; [done|]].
  - unfold Gateway.buildGateway, Gateway.buildServiceMap.
    rewrite Hmappers, pmap_resolved. simpl. fold serviceMap.
    unfold Gateway.compose. rewrite Hcomposed. simpl. by rewrite Hdefine.
  - simpl. by apply defineResolvers_dispatched.
Qed.

Lemma buildGateway_resolves_with_dispatched_schema_witness :
  ∃ gateway,
    Gateway.buildGateway Fixtures.parse_json Fixtures.parse_sdl
      MoreFixtures.network_healthy MoreFixtures.compose_product
      [Fixtures.service_b; MoreFixtures.service_2]
    = [Resolved gateway]
    ∧ (Gateway.gw_serviceMap gateway).*1 = ["b"; "2"]
    ∧ (Object_entries (Gateway.gw_serviceMap gateway)).*1 = ["2"; "b"]
    ∧ Gateway.typeToServiceMap_of (Object_entries (Gateway.gw_serviceMap gateway))
      !! "Product" = Some (Gateway.Svc "b").
Proof.
  destruct (buildGateway_resolves_with_dispatched_schema
              Fixtures.parse_json Fixtures.parse_sdl MoreFixtures.network_healthy
              MoreFixtures.compose_product [Fixtures.service_b; MoreFixtures.service_2]
              [Gateway.mkService Fixtures.product_sdl {[ "Product" := {[ "id" ]} ]}
                 (Gateway.service_request Fixtures.parse_json MoreFixtures.network_healthy
                    Fixtures.service_b);
               Gateway.mkService Fixtures.product_sdl {[ "Product" := {[ "id" ]} ]}
                 (Gateway.service_request Fixtures.parse_json MoreFixtures.network_healthy
                    MoreFixtures.service_2)]
              [mkType "Query" ObjectType
                 [mkField "product" (Named "Product" ObjectType) None];
               mkType "Product" ObjectType [mkField "id" Fixtures.ID None]])
    as (gateway & Hbuild & Hmap & _).
  - vm_compute. reflexivity.
  - reflexivity.
  - intros type field Htype _ _.
    repeat (apply elem_of_cons in Htype as [->|Htype]);
      [| |by apply elem_of_nil in Htype]; vm_compute; eexists; reflexivity.
  - exists gateway. split; [exact Hbuild|]. rewrite Hmap.
    split; [reflexivity|]. split; vm_compute; reflexivity.
Defined.

(** ** Dispatcher and resolvers of the gateway module, continued *)

Lemma mapM_first_throw {A B} (f : A → result B) (e : Exn) (l : list A) :
  Forall (λ x, (∃ y, f x = Ok y) ∨ f x = Throw e) l →
  Exists (λ x, f x = Throw e) l →
  mapM f l = Throw e.
Proof.
  induction l as [|x l IH]; intros Hall Hex; [by apply Exists_nil in Hex|].
  apply Forall_cons in Hall as [Hx Hall]. simpl.
  destruct Hx as [[y Hy]|Hx]; [|by rewrite Hx].
  rewrite Hy. simpl. apply Exists_cons in Hex as [Hx|Hex]; [congruence|].
  by rewrite (IH Hall Hex).
Qed.

Lemma gateway_rewriter_without_service selections type :
  Gateway.removeNonServiceTypeFields selections None type
  = match selections with
    | [] => Ok [typename_field]
    | _ => Throw (TypeError "Cannot read property 'typeMap' of undefined")
    end.
Proof. by destruct selections. Qed.

(** X9: a field on a type of owner [null] whose named return type is not
    a scalar and is a key of no typeMap -- a union or interface nobody
    declares, the [_service] and [_entities] fields a federated schema
    adds to [Query] -- is given a root-delegated resolver bound to
    [serviceMap[undefined]]; unless a service is named "undefined" that
    is no service, and calling the resolver throws a TypeError before
    any request is made. *)
Theorem unowned_return_type_gets_resolver_without_service
        (typeToServiceMap : gmap string Gateway.Owner)
        (serviceMap : list (string * Gateway.Service))
        (type : string) (field : GraphQLField Gateway.Resolver)
        (Hnull : typeToServiceMap !! type = Some Gateway.Null)
        (Hkind : (getNamedType (field_type field)).2 ≠ ScalarType)
        (Hunowned : typeToServiceMap !! (getNamedType (field_type field)).1 = None)
        (Hname : assoc "undefined" serviceMap = None) :
  Gateway.define_field typeToServiceMap serviceMap type (typeToServiceMap !! type) field
  = Ok (mkField (field_name field) (field_type field) (Some (Gateway.ResolveQuery None)))
  ∧ ∀ parent args context info,
      ∃ msg, Gateway.call (Gateway.ResolveQuery None) parent args context info
             = Throw (TypeError msg).
Proof.
  split.
  - unfold Gateway.define_field.
    destruct (getNamedType (field_type field)) as [fieldType fieldKind]. simpl in *.
    rewrite bool_decide_eq_false_2 by done. simpl.
    rewrite Hunowned, Hnull. rewrite bool_decide_eq_true_2 by done.
    rewrite bool_decide_eq_true_2 by done. simpl. by rewrite Hname.
  - intros parent args context info. unfold Gateway.call, Gateway.resolver_request.
    destruct (Gateway.field_selections info) as [selections|e] eqn:Hsel; simpl.
    + rewrite gateway_rewriter_without_service.
      destruct selections; simpl; by eexists.
    + unfold Gateway.field_selections in Hsel.
      destruct (Gateway.fieldNodes info) as [|node ?]; [injection Hsel as <-; by eexists|].
      destruct (selectionSet node); [discriminate|]. injection Hsel as <-. by eexists.
Qed.

Lemma unowned_return_type_gets_resolver_without_service_witness :
  Gateway.define_field
    (Gateway.typeToServiceMap_of Fixtures.scenario_serviceMap) Fixtures.scenario_serviceMap
    "Query" (Gateway.typeToServiceMap_of Fixtures.scenario_serviceMap !! "Query")
    (mkField "_entities" (NonNull (ListOf (Named "_Entity" UnionType))) None)
  = Ok (mkField "_entities" (NonNull (ListOf (Named "_Entity" UnionType)))
          (Some (Gateway.ResolveQuery None))).
Proof.
  apply (unowned_return_type_gets_resolver_without_service
           (Gateway.typeToServiceMap_of Fixtures.scenario_serviceMap)
           Fixtures.scenario_serviceMap "Query"
           (mkField "_entities" (NonNull (ListOf (Named "_Entity" UnionType))) None));
    vm_compute; (reflexivity || discriminate).
Defined.

(** X10: whatever the client's operation, arguments and variables are,
    a request of the gateway module's resolvers is a single operation of
    kind [query] that declares no variable but [representations] and
    sends no variable but [representations]; the field of a
    root-delegated operation has an empty argument list. *)
Theorem first_generation_forwards_no_variable
        (r : Gateway.Resolver) (parent : JsVal) (info : Gateway.Info)
        (doc : DocumentNode) (variables : list (string * JsVal))
        (Hrequest : Gateway.resolver_request r parent info = Ok (doc, variables)) :
  ∃ op,
    doc = Document [op]
    ∧ operation op = "query"
    ∧ declared_variables op ⊆ {[ "representations" ]}
    ∧ (∀ k v, (k, v) ∈ variables → k = "representations")
    ∧ match r with
      | Gateway.ResolveQuery _ =>
          ∃ selections,
            op_selections op
            = [Selection FIELD None (Some (Gateway.fieldName info)) (Some []) [] None
                         (Some selections)]
      | _ => True
      end.
Proof.
  unfold Gateway.resolver_request in Hrequest.
  destruct r as [svc|svc t|svc|tag]; [| | |discriminate];
    (destruct (Gateway.field_selections info) as [sels|]; simpl in Hrequest; [|discriminate]);
    (destruct (Gateway.removeNonServiceTypeFields sels svc _) as [sels'|];
     simpl in Hrequest; [|discriminate]).
  - injection Hrequest as <- <-. eexists. split; [reflexivity|]. simpl.
    split; [done|]. split; [set_solver|]. split; [|by eexists].
    intros k v Hin. by apply elem_of_nil in Hin.
  - injection Hrequest as <- <-. eexists. split; [reflexivity|]. simpl.
    split; [done|]. split; [unfold declared_variables; simpl; set_solver|].
    split; [|done]. intros k v Hin. apply list_elem_of_singleton in Hin. by injection Hin.
  - destruct (get_prop parent (Gateway.fieldName info)) as [field|]; simpl in Hrequest;
      [|discriminate].
    injection Hrequest as <- <-. eexists. split; [reflexivity|]. simpl.
    split; [done|]. split; [unfold declared_variables; simpl; set_solver|].
    split; [|done]. intros k v Hin. apply list_elem_of_singleton in Hin. by injection Hin.
Qed.

Lemma first_generation_forwards_no_variable_witness :
  ∃ selections,
    Gateway.resolver_request (Gateway.ResolveQuery (Some Fixtures.reviews_answering))
      JUndefined MoreFixtures.reviews_with_argument
    = Ok (Document
            [OperationDefinition "query" "Query_reviews" None []
               [Selection FIELD None (Some "reviews") (Some []) [] None (Some selections)]],
          []).
Proof.
  destruct (Gateway.resolver_request (Gateway.ResolveQuery (Some Fixtures.reviews_answering))
              JUndefined MoreFixtures.reviews_with_argument)
    as [[doc variables]|e] eqn:Hrequest; [|vm_compute in Hrequest; discriminate Hrequest].
  destruct (first_generation_forwards_no_variable _ _ _ _ _ Hrequest)
    as (op & -> & _ & _ & _ & selections & _).
  exists [Fixtures.leaf "id"; typename_field].
  vm_compute in Hrequest. rewrite <- Hrequest. reflexivity.
Defined.

(** ** Selection rewriters, continued *)

(** X11: an inline fragment among the selections makes either rewriter
    throw: the filter reads [selection.name.value], and an inline
    fragment has no [name]. *)
Theorem inline_fragment_makes_rewriters_throw
        (selections : list SelectionNode) (type : string) (fields : gset string)
        (Hinline : ∃ selection, selection ∈ selections ∧ name selection = None) :
  (∀ service schema,
     MakeResolver.typeMap service !! type = Some fields →
     MakeResolver.removeNonServiceTypeFields selections service type schema
     = Throw (TypeError "Cannot read property 'value' of undefined"))
  ∧ (∀ service,
       Gateway.typeMap service !! type = Some fields →
       Gateway.removeNonServiceTypeFields selections (Some service) type
       = Throw (TypeError "Cannot read property 'value' of undefined")).
Proof.
  destruct Hinline as (bad & Hbad & Hnone). split.
  - intros service schema Hfields.
    unfold MakeResolver.removeNonServiceTypeFields, filter_map.
    rewrite (mapM_first_throw (MakeResolver.keep service type)
               (TypeError "Cannot read property 'value' of undefined")); [done| |].
    + apply Forall_forall. intros x _. unfold MakeResolver.keep, name_value.
      rewrite Hfields. destruct (name x); simpl; [left; by eexists|by right].
    + apply Exists_exists. exists bad. split; [done|].
      unfold MakeResolver.keep, name_value. by rewrite Hfields, Hnone.
  - intros service Hfields.
    unfold Gateway.removeNonServiceTypeFields, filter_map.
    rewrite (mapM_first_throw (Gateway.has_field (Some service) type)
               (TypeError "Cannot read property 'value' of undefined")); [done| |].
    + apply Forall_forall. intros x _. unfold Gateway.has_field, name_value.
      rewrite Hfields. destruct (name x); simpl; [left; by eexists|by right].
    + apply Exists_exists. exists bad. split; [done|].
      unfold Gateway.has_field, name_value. by rewrite Hfields, Hnone.
Qed.

Lemma inline_fragment_makes_rewriters_throw_witness :
  MakeResolver.removeNonServiceTypeFields
    [Fixtures.leaf "id"; MoreFixtures.inline_on_user] Fixtures.mr_users "User"
    (Some Fixtures.mr_schema)
  = Throw (TypeError "Cannot read property 'value' of undefined").
Proof.
  eapply (proj1 (inline_fragment_makes_rewriters_throw
                   [Fixtures.leaf "id"; MoreFixtures.inline_on_user] "User"
                   {[ "id"; "name"; "address" ]} _)).
  reflexivity.
  Unshelve. exists MoreFixtures.inline_on_user. split; [|reflexivity].
  apply list_elem_of_further, list_elem_of_here.
Defined.

(** X12: on input it accepts -- named selections, type contexts that are
    keys of the typeMap, field types the schema tells -- the rewriter of
    [make-resolver.js] returns, and returns the pruning: the retained
    selections in their order, each with its nested set pruned under the
    declared return type of its field, and one [__typename] at the end
    of every level. *)
Theorem second_rewriter_prunes_accepted_input
        (selections : list SelectionNode) (service : MakeResolver.Service)
        (type : string) (schema : option MakeResolver.Schema)
        (Haccepted : rewritable (MakeResolver.typeMap service) schema type selections) :
  ∃ out,
    MakeResolver.removeNonServiceTypeFields selections service type schema = Ok out
    ∧ pruned (MakeResolver.typeMap service) schema type selections out.
Proof.
  assert (∃ out, MakeResolver.removeNonServiceTypeFields selections service type schema
                 = Ok out) as [out Hout].
  { unfold MakeResolver.removeNonServiceTypeFields.
    destruct (filter_map_total (MakeResolver.keep service type)
                (MakeResolver.rewrite_selection service schema type) selections)
      as [kept ->].
    - by eapply rewritable_keep.
    - inversion Haccepted as [? ? _ Hall]; subst.
      apply Forall_forall. intros x Hx Hkeep.
      apply rewrite_selection_total.
      + exact (proj1 (Forall_forall _ _) Hall x Hx).
      + apply keep_retained; [by eexists|done].
    - simpl. by eexists. }
  exists out. split; [done|]. by apply removeNonServiceTypeFields_pruned.
Qed.

Lemma second_rewriter_prunes_accepted_input_witness :
  ∃ out,
    MakeResolver.removeNonServiceTypeFields
      [Fixtures.spread "UserFields"; Fixtures.address_city; Fixtures.leaf "age"]
      Fixtures.mr_users "User" (Some Fixtures.mr_schema) = Ok out
    ∧ pruned (MakeResolver.typeMap Fixtures.mr_users) (Some Fixtures.mr_schema) "User"
             [Fixtures.spread "UserFields"; Fixtures.address_city; Fixtures.leaf "age"] out.
Proof.
  apply second_rewriter_prunes_accepted_input.
  constructor; [intros _; eexists; reflexivity|].
  repeat apply Forall_cons_2; [| | |constructor].
  - by eapply rewritable_leaf.
  - eapply (rewritable_nested _ _ _ _ "address" [Fixtures.leaf "city"] "Address");
      [reflexivity|reflexivity|reflexivity|].
    constructor; [intros _; eexists; reflexivity|].
    repeat constructor. by eapply rewritable_leaf.
  - by eapply rewritable_leaf.
Defined.

Lemma pruned_selection_same_head typeMap schema type selection selection' :
  pruned_selection typeMap schema type selection selection' →
  same_head selection selection'.
Proof. intros [|]; unfold same_head; simpl; tauto. Qed.

(** X13: what the rewriter of [make-resolver.js] returns is its retained
    selections, in order, with kind, alias, name, arguments, directives
    and type condition untouched, then the synthetic [__typename]; and
    as [__typename] is no field of the typeMap, a [__typename] the
    client selected itself, under an alias or not, is not among them. *)
Theorem second_rewriter_keeps_heads_and_drops_client_typename
        (selections out : list SelectionNode) (service : MakeResolver.Service)
        (type : string) (schema : option MakeResolver.Schema)
        (Hreturns : MakeResolver.removeNonServiceTypeFields selections service type schema
                    = Ok out) :
  ∃ kept,
    out = kept ++ [typename_field]
    ∧ Forall2 same_head
              (filter (retained (owned_fields (MakeResolver.typeMap service) type))
                      selections)
              kept
    ∧ ("__typename" ∉ owned_fields (MakeResolver.typeMap service) type →
       ∀ selection, selection ∈ kept → kind selection = FIELD →
                    name selection ≠ Some "__typename").
Proof.
  apply removeNonServiceTypeFields_pruned in Hreturns.
  inversion Hreturns as [? ? kept Hkept]; subst.
  exists kept. split; [done|].
  assert (Hheads : Forall2 same_head
            (filter (retained (owned_fields (MakeResolver.typeMap service) type))
                    selections) kept).
  { eapply Forall2_impl; [exact Hkept|]. intros x y. apply pruned_selection_same_head. }
  split; [exact Hheads|].
  intros Hnot selection Hin Hkind Hname.
  apply list_elem_of_lookup in Hin as [i Hi].
  destruct (Forall2_lookup_r _ _ _ _ _ Hheads Hi) as (x & Hx & Hkx & _ & Hnx & _).
  apply list_elem_of_lookup_2 in Hx. apply list_elem_of_filter in Hx as [Hret _].
  destruct Hret as (n & Hn & [Hfield|Hspread]).
  - rewrite Hnx, Hn in Hname. injection Hname as ->. done.
  - rewrite Hkx, Hspread in Hkind. discriminate.
Qed.

Lemma second_rewriter_keeps_heads_and_drops_client_typename_witness :
  MakeResolver.removeNonServiceTypeFields
    [MoreFixtures.aliased_typename; Fixtures.leaf "name"] Fixtures.mr_users "User"
    (Some Fixtures.mr_schema)
  = Ok [Fixtures.leaf "name"; typename_field]
  ∧ ∃ kept,
      [Fixtures.leaf "name"; typename_field] = kept ++ [typename_field]
      ∧ Forall2 same_head
                (filter (retained (owned_fields (MakeResolver.typeMap Fixtures.mr_users)
                                                "User"))
                        [MoreFixtures.aliased_typename; Fixtures.leaf "name"])
                kept.
Proof.
  assert (Hrun : MakeResolver.removeNonServiceTypeFields
                   [MoreFixtures.aliased_typename; Fixtures.leaf "name"] Fixtures.mr_users
                   "User" (Some Fixtures.mr_schema)
                 = Ok [Fixtures.leaf "name"; typename_field]) by (vm_compute; reflexivity).
  split; [exact Hrun|].
  destruct (second_rewriter_keeps_heads_and_drops_client_typename _ _ _ _ _ Hrun)
    as (kept & Hout & Hheads & _).
  by exists kept.
Defined.

Lemma rewrite_selection_head service schema type selection selection' :
  MakeResolver.rewrite_selection service schema type selection = Ok selection' →
  name selection' = name selection ∧ kind selection' = kind selection.
Proof.
  destruct selection as [k a n args d tc [nested|]]; simpl.
  - unfold name_value. simpl. destruct n as [n|]; simpl; [|discriminate].
    destruct (MakeResolver.getFieldType schema type n); simpl; [|discriminate].
    destruct (filter_map _ _ nested); simpl; [|discriminate].
    by intros [= <-].
  - by intros [= <-].
Qed.

Lemma keep_by_head service type selection selection' :
  name selection' = name selection → kind selection' = kind selection →
  MakeResolver.keep service type selection' = MakeResolver.keep service type selection.
Proof.
  intros Hname Hkind. unfold MakeResolver.keep, name_value. by rewrite Hname, Hkind.
Qed.

Lemma filter_map_fixed keep f kept t :
  Forall (λ y, keep y = Ok true ∧ f y = Ok y) kept →
  keep t = Ok false →
  filter_map keep f (kept ++ [t]) = Ok kept.
Proof.
  intros Hkept Ht. unfold filter_map.
  destruct (mapM_total keep (kept ++ [t])) as [flags ->].
  { apply Forall_app. split.
    - eapply Forall_impl; [exact Hkept|]. intros y [Hy _]. by eexists.
    - repeat constructor. by eexists. }
  simpl. induction Hkept as [|y kept [Hy Hfy] _ IH]; simpl.
  - by rewrite Ht.
  - rewrite Hy. simpl. rewrite Hfy. simpl. by rewrite IH.
Qed.

Lemma level_again service schema type selections kept :
  map_Forall (λ _ fields, "__typename" ∉ fields) (MakeResolver.typeMap service) →
  selections ≠ [] →
  Forall (λ x, ∀ type y,
            MakeResolver.rewrite_selection service schema type x = Ok y →
            no_empty_set x = true →
            MakeResolver.rewrite_selection service schema type y = Ok y) selections →
  forallb no_empty_set selections = true →
  filter_map (MakeResolver.keep service type)
             (MakeResolver.rewrite_selection service schema type) selections = Ok kept →
  filter_map (MakeResolver.keep service type)
             (MakeResolver.rewrite_selection service schema type)
             (kept ++ [typename_field]) = Ok kept.
Proof.
  intros Hreserved Hnonempty Hfixed Hsets Hrun.
  apply filter_map_Ok in Hrun as [Hverdicts Hmapped].
  apply filter_map_fixed.
  - apply Forall_forall. intros y Hy.
    apply list_elem_of_lookup in Hy as [i Hi].
    destruct (Forall2_lookup_r _ _ _ _ _ Hmapped Hi) as (x & Hx & Hxy).
    apply list_elem_of_lookup_2 in Hx. apply list_elem_of_filter in Hx as [Hkeep Hx].
    destruct (rewrite_selection_head _ _ _ _ _ Hxy) as [Hname Hkind].
    split.
    + by rewrite (keep_by_head service type x y Hname Hkind).
    + apply (proj1 (Forall_forall _ _) Hfixed x Hx type y Hxy).
      rewrite forallb_forall in Hsets. apply Hsets. by apply list_elem_of_In.
  - destruct selections as [|x l]; [done|].
    apply Forall_cons in Hverdicts as [[b Hb] _].
    unfold MakeResolver.keep in *.
    destruct (MakeResolver.typeMap service !! type) as [fields|] eqn:Hfields;
      [|discriminate].
    simpl. f_equal. rewrite bool_decide_eq_false_2; [done|].
    by apply (Hreserved type fields).
Qed.

Lemma rewrite_selection_again service schema selection :
  map_Forall (λ _ fields, "__typename" ∉ fields) (MakeResolver.typeMap service) →
  ∀ type selection',
    MakeResolver.rewrite_selection service schema type selection = Ok selection' →
    no_empty_set selection = true →
    MakeResolver.rewrite_selection service schema type selection' = Ok selection'.
Proof.
  intros Hreserved.
  induction selection as [k a n args d tc|k a n args d tc nested IH]
    using SelectionNode_nested_ind; intros type selection'; simpl.
  - by intros [= <-].
  - unfold name_value. simpl. destruct n as [n|]; simpl; [|discriminate].
    destruct (MakeResolver.getFieldType schema type n) as [type'|] eqn:Htype'; simpl;
      [|discriminate].
    destruct (filter_map _ _ nested) as [kept|] eqn:Hkept; simpl; [|discriminate].
    intros [= <-] Hsets. simpl. unfold name_value. simpl. rewrite Htype'. simpl.
    rewrite (level_again service schema type' nested kept); [done|done| |done| |done].
    + intros ->. discriminate Hsets.
    + destruct nested; [discriminate Hsets|exact Hsets].
Qed.

(** X14: rewriting is idempotent.  On a document without empty selection
    sets, and with no typeMap listing a field named [__typename], what
    the rewriter of [make-resolver.js] returned it returns again
    unchanged: the synthetic [__typename] of the first pass is dropped
    and appended anew at every level. *)
Theorem second_rewriter_is_idempotent
        (selections out : list SelectionNode) (service : MakeResolver.Service)
        (type : string) (schema : option MakeResolver.Schema)
        (Hreserved : map_Forall (λ _ fields, "__typename" ∉ fields)
                                (MakeResolver.typeMap service))
        (Hnonempty : selections ≠ [])
        (Hsets : forallb no_empty_set selections = true)
        (Hreturns : MakeResolver.removeNonServiceTypeFields selections service type schema
                    = Ok out) :
  MakeResolver.removeNonServiceTypeFields out service type schema = Ok out.
Proof.
  unfold MakeResolver.removeNonServiceTypeFields in *.
  destruct (filter_map _ _ selections) as [kept|] eqn:Hkept; simpl in Hreturns;
    [|discriminate].
  injection Hreturns as <-.
  rewrite (level_again service schema type selections kept); [done|done|done| |done|done].
  apply Forall_forall. intros x _ type' y. by apply rewrite_selection_again.
Qed.

Lemma second_rewriter_is_idempotent_witness :
  MakeResolver.removeNonServiceTypeFields
    [Selection FIELD None (Some "address") (Some []) [] None
       (Some [Fixtures.leaf "city"; typename_field]);
     typename_field]
    Fixtures.mr_users "User" (Some Fixtures.mr_schema)
  = Ok [Selection FIELD None (Some "address") (Some []) [] None
          (Some [Fixtures.leaf "city"; typename_field]);
        typename_field].
Proof.
  apply (second_rewriter_is_idempotent [Fixtures.address_city]).
  - apply (bool_decide_unpack _). vm_compute. exact I.
  - discriminate.
  - reflexivity.
  - vm_compute. reflexivity.
Defined.

(** ** Variables of a sub-operation *)

Lemma forallb_true_Forall {A} (f : A → bool) (l : list A) :
  forallb f l = true ↔ Forall (λ x, f x = true) l.
Proof.
  induction l as [|x l IH]; simpl.
  - split; [constructor|done].
  - rewrite andb_true_iff, IH, Forall_cons. done.
Qed.


Lemma variables_of_selection_unfold selection :
  variables_of_selection selection
  = variables_of_arguments (arguments selection) ++
    match selectionSet selection with
    | Some selections => concat (map variables_of_selection selections)
    | None => []
    end.
Proof. by destruct selection. Qed.


Lemma spread_free_unfold selection :
  spread_free selection
  = negb (bool_decide (kind selection = FRAGMENT_SPREAD))
    && match selectionSet selection with
       | Some selections => forallb spread_free selections
       | None => true
       end.
Proof. by destruct selection. Qed.

Lemma fragment_names_in_unfold selection :
  MakeResolver.fragment_names_in selection
  = (here ← (if bool_decide (kind selection = FRAGMENT_SPREAD)
             then n ← name_value selection; Ok [n] else Ok []);
     match selectionSet selection with
     | Some selections =>
         nested ← mapM MakeResolver.fragment_names_in selections;
         Ok (here ++ concat nested)
     | None => Ok here
     end).
Proof. by destruct selection. Qed.





(** What holds of a selection before rewriting and carries over to the
    rewritten one, given that it carries over at a leaf and through the
    rebuilding of a node. *)
Lemma filter_map_transfers (P Q : SelectionNode → Prop) keep f selections kept :
  filter_map keep f selections = Ok kept →
  Forall (λ x, ∀ y, f x = Ok y → P x → Q y) selections →
  Forall P selections →
  Forall Q kept.
Proof.
  intros Hrun Hstep HP. apply filter_map_Ok in Hrun as [_ Hmapped].
  apply Forall_forall. intros y Hy. apply list_elem_of_lookup in Hy as [i Hi].
  destruct (Forall2_lookup_r _ _ _ _ _ Hmapped Hi) as (x & Hx & Hxy).
  apply list_elem_of_lookup_2 in Hx. apply list_elem_of_filter in Hx as [_ Hx].
  apply (proj1 (Forall_forall _ _) Hstep x Hx y Hxy).
  exact (proj1 (Forall_forall _ _) HP x Hx).
Qed.

Lemma rewrite_selection_transfers (P Q : SelectionNode → Prop) service schema :
  (∀ s, selectionSet s = None → P s → Q s) →
  (∀ s nested kept,
     selectionSet s = Some nested → P s →
     Forall P nested
     ∧ (Forall Q kept → Q (with_selections s (kept ++ [typename_field])))) →
  ∀ selection type selection',
    MakeResolver.rewrite_selection service schema type selection = Ok selection' →
    P selection → Q selection'.
Proof.
  intros Hleaf Hnode.
  induction selection as [k a n args d tc|k a n args d tc nested IH]
    using SelectionNode_nested_ind; intros type selection'; simpl.
  - intros [= <-]. by apply Hleaf.
  - unfold name_value. simpl. destruct n as [n|]; simpl; [|discriminate].
    destruct (MakeResolver.getFieldType schema type n) as [type'|]; simpl; [|discriminate].
    destruct (filter_map _ _ nested) as [kept|] eqn:Hkept; simpl; [|discriminate].
    intros [= <-] HP.
    destruct (Hnode (Selection k a (Some n) args d tc (Some nested)) nested kept
                    eq_refl HP) as [Hchildren Hbuild].
    apply Hbuild. eapply filter_map_transfers; [exact Hkept| |exact Hchildren].
    eapply Forall_impl; [exact IH|]. intros x Hx y. apply Hx.
Qed.

Lemma removeNonServiceTypeFields_transfers (P Q : SelectionNode → Prop)
      selections service type schema out :
  (∀ s, selectionSet s = None → P s → Q s) →
  (∀ s nested kept,
     selectionSet s = Some nested → P s →
     Forall P nested
     ∧ (Forall Q kept → Q (with_selections s (kept ++ [typename_field])))) →
  Q typename_field →
  MakeResolver.removeNonServiceTypeFields selections service type schema = Ok out →
  Forall P selections → Forall Q out.
Proof.
  intros Hleaf Hnode Htypename. unfold MakeResolver.removeNonServiceTypeFields.
  destruct (filter_map _ _ selections) as [kept|] eqn:Hkept; simpl; [|discriminate].
  intros [= <-] HP. apply Forall_app. split; [|by repeat constructor].
  eapply filter_map_transfers; [exact Hkept| |exact HP].
  apply Forall_forall. intros x _ y. by apply rewrite_selection_transfers.
Qed.


Lemma not_in_concat_map {A B} (f : A → list B) (v : B) (l : list A) :
  v ∉ concat (map f l) ↔ Forall (λ x, v ∉ f x) l.
Proof.
  induction l as [|x l IH]; simpl.
  - split; [constructor|]. intros _. apply not_elem_of_nil.
  - rewrite Forall_cons, not_elem_of_app, IH. done.
Qed.

Lemma rewriter_adds_no_variable selections service type schema out v :
  MakeResolver.removeNonServiceTypeFields selections service type schema = Ok out →
  v ∉ concat (map variables_of_selection selections) →
  v ∉ concat (map variables_of_selection out).
Proof.
  rewrite !not_in_concat_map.
  apply removeNonServiceTypeFields_transfers.
  - done.
  - intros s nested kept Hset. rewrite variables_of_selection_unfold, Hset, not_elem_of_app.
    intros [Hargs Hnested]. split; [by apply not_in_concat_map|].
    intros Hkept. rewrite variables_of_selection_unfold.
    cbn [arguments selectionSet with_selections]. apply not_elem_of_app. split; [done|].
    apply not_in_concat_map, Forall_app. split; [done|].
    repeat constructor. apply not_elem_of_nil.
  - apply not_elem_of_nil.
Qed.




Lemma entities_operation_variables returnType selections definitions op v :
  MakeResolver.entities_operation returnType selections definitions = Document [op] →
  v ∈ operation_variables op ↔
  v = "representations" ∨ v ∈ concat (map variables_of_selection selections).
Proof.
  intros [= <-]. unfold operation_variables. cbn [op_selections map concat].
  rewrite app_nil_r. unfold MakeResolver.field_node.
  rewrite variables_of_selection_unfold. cbn [arguments selectionSet map concat].
  rewrite !variables_of_selection_unfold.
  cbn [arguments selectionSet map concat typename_field].
  unfold variables_of_arguments. cbn [map concat arg_value variables_of_value].
  rewrite !app_nil_r. simpl. rewrite elem_of_cons. done.
Qed.






(** The condition on fragments is needed: a variable that only a
    fragment refers to, even under its own name, is neither declared nor
    sent (lines 290 and 311 to 315 collect names in the field's
    selections, and append the fragments afterwards). *)
Example fragment_variable_is_not_forwarded :
  same_named_variables MoreFixtures.me_spread_field = true
  ∧ ∃ op fragment,
      MakeResolver.resolver_body 2 (Fixtures.mr_config MakeResolver.RootDelegate)
        JUndefined MoreFixtures.MeSpread_info
      = Some (Ok (mkBody (Printed (Document [op]) [fragment]) (Some [])))
      ∧ "upper" ∈ fragment_variables fragment
      ∧ "upper" ∈ declared_variables
                    (MakeResolver.originalOperation MoreFixtures.MeSpread_info)
      ∧ ("upper" ∉ declared_variables op)
      ∧ assoc "upper" (MakeResolver.variableValues MoreFixtures.MeSpread_info)
        = Some (JBool true).
Proof.
  split; [reflexivity|]. eexists _, _. split; [vm_compute; reflexivity|].
  split; [|split; [|split; [|reflexivity]]].
  - vm_compute. apply list_elem_of_here.
  - apply (bool_decide_unpack _). vm_compute. exact I.
  - apply (bool_decide_unpack _). vm_compute. exact I.
Qed.

(** X16: an entities operation leaves the originating field's arguments
    out, yet line 292 collects their names.  So when the field passes a
    variable under an argument whose name the client's operation
    declares as a variable, and nothing under the field refers to that
    name, the operation of an entity-reference or field resolver
    declares a variable that none of its field arguments uses. *)
Theorem entities_operation_declares_unused_variable
        (fuel : nat) (cfg : MakeResolver.Config) (parent : JsVal)
        (info : MakeResolver.Info) (body : Body)
        (fieldNode : SelectionNode) (rest fieldSelections : list SelectionNode)
        (args : list ArgumentNode) (argument : ArgumentNode)
        (definitions : list VariableDefinitionNode) (definition : VariableDefinitionNode)
        (Hbody : MakeResolver.resolver_body fuel cfg parent info = Some (Ok body))
        (Hcreate : MakeResolver.createOperation cfg
                   = MakeResolver.createEntityReferenceResolverOperation
                   ∨ MakeResolver.createOperation cfg
                     = MakeResolver.createFieldResolverOperation)
        (Hnode : MakeResolver.fieldNodes info = fieldNode :: rest)
        (Hargs : arguments fieldNode = Some args)
        (Hargument : argument ∈ args)
        (Hvariable : MakeResolver.is_variable (arg_value argument) = true)
        (Hdefinitions : variableDefinitions (MakeResolver.originalOperation info)
                        = Some definitions)
        (Hdefinition : definition ∈ definitions)
        (Hname : variable definition = arg_name argument)
        (Hset : selectionSet fieldNode = Some fieldSelections)
        (Hfresh : arg_name argument ∉ concat (map variables_of_selection fieldSelections))
        (Hother : arg_name argument ≠ "representations") :
  ∃ op frags,
    query body = Printed (Document [op]) frags
    ∧ (arg_name argument ∈ declared_variables op)
    ∧ (arg_name argument ∉ operation_variables op).
Proof.
  unfold MakeResolver.resolver_body in Hbody. rewrite Hnode, Hset, Hdefinitions in Hbody.
  destruct (MakeResolver.removeNonServiceTypeFields _ _ _ _) as [selections|] eqn:Hsel;
    [|discriminate].
  destruct (MakeResolver.getFragmentNamesInSelection selections) as [used|]; [|discriminate].
  destruct (MakeResolver.collectFragmentsToInclude _ _ _ _ _) as [[frags|]|];
    try discriminate.
  destruct (MakeResolver.payload_variables _ _ _ _) as [vars|]; simpl in Hbody;
    [|discriminate].
  injection Hbody as <-.
  pose proof (rewriter_adds_no_variable _ _ _ _ _ _ Hsel Hfresh) as Hpruned.
  assert (Hkept : definition ∈ MakeResolver.variablesToDefine
                    (MakeResolver.variableNamesToDefine selections fieldNode) definitions).
  { apply variablesToDefine_by_argument_name. split; [done|]. right.
    unfold MakeResolver.collectArgumentNames. rewrite Hargs, Hname.
    apply list_elem_of_fmap. exists argument. split; [done|].
    by apply list_elem_of_filter. }
  destruct Hcreate as [Hc|Hc]; rewrite Hc; eexists _, frags; (split; [reflexivity|]);
    split.
  - unfold declared_variables. simpl. apply elem_of_list_to_set, list_elem_of_fmap.
    exists definition. split; [done|]. apply elem_of_app. by left.
  - intros Hv. apply (entities_operation_variables _ _ _ _ _ eq_refl) in Hv.
    simpl in Hv. by destruct Hv.
  - unfold declared_variables. simpl. apply elem_of_list_to_set, list_elem_of_fmap.
    exists definition. split; [done|]. apply elem_of_app. by left.
  - intros Hv. apply (entities_operation_variables _ _ _ _ _ eq_refl) in Hv.
    simpl in Hv. rewrite app_nil_r in Hv. by destruct Hv.
Qed.

Lemma entities_operation_declares_unused_variable_witness :
  ∃ body,
    MakeResolver.resolver_body 1 (Fixtures.mr_config MakeResolver.EntityReference)
      Fixtures.parent_with_user MoreFixtures.ById_info = Some (Ok body)
    ∧ ∃ op frags,
        query body = Printed (Document [op]) frags
        ∧ ("id" ∈ declared_variables op)
        ∧ ("id" ∉ operation_variables op).
Proof.
  eexists. split; [vm_compute; reflexivity|].
  eapply (entities_operation_declares_unused_variable 1
            (Fixtures.mr_config MakeResolver.EntityReference) Fixtures.parent_with_user
            MoreFixtures.ById_info _ MoreFixtures.by_id_field [] [Fixtures.leaf "name"]
            [Argument "id" (VARIABLE "id")] (Argument "id" (VARIABLE "id"))
            [VariableDefinition "id" (NON_NULL_TYPE (NAMED_TYPE "ID")) []]
            (VariableDefinition "id" (NON_NULL_TYPE (NAMED_TYPE "ID")) [])).
  - vm_compute. reflexivity.
  - left. reflexivity.
  - reflexivity.
  - reflexivity.
  - apply list_elem_of_here.
  - reflexivity.
  - reflexivity.
  - apply list_elem_of_here.
  - reflexivity.
  - reflexivity.
  - simpl. apply not_elem_of_nil.
  - discriminate.
Defined.

(** ** Fragment collection *)

(** X17: when [collectFragmentsToInclude] returns, every used name is a
    key of [fragments], and the result holds, in the order of
    [usedFragments] and once per occurrence, the definition of each used
    fragment with its selections rewritten: a name listed twice is
    defined twice, the visited set filters nested names only. *)
Theorem collectFragmentsToInclude_defines_every_occurrence
        (fuel : nat) (usedFragments : list string)
        (fragments : gmap string FragmentDefinitionNode)
        (service : MakeResolver.Service) (schema : option MakeResolver.Schema)
        (result : list FragmentDefinitionNode)
        (Hreturns : MakeResolver.collectFragmentsToInclude fuel usedFragments fragments
                      service schema = Some (Ok result)) :
  ∃ picked,
    Forall2 (λ fragmentName definition,
               ∃ fragment selections,
                 fragments !! fragmentName = Some fragment
                 ∧ MakeResolver.removeNonServiceTypeFields (frag_selections fragment)
                     service (frag_typeCondition fragment) schema = Ok selections
                 ∧ definition = MakeResolver.with_fragment_selections fragment selections)
            usedFragments picked
    ∧ sublist picked result.
Proof.
  destruct fuel as [|fuel]; [discriminate|]. simpl in Hreturns.
  revert result Hreturns. generalize (∅ : gset string).
  induction usedFragments as [|fragmentName used IH]; intros visited result Hreturns.
  - injection Hreturns as <-. exists []. split; constructor.
  - destruct (fragments !! fragmentName) as [fragment|] eqn:Hfragment; [|discriminate].
    destruct (MakeResolver.removeNonServiceTypeFields _ _ _ _) as [selections|] eqn:Hsel;
      [|discriminate].
    destruct (MakeResolver.getFragmentNamesInSelection selections) as [names|];
      [|discriminate].
    destruct (MakeResolver.collectFragmentsToInclude fuel _ _ _ _) as [[nested|]|];
      try discriminate.
    match type of Hreturns with
    | match ?loop with _ => _ end = _ => destruct loop as [[others|]|] eqn:Hothers
    end; try discriminate.
    injection Hreturns as <-.
    destruct (IH _ _ Hothers) as (picked & Hpicked & Hsub).
    exists (MakeResolver.with_fragment_selections fragment selections :: picked). split.
    + constructor; [|done]. by exists fragment, selections.
    + apply sublist_skip. by apply sublist_inserts_l.
Qed.

Lemma collectFragmentsToInclude_defines_every_occurrence_witness :
  ∃ result picked,
    MakeResolver.collectFragmentsToInclude 2 ["S"; "S"] Fixtures.self_fragments
      Fixtures.mr_users (Some Fixtures.mr_schema) = Some (Ok result)
    ∧ length result = 2
    ∧ Forall2 (λ fragmentName definition,
                 ∃ fragment selections,
                   Fixtures.self_fragments !! fragmentName = Some fragment
                   ∧ MakeResolver.removeNonServiceTypeFields (frag_selections fragment)
                       Fixtures.mr_users (frag_typeCondition fragment)
                       (Some Fixtures.mr_schema) = Ok selections
                   ∧ definition
                     = MakeResolver.with_fragment_selections fragment selections)
              ["S"; "S"] picked
    ∧ sublist picked result.
Proof.
  assert (Hrun : MakeResolver.collectFragmentsToInclude 2 ["S"; "S"] Fixtures.self_fragments
                   Fixtures.mr_users (Some Fixtures.mr_schema)
                 = Some (Ok [FragmentDefinition "S" "User" []
                               [Fixtures.leaf "name"; Fixtures.spread "S"; typename_field];
                             FragmentDefinition "S" "User" []
                               [Fixtures.leaf "name"; Fixtures.spread "S"; typename_field]]))
    by (vm_compute; reflexivity).
  destruct (collectFragmentsToInclude_defines_every_occurrence _ _ _ _ _ _ Hrun)
    as (picked & Hpicked & Hsub).
  eexists _, picked. split; [exact Hrun|]. split; [reflexivity|]. by split.
Defined.

(** Without a schema the rewriter cannot look up the type of a field
    that has a selection set of its own. *)
Lemma rewriter_without_schema_throws service type fields selections :
  MakeResolver.typeMap service !! type = Some fields →
  Forall (λ s, is_Some (name s)) selections →
  Exists (λ s, retained fields s ∧ is_Some (selectionSet s)) selections →
  MakeResolver.removeNonServiceTypeFields selections service type None
  = Throw (TypeError "Cannot read property 'getType' of undefined").
Proof.
  intros Htype Hnamed Hnested. unfold MakeResolver.removeNonServiceTypeFields, filter_map.
  assert (Hkeep : ∀ s n, name s = Some n →
            MakeResolver.keep service type s
            = Ok (bool_decide (n ∈ fields) || bool_decide (kind s = FRAGMENT_SPREAD))).
  { intros s n Hn. unfold MakeResolver.keep, name_value. by rewrite Htype, Hn. }
  destruct (mapM_total (MakeResolver.keep service type) selections) as [flags ->].
  { eapply Forall_impl; [exact Hnamed|]. intros s [n Hn]. rewrite (Hkeep s n Hn).
    by eexists. }
  simpl.
  cut (map_retained (MakeResolver.keep service type)
         (MakeResolver.rewrite_selection service None type) selections
       = Throw (TypeError "Cannot read property 'getType' of undefined")).
  { by intros ->. }
  clear flags. induction selections as [|s l IH]; [by apply Exists_nil in Hnested|].
  apply Forall_cons in Hnamed as [[n Hn] Hnamed]. rewrite map_retained_cons.
  rewrite (Hkeep s n Hn). simpl.
  destruct (bool_decide (n ∈ fields) || bool_decide (kind s = FRAGMENT_SPREAD)) eqn:Hflag.
  - destruct s as [k a n' args d tc [nested|]]; simpl in *.
    + unfold name_value. simpl. by rewrite Hn.
    + apply Exists_cons in Hnested as [[_ [? Hset]]|Hnested]; [discriminate Hset|].
      by rewrite (IH Hnamed Hnested).
  - apply Exists_cons in Hnested as [[(n' & Hn' & Hret) _]|Hnested]; [|by apply IH].
    rewrite Hn in Hn'. injection Hn' as <-.
    apply orb_false_iff in Hflag as [Hf Hk].
    apply bool_decide_eq_false in Hf, Hk. by destruct Hret.
Qed.

(** X18: the recursive call of line 255 leaves [schema] out.  A fragment
    reached through another fragment is therefore rewritten without a
    schema, and if it selects a field of the service that has a
    selection set of its own, collection throws instead of returning. *)
Theorem fragment_inside_fragment_is_rewritten_without_schema
        (fuel : nat) (outer inner : string) (others : list string)
        (fragments : gmap string FragmentDefinitionNode)
        (service : MakeResolver.Service) (schema : option MakeResolver.Schema)
        (outerFragment innerFragment : FragmentDefinitionNode)
        (selections : list SelectionNode) (names : list string) (fields : gset string)
        (Houter : fragments !! outer = Some outerFragment)
        (Hrewritten : MakeResolver.removeNonServiceTypeFields
                        (frag_selections outerFragment) service
                        (frag_typeCondition outerFragment) schema = Ok selections)
        (Hnames : MakeResolver.getFragmentNamesInSelection selections = Ok names)
        (Hspreads : filter (λ n, n ≠ outer) names = inner :: others)
        (Hinner : fragments !! inner = Some innerFragment)
        (Htype : MakeResolver.typeMap service !! frag_typeCondition innerFragment
                 = Some fields)
        (Hnamed : Forall (λ s, is_Some (name s)) (frag_selections innerFragment))
        (Hnested : Exists (λ s, retained fields s ∧ is_Some (selectionSet s))
                          (frag_selections innerFragment)) :
  MakeResolver.collectFragmentsToInclude (S (S fuel)) [outer] fragments service schema
  = Some (Throw (TypeError "Cannot read property 'getType' of undefined")).
Proof.
  rewrite (collectFragmentsToInclude_step (S fuel) outer outerFragment selections names);
    [|done|done|done].
  replace (filter (λ n, n ∉ ({[outer]} ∪ ∅ : gset string)) names) with (inner :: others).
  - simpl. rewrite Hinner.
    by rewrite (rewriter_without_schema_throws service _ fields _ Htype Hnamed Hnested).
  - rewrite <- Hspreads. apply list_filter_iff. intros n. set_solver.
Qed.

Lemma fragment_inside_fragment_is_rewritten_without_schema_witness :
  MakeResolver.collectFragmentsToInclude 2 ["Outer"] MoreFixtures.nested_fragments
    Fixtures.mr_users (Some Fixtures.mr_schema)
  = Some (Throw (TypeError "Cannot read property 'getType' of undefined"))
  ∧ MakeResolver.removeNonServiceTypeFields [Fixtures.address_city] Fixtures.mr_users
      "User" (Some Fixtures.mr_schema)
    = Ok [Selection FIELD None (Some "address") (Some []) [] None
            (Some [Fixtures.leaf "city"; typename_field]);
          typename_field].
Proof.
  split; [|vm_compute; reflexivity].
  apply (fragment_inside_fragment_is_rewritten_without_schema 0 "Outer" "Inner" []
           MoreFixtures.nested_fragments Fixtures.mr_users (Some Fixtures.mr_schema)
           (FragmentDefinition "Outer" "User" [] [Fixtures.spread "Inner"])
           (FragmentDefinition "Inner" "User" [] [Fixtures.address_city])
           [Fixtures.spread "Inner"; typename_field] ["Inner"]
           {[ "id"; "name"; "address" ]}).
  - reflexivity.
  - vm_compute. reflexivity.
  - reflexivity.
  - reflexivity.
  - reflexivity.
  - reflexivity.
  - repeat constructor. by eexists.
  - apply Exists_cons_hd. split; [|by eexists].
    exists "address". split; [reflexivity|]. left. set_solver.
Defined.

(** ** The resolver as a whole *)

Lemma mapM_all_nil {A B} (g : A → result (list B)) (l : list A) :
  Forall (λ y, g y = Ok []) l →
  ∃ nested, mapM g l = Ok nested ∧ concat nested = [].
Proof.
  induction 1 as [|y l Hy _ (nested & Hnested & Hconcat)]; simpl.
  - by exists [].
  - rewrite Hy. simpl. rewrite Hnested. simpl. exists ([] :: nested). by split.
Qed.

Lemma spread_free_names selections service type schema out :
  MakeResolver.removeNonServiceTypeFields selections service type schema = Ok out →
  Forall (λ s, spread_free s = true) selections →
  Forall (λ s, MakeResolver.fragment_names_in s = Ok []) out.
Proof.
  apply removeNonServiceTypeFields_transfers.
  - intros s Hset. rewrite spread_free_unfold, fragment_names_in_unfold, Hset.
    rewrite andb_true_iff. intros [Hk _]. apply negb_true_iff in Hk. by rewrite Hk.
  - intros s nested kept Hset. rewrite spread_free_unfold, Hset, andb_true_iff.
    intros [Hk Hnested]. split; [by apply forallb_true_Forall|].
    intros Hkept. rewrite fragment_names_in_unfold.
    cbn [kind selectionSet with_selections]. apply negb_true_iff in Hk. rewrite Hk.
    destruct (mapM_all_nil MakeResolver.fragment_names_in (kept ++ [typename_field]))
      as (names & Hnames & Hconcat).
    { apply Forall_app. split; [done|]. by repeat constructor. }
    simpl. rewrite Hnames. simpl. by rewrite Hconcat.
  - reflexivity.
Qed.

Lemma get_prop_total (v : JsVal) (k : string) :
  v ≠ JUndefined → v ≠ JNull → ∃ x, get_prop v k = Ok x.
Proof.
  destruct v; simpl; try done; try by eexists.
  intros _ _. destruct (decide (k = "length")); by eexists.
Qed.

(** X19: the resolver of [make-resolver.js] end to end, on a field whose
    selections the rewriter accepts and that spread no fragment, in an
    operation that has variable definitions, and for an entity reference
    with a parent that is an object.  It sends one request to its
    service and returns that request's promise followed by
    [transformData]: the query is the created operation over the pruned
    selections with no fragment definition after it, the variables are
    those of the payload. *)
Theorem makeResolver_sends_one_request
        (fuel : nat) (cfg : MakeResolver.Config) (parent args context : JsVal)
        (info : MakeResolver.Info)
        (fieldNode : SelectionNode) (rest fieldSelections : list SelectionNode)
        (definitions : list VariableDefinitionNode)
        (Hnode : MakeResolver.fieldNodes info = fieldNode :: rest)
        (Hset : selectionSet fieldNode = Some fieldSelections)
        (Haccepted : rewritable (MakeResolver.typeMap (MakeResolver.service cfg))
                                (Some (MakeResolver.schema info))
                                (getNamedType (MakeResolver.returnType info)).1
                                fieldSelections)
        (Hspreads : forallb spread_free fieldSelections = true)
        (Hdefinitions : variableDefinitions (MakeResolver.originalOperation info)
                        = Some definitions)
        (Hparent : MakeResolver.isReference cfg = true →
                   parent ≠ JUndefined ∧ parent ≠ JNull) :
  ∃ selections vars,
    pruned (MakeResolver.typeMap (MakeResolver.service cfg))
           (Some (MakeResolver.schema info))
           (getNamedType (MakeResolver.returnType info)).1 fieldSelections selections
    ∧ MakeResolver.payload_variables cfg
        (MakeResolver.variableNamesToDefine selections fieldNode) parent info = Ok vars
    ∧ MakeResolver.makeResolver (S fuel) cfg parent args context info
      = Some (Ok (then_
           (MakeResolver.sendRequest (MakeResolver.service cfg)
              (mkBody
                 (Printed
                    (MakeResolver.createOperation cfg
                       (MakeResolver.mkOptions
                          (getNamedType (MakeResolver.returnType info)).1
                          (MakeResolver.parentType info) (MakeResolver.fieldName info)
                          selections (MakeResolver.isQuery cfg)
                          (MakeResolver.isReference cfg)
                          (MakeResolver.variablesToDefine
                             (MakeResolver.variableNamesToDefine selections fieldNode)
                             definitions)
                          (arguments fieldNode)
                          (operation (MakeResolver.originalOperation info))))
                    [])
                 (Some vars)))
           (MakeResolver.transformData cfg))).
Proof.
  destruct (removeNonServiceTypeFields_returns _ _ _ _ Haccepted)
    as (selections & Hselections & Hpruned).
  assert (Hused : MakeResolver.getFragmentNamesInSelection selections = Ok []).
  { unfold MakeResolver.getFragmentNamesInSelection.
    destruct (mapM_all_nil MakeResolver.fragment_names_in selections)
      as (names & -> & Hconcat).
    - eapply spread_free_names; [exact Hselections|]. by apply forallb_true_Forall.
    - simpl. by rewrite Hconcat. }
  assert (∃ vars, MakeResolver.payload_variables cfg
                    (MakeResolver.variableNamesToDefine selections fieldNode) parent info
                  = Ok vars) as [vars Hvars].
  { unfold MakeResolver.payload_variables.
    destruct (MakeResolver.isReference cfg).
    - destruct (Hparent eq_refl) as [Hu Hn].
      destruct (get_prop_total parent (MakeResolver.fieldName info) Hu Hn) as [x ->].
      by eexists.
    - destruct (MakeResolver.isQuery cfg); by eexists. }
  exists selections, vars. split; [done|]. split; [done|].
  unfold MakeResolver.makeResolver, MakeResolver.resolver_body.
  rewrite Hnode, Hset, Hselections, Hdefinitions, Hused. simpl. by rewrite Hvars.
Qed.

Lemma makeResolver_sends_one_request_witness :
  ∃ selections vars,
    pruned (MakeResolver.typeMap Fixtures.mr_users) (Some Fixtures.mr_schema) "User"
           [Fixtures.leaf "name"; Fixtures.address_city] selections
    ∧ MakeResolver.payload_variables (Fixtures.mr_config MakeResolver.RootDelegate)
        (MakeResolver.variableNamesToDefine selections MoreFixtures.me_field)
        JUndefined MoreFixtures.Me_info = Ok vars
    ∧ MakeResolver.makeResolver 1 (Fixtures.mr_config MakeResolver.RootDelegate)
        JUndefined JUndefined JUndefined MoreFixtures.Me_info
      = Some (Ok (then_
           (MakeResolver.sendRequest Fixtures.mr_users
              (mkBody
                 (Printed
                    (MakeResolver.createQueryOperation
                       (MakeResolver.mkOptions "User" "Query" "me" selections true false
                          (MakeResolver.variablesToDefine
                             (MakeResolver.variableNamesToDefine selections
                                                                 MoreFixtures.me_field)
                             [])
                          (Some []) "query"))
                    [])
                 (Some vars)))
           (Fixtures.transform_root "user"))).
Proof.
  apply (makeResolver_sends_one_request 0 (Fixtures.mr_config MakeResolver.RootDelegate)
           JUndefined JUndefined JUndefined MoreFixtures.Me_info MoreFixtures.me_field []
           [Fixtures.leaf "name"; Fixtures.address_city] []).
  - reflexivity.
  - reflexivity.
  - constructor; [intros _; eexists; reflexivity|].
    repeat apply Forall_cons_2; [| |constructor].
    + by eapply rewritable_leaf.
    + eapply (rewritable_nested _ _ _ _ "address" [Fixtures.leaf "city"] "Address");
        [reflexivity|reflexivity|reflexivity|].
      constructor; [intros _; eexists; reflexivity|].
      repeat constructor. by eapply rewritable_leaf.
  - reflexivity.
  - reflexivity.
  - discriminate.
Defined.

(** * The HTTP routes *)

Lemma executeQuery_events opts query variables operationName request reply ev :
  ev ∈ Routes.events (Routes.executeQuery opts query variables operationName request reply) →
  Routes.truthy query = true
  ∧ (ev = Routes.ContextRequested
     ∨ ∃ entries,
         ev = Routes.Executed query
                (Routes.context_object (Routes.subscriber opts) query entries)
                variables operationName).
Proof.
  unfold Routes.executeQuery. destruct (Routes.truthy query); [|by intros ?%elem_of_nil].
  intros Hev. split; [done|].
  destruct (Routes.context opts) as [contextFn|]; simpl in Hev.
  - destruct (contextFn request) as [entries|err]; simpl in Hev.
    + destruct (Routes.graphql reply _ _ _ _); simpl in Hev;
        apply elem_of_cons in Hev as [->|Hev]; [by left| |by left|];
        apply elem_of_cons in Hev as [->|Hev]; [right; by eexists|by apply elem_of_nil in Hev
                                               |right; by eexists|by apply elem_of_nil in Hev].
    + apply elem_of_cons in Hev as [->|Hev]; [by left|by apply elem_of_nil in Hev].
  - destruct (Routes.graphql reply _ _ _ _); simpl in Hev;
      apply elem_of_cons in Hev as [->|Hev];
      [right; by exists []|by apply elem_of_nil in Hev
      |right; by exists []|by apply elem_of_nil in Hev].
Qed.

(** X20: the context handed to [reply.graphql] always carries the
    executed query under [__currentQuery], whatever the object of the
    context function holds under that key; [pubsub] is the subscriber
    unless that object has a [pubsub] of its own. *)
Theorem current_query_cannot_be_overridden
        (opts : Routes.Options) (query variables operationName : JsVal)
        (request : Routes.Request) (reply : Routes.Reply)
        (q v o : JsVal) (context : list (string * JsVal))
        (Hexecuted : Routes.Executed q context v o
                     ∈ Routes.events (Routes.executeQuery opts query variables
                                        operationName request reply)) :
  q = query ∧ v = variables ∧ o = operationName
  ∧ assoc "__currentQuery" context = Some query
  ∧ ∃ entries,
      (∀ contextFn, Routes.context opts = Some contextFn →
                    contextFn request = Routes.Return entries)
      ∧ (Routes.context opts = None → entries = [])
      ∧ assoc "pubsub" context
        = Some (default (Routes.subscriber opts)
                        (snd <$> last (filter (λ entry, entry.1 = "pubsub") entries))).
Proof.
  assert (Hshape : ∃ entries,
             ((∀ contextFn, Routes.context opts = Some contextFn →
                            contextFn request = Routes.Return entries)
              ∧ (Routes.context opts = None → entries = []))
             ∧ Routes.Executed q context v o
               = Routes.Executed query
                   (Routes.context_object (Routes.subscriber opts) query entries)
                   variables operationName).
  { revert Hexecuted. unfold Routes.executeQuery.
    destruct (Routes.truthy query); [|by intros ?%elem_of_nil].
    destruct (Routes.context opts) as [contextFn|]; simpl.
    - destruct (contextFn request) as [entries|err] eqn:Hentries; simpl.
      + intros Hev. exists entries. split.
        * split; [|done]. by intros ? [= <-].
        * destruct (Routes.graphql reply _ _ _ _); simpl in Hev;
            apply elem_of_cons in Hev as [Hev|Hev]; try discriminate Hev;
            apply elem_of_cons in Hev as [Hev|Hev]; try done;
            by apply elem_of_nil in Hev.
      + intros Hev. apply elem_of_cons in Hev as [Hev|Hev]; [discriminate Hev|].
        by apply elem_of_nil in Hev.
    - intros Hev. exists []. split; [split; [discriminate|done]|].
      destruct (Routes.graphql reply _ _ _ _); simpl in Hev;
        apply elem_of_cons in Hev as [Hev|Hev]; try done; by apply elem_of_nil in Hev. }
  destruct Hshape as (entries & [Hfn Hnone] & [= -> -> -> ->]).
  split; [done|]. split; [done|]. split; [done|]. split.
  - unfold Routes.context_object. rewrite assoc_obj_set. by rewrite decide_True.
  - exists entries. split; [done|]. split; [done|].
    unfold Routes.context_object. rewrite assoc_obj_set, decide_False by done.
    pose proof (assoc_foldl_obj_set (A:=JsVal) fst snd entries
                  [("pubsub", Routes.subscriber opts)] "pubsub") as Hfold.
    simpl in Hfold. rewrite Hfold. by destruct (last _).
Qed.

Lemma current_query_cannot_be_overridden_witness :
  ∃ context,
    Routes.events (Routes.executeQuery RoutesFixtures.spoofing (JString "{ me }") JNull
                     JNull (RoutesFixtures.post JNull) RoutesFixtures.echo)
    = [Routes.ContextRequested; Routes.Executed (JString "{ me }") context JNull JNull]
    ∧ assoc "__currentQuery" context = Some (JString "{ me }")
    ∧ assoc "user" context = Some (JString "ann").
Proof.
  eexists. split; [vm_compute; reflexivity|]. split; [|vm_compute; reflexivity].
  eapply (current_query_cannot_be_overridden RoutesFixtures.spoofing (JString "{ me }")
            JNull JNull (RoutesFixtures.post JNull) RoutesFixtures.echo).
  vm_compute. apply list_elem_of_further, list_elem_of_here.
Defined.

Lemma destructure_after_query body k query :
  Routes.destructure body "query" = Routes.Return query →
  ∃ v, Routes.destructure body k = Routes.Return v.
Proof.
  destruct body; simpl; try discriminate; intros _; try by eexists.
  destruct (decide (k = "length")); by eexists.
Qed.

(** The query a persisted request resolves to, as lines 193-214 find it. *)
Lemma executePersistedQuery_persisted opts provider body request reply isPersisted flag
      query operationName variables :
  Routes.isPersistedQuery provider = Some isPersisted →
  isPersisted body = Routes.Return flag →
  Routes.truthy flag = true →
  Routes.destructure body "query" = Routes.Return query →
  Routes.destructure body "operationName" = Routes.Return operationName →
  Routes.destructure body "variables" = Routes.Return variables →
  Routes.executePersistedQuery opts provider body request reply
  = match Routes.call_if_defined (Routes.getHash provider) body with
    | Routes.Raise err => Routes.mkRun [] (Routes.Raise err)
    | Routes.Return hash =>
        if Routes.truthy hash then
          match Routes.call "getQueryFromHash" (Routes.getQueryFromHash provider) hash with
          | Routes.Raise err => Routes.mkRun [] (Routes.Raise err)
          | Routes.Return stored =>
              if Routes.truthy stored then
                Routes.executeQuery opts stored variables operationName request reply
              else Routes.mkRun [] (Routes.Raise (Routes.BadRequest
                                                    (Routes.notFoundError provider)))
          end
        else Routes.mkRun [] (Routes.Raise (Routes.BadRequest
                                              (Routes.notSupportedError provider)))
    end.
Proof.
  intros His Hflag Hpersisted Hq Ho Hv. unfold Routes.executePersistedQuery, Routes.lift.
  unfold mbind, mret, Routes.Run_bind, Routes.Run_ret. simpl.
  rewrite Hq. simpl. rewrite Ho. simpl. rewrite Hv. simpl. rewrite His. simpl.
  rewrite Hflag. simpl. rewrite Hpersisted. simpl.
  destruct (Routes.call_if_defined _ body) as [hash|err]; simpl; [|done].
  destruct (Routes.truthy hash); simpl; [|done].
  destruct (Routes.call _ _ hash) as [stored|err]; simpl; [|done].
  destruct (Routes.truthy stored); simpl; [|done].
  destruct (Routes.executeQuery opts stored variables operationName request reply)
    as [evs [v|err]]; simpl; by rewrite ?app_nil_r.
Qed.

(** X21: a request that the provider recognises as persisted never
    reaches [saveQuery], and what it executes is the query stored under
    the hash of the request, with the operation name and the variables
    of the request: the [query] member of the body is not run. *)
Theorem persisted_request_runs_the_stored_query
        (opts : Routes.Options) (provider : Routes.Provider) (body : JsVal)
        (request : Routes.Request) (reply : Routes.Reply)
        (isPersisted : JsVal → Routes.outcome JsVal) (flag : JsVal)
        (His : Routes.isPersistedQuery provider = Some isPersisted)
        (Hflag : isPersisted body = Routes.Return flag)
        (Hpersisted : Routes.truthy flag = true) :
  (∀ hash query,
     Routes.SaveQueryCalled hash query
     ∉ Routes.events (Routes.executePersistedQuery opts provider body request reply))
  ∧ (∀ query context variables operationName,
       Routes.Executed query context variables operationName
       ∈ Routes.events (Routes.executePersistedQuery opts provider body request reply) →
       Routes.destructure body "variables" = Routes.Return variables
       ∧ Routes.destructure body "operationName" = Routes.Return operationName
       ∧ ∃ hash,
           Routes.call_if_defined (Routes.getHash provider) body = Routes.Return hash
           ∧ Routes.truthy hash = true
           ∧ Routes.call "getQueryFromHash" (Routes.getQueryFromHash provider) hash
             = Routes.Return query).
Proof.
  destruct (Routes.destructure body "query") as [query0|err] eqn:Hq.
  - destruct (destructure_after_query body "operationName" query0 Hq) as [o Ho].
    destruct (destructure_after_query body "variables" query0 Hq) as [v Hv].
    rewrite (executePersistedQuery_persisted opts provider body request reply isPersisted
               flag query0 o v His Hflag Hpersisted Hq Ho Hv).
    destruct (Routes.call_if_defined _ body) as [hash|err]; simpl;
      [|(split; [intros ? ?; apply not_elem_of_nil
       |intros ? ? ? ? Hnil; by apply elem_of_nil in Hnil])].
    destruct (Routes.truthy hash) eqn:Hhash; simpl;
      [|(split; [intros ? ?; apply not_elem_of_nil
       |intros ? ? ? ? Hnil; by apply elem_of_nil in Hnil])].
    destruct (Routes.call _ _ hash) as [stored|err] eqn:Hstored; simpl;
      [|(split; [intros ? ?; apply not_elem_of_nil
       |intros ? ? ? ? Hnil; by apply elem_of_nil in Hnil])].
    destruct (Routes.truthy stored); simpl; [|(split; [intros ? ?; apply not_elem_of_nil
       |intros ? ? ? ? Hnil; by apply elem_of_nil in Hnil])].
    split.
    + intros h q Hev. apply executeQuery_events in Hev as [_ [Hev|[entries Hev]]];
        discriminate Hev.
    + intros q c v' o' Hev.
      apply executeQuery_events in Hev as [_ [Hev|[entries Hev]]]; [discriminate Hev|].
      injection Hev as -> -> -> ->. split; [done|]. split; [done|]. by exists hash.
  - unfold Routes.executePersistedQuery, Routes.lift.
    unfold mbind, Routes.Run_bind. simpl. rewrite Hq. simpl.
    (split; [intros ? ?; apply not_elem_of_nil
       |intros ? ? ? ? Hnil; by apply elem_of_nil in Hnil]).
Qed.

Lemma persisted_request_runs_the_stored_query_witness :
  Routes.events (Routes.executePersistedQuery RoutesFixtures.with_provider
                   RoutesFixtures.provider (RoutesFixtures.persisted_body "h1")
                   (RoutesFixtures.post JNull) RoutesFixtures.echo)
  = [Routes.Executed (JString "{ me { name } }")
       (Routes.context_object JNull (JString "{ me { name } }") []) JUndefined JUndefined]
  ∧ ∀ hash query,
      Routes.SaveQueryCalled hash query
      ∉ Routes.events (Routes.executePersistedQuery RoutesFixtures.with_provider
                         RoutesFixtures.provider (RoutesFixtures.persisted_body "h1")
                         (RoutesFixtures.post JNull) RoutesFixtures.echo).
Proof.
  split; [vm_compute; reflexivity|].
  eapply (persisted_request_runs_the_stored_query RoutesFixtures.with_provider
            RoutesFixtures.provider (RoutesFixtures.persisted_body "h1")
            (RoutesFixtures.post JNull) RoutesFixtures.echo _ (JBool true));
    reflexivity.
Defined.

(** X22: a persisted request the provider cannot serve ends as a
    [BadRequest] before anything is executed or saved: with
    [notSupportedError] when no hash comes out of the request, with
    [notFoundError] when nothing is stored under the hash.  The default
    error handler answers either with status 400, [data: null] and the
    one message, the status text when the provider names no message. *)
Theorem unserved_persisted_request_is_a_bad_request
        (opts : Routes.Options) (provider : Routes.Provider) (body : JsVal)
        (request : Routes.Request) (reply : Routes.Reply)
        (isPersisted : JsVal → Routes.outcome JsVal) (flag query hash : JsVal)
        (His : Routes.isPersistedQuery provider = Some isPersisted)
        (Hflag : isPersisted body = Routes.Return flag)
        (Hpersisted : Routes.truthy flag = true)
        (Hbody : Routes.destructure body "query" = Routes.Return query)
        (Hhash : Routes.call_if_defined (Routes.getHash provider) body
                 = Routes.Return hash) :
  (Routes.truthy hash = false →
   Routes.executePersistedQuery opts provider body request reply
   = Routes.mkRun [] (Routes.Raise (Routes.BadRequest (Routes.notSupportedError provider))))
  ∧ (∀ stored,
       Routes.truthy hash = true →
       Routes.call "getQueryFromHash" (Routes.getQueryFromHash provider) hash
       = Routes.Return stored →
       Routes.truthy stored = false →
       Routes.executePersistedQuery opts provider body request reply
       = Routes.mkRun [] (Routes.Raise (Routes.BadRequest (Routes.notFoundError provider))))
  ∧ (∀ FEDERATED_ERROR toGraphQLError formatError message,
       Routes.defaultErrorHandler FEDERATED_ERROR toGraphQLError formatError
         (Routes.BadRequest message)
       = Routes.Return
           (Routes.mkErrorReply 400
              [JObject [("message", JString (default "Bad Request" message))]] JNull)).
Proof.
  destruct (destructure_after_query body "operationName" query Hbody) as [o Ho].
  destruct (destructure_after_query body "variables" query Hbody) as [v Hv].
  rewrite (executePersistedQuery_persisted opts provider body request reply isPersisted
             flag query o v His Hflag Hpersisted Hbody Ho Hv), Hhash.
  split; [by intros ->|]. split; [|done].
  intros stored -> -> Hstored. by rewrite Hstored.
Qed.

Lemma unserved_persisted_request_is_a_bad_request_witness :
  Routes.executePersistedQuery RoutesFixtures.with_provider RoutesFixtures.provider
    (RoutesFixtures.persisted_body "h9") (RoutesFixtures.post JNull) RoutesFixtures.echo
  = Routes.mkRun [] (Routes.Raise (Routes.BadRequest (Some "PersistedQueryNotFound"))).
Proof.
  eapply (unserved_persisted_request_is_a_bad_request RoutesFixtures.with_provider
            RoutesFixtures.provider (RoutesFixtures.persisted_body "h9")
            (RoutesFixtures.post JNull) RoutesFixtures.echo _ (JBool true)
            (JString "h9") (JString "h9")); reflexivity.
Defined.

(** X23: saving cannot change an answer.  For a request that is not
    persisted, and a [getHashForQuery] that returns, the promise of
    [executePersistedQuery] settles exactly as that of [executeQuery] on
    the request's own query, whether [saveQuery] resolves, rejects or is
    left out; and [saveQuery] is called only after the query was
    answered, with that query and a truthy hash of it. *)
Theorem saving_never_changes_the_answer
        (opts : Routes.Options) (provider : Routes.Provider) (body : JsVal)
        (request : Routes.Request) (reply : Routes.Reply)
        (isPersisted : JsVal → Routes.outcome JsVal)
        (flag query operationName variables : JsVal)
        (His : Routes.isPersistedQuery provider = Some isPersisted)
        (Hflag : isPersisted body = Routes.Return flag)
        (Hplain : Routes.truthy flag = false)
        (Hquery : Routes.destructure body "query" = Routes.Return query)
        (Hname : Routes.destructure body "operationName" = Routes.Return operationName)
        (Hvariables : Routes.destructure body "variables" = Routes.Return variables)
        (Hhashes : ∃ hash, Routes.call_if_defined (Routes.getHashForQuery provider) query
                           = Routes.Return hash) :
  Routes.settled (Routes.executePersistedQuery opts provider body request reply)
  = Routes.settled (Routes.executeQuery opts query variables operationName request reply)
  ∧ ∀ hash q,
      Routes.SaveQueryCalled hash q
      ∈ Routes.events (Routes.executePersistedQuery opts provider body request reply) →
      q = query
      ∧ Routes.truthy hash = true
      ∧ Routes.call_if_defined (Routes.getHashForQuery provider) query = Routes.Return hash
      ∧ ∃ v, Routes.settled (Routes.executeQuery opts query variables operationName
                               request reply) = Routes.Return v.
Proof.
  destruct Hhashes as [hash Hhash].
  unfold Routes.executePersistedQuery, Routes.lift.
  unfold mbind, mret, Routes.Run_bind, Routes.Run_ret. simpl.
  rewrite Hquery. simpl. rewrite Hname. simpl. rewrite Hvariables. simpl.
  rewrite His. simpl. rewrite Hflag. simpl. rewrite Hplain. simpl.
  pose proof (executeQuery_events opts query variables operationName request reply)
    as Hevents.
  destruct (Routes.executeQuery opts query variables operationName request reply)
    as [evs [v|err]]; simpl in *.
  - destruct (Routes.truthy query) eqn:Htruthy; simpl.
    + rewrite Hhash. simpl. destruct (Routes.truthy hash) eqn:Hh; simpl.
      * unfold Routes.try_saveQuery.
        destruct (Routes.saveQuery provider) as [save|]; simpl.
        -- destruct (save hash query); simpl; (split; [done|]); intros h q Hev;
             rewrite !elem_of_app in Hev; destruct Hev as [Hev|Hev];
             try (apply Hevents in Hev as [_ [Hev|[? Hev]]]; discriminate Hev);
             rewrite ?app_nil_r in Hev;
             repeat (apply elem_of_cons in Hev as [Hev|Hev]; [|]);
             try (injection Hev as -> ->; split; [done|]; split; [done|]; split; [done|];
                  by eexists);
             try discriminate Hev; by apply elem_of_nil in Hev.
        -- split; [done|]. intros h q Hev.
           rewrite !elem_of_app in Hev. destruct Hev as [Hev|Hev].
           ++ apply Hevents in Hev as [_ [Hev|[? Hev]]]; discriminate Hev.
           ++ rewrite ?app_nil_r in Hev.
              apply elem_of_cons in Hev as [Hev|Hev]; [discriminate Hev|].
              by apply elem_of_nil in Hev.
      * split; [done|]. intros h q Hev. rewrite !app_nil_r in Hev.
        apply Hevents in Hev as [_ [Hev|[? Hev]]]; discriminate Hev.
    + split; [done|]. intros h q Hev. rewrite !app_nil_r in Hev.
      apply Hevents in Hev as [_ [Hev|[? Hev]]]; discriminate Hev.
  - split; [done|]. intros h q Hev.
    apply Hevents in Hev as [_ [Hev|[? Hev]]]; discriminate Hev.
Qed.

Lemma saving_never_changes_the_answer_witness :
  Routes.executePersistedQuery RoutesFixtures.with_provider RoutesFixtures.provider
    (RoutesFixtures.plain_body "{ me }") (RoutesFixtures.post JNull) RoutesFixtures.echo
  = Routes.mkRun
      [Routes.Executed (JString "{ me }")
         (Routes.context_object JNull (JString "{ me }") []) JUndefined JUndefined;
       Routes.SaveQueryCalled (JString "h2") (JString "{ me }");
       Routes.Warned (Routes.engine_error "read-only store")]
      (Routes.Return (Routes.Payload (JObject [("data", JString "{ me }")])))
  ∧ Routes.settled (Routes.executePersistedQuery RoutesFixtures.with_provider
                      RoutesFixtures.provider (RoutesFixtures.plain_body "{ me }")
                      (RoutesFixtures.post JNull) RoutesFixtures.echo)
    = Routes.settled (Routes.executeQuery RoutesFixtures.with_provider (JString "{ me }")
                        JUndefined JUndefined (RoutesFixtures.post JNull)
                        RoutesFixtures.echo).
Proof.
  split; [vm_compute; reflexivity|].
  eapply (saving_never_changes_the_answer RoutesFixtures.with_provider
            RoutesFixtures.provider (RoutesFixtures.plain_body "{ me }")
            (RoutesFixtures.post JNull) RoutesFixtures.echo _ JUndefined);
    try reflexivity.
  by eexists.
Defined.

Lemma caught_returns run :
  ∃ v, Routes.settled (Routes.caught run) = Routes.Return v.
Proof. unfold Routes.caught. simpl. destruct (Routes.settled run); by eexists. Qed.

Lemma batch_Async (runs : list (Routes.Run Routes.Value)) :
  ∃ vs,
    Routes.settled (Routes.batch (map Routes.Async runs)) = Routes.Return vs
    ∧ Forall2 (λ run v, Routes.settled (Routes.caught run) = Routes.Return v) runs vs.
Proof.
  induction runs as [|run runs (vs & Hvs & Hall)]; simpl.
  - exists []. split; [done|constructor].
  - destruct (caught_returns run) as [v Hv]. exists (v :: vs).
    unfold mbind, mret, Routes.Run_bind, Routes.Run_ret. simpl.
    unfold Routes.caught in Hv. simpl in Hv. rewrite Hv. simpl.
    rewrite Hvs. simpl. split; [done|]. constructor; [|done].
    unfold Routes.caught. simpl. exact Hv.
Qed.

Lemma batch_SyncThrow (calls : list (Routes.Called Routes.Value)) :
  Exists (λ called, ∃ err, called = Routes.SyncThrow err) calls →
  ∃ err, Routes.settled (Routes.batch calls) = Routes.Raise err.
Proof.
  induction calls as [|[err|run] calls IH]; intros Hex.
  - by apply Exists_nil in Hex.
  - by exists err.
  - apply Exists_cons in Hex as [[err Herr]|Hex]; [discriminate Herr|].
    destruct (IH Hex) as [err Herr]. exists err. simpl.
    unfold mbind, mret, Routes.Run_bind, Routes.Run_ret. simpl.
    destruct (Routes.settled run); simpl; by rewrite Herr.
Qed.

Lemma execute_Async opts body request reply :
  (Routes.persistedQueryProvider opts = None → body ≠ JUndefined ∧ body ≠ JNull) →
  ∃ run, Routes.execute opts body request reply = Routes.Async run.
Proof.
  unfold Routes.execute. destruct (Routes.persistedQueryProvider opts); [by eexists|].
  intros Hbody. destruct (Hbody eq_refl) as [Hu Hn].
  unfold Routes.executeRegularQuery.
  destruct body; try done; simpl; by eexists.
Qed.

(** X24: a batch is answered element by element.  With batching allowed
    and a body that is an array, the [POST] handler resolves with one
    value per element, in order: what the element's execution resolved
    with, or [{ errors: [{ message }] }] in place of what it rejected
    with; one failing element fails no other.  This holds with a
    persisted-query provider, and without one when no element is
    [null]. *)
Theorem batch_answers_every_element
        (opts : Routes.Options) (request : Routes.Request) (reply : Routes.Reply)
        (items : list JsVal)
        (Hvalid : Routes.validationError request = None)
        (Hbatch : Routes.allowBatchedQueries opts = true)
        (Hbody : Routes.req_body request = JArray items)
        (Hobjects : Routes.persistedQueryProvider opts = None →
                    Forall (λ item, item ≠ JUndefined ∧ item ≠ JNull) items) :
  ∃ vs,
    Routes.settled (Routes.post_handler opts request reply) = Routes.Return (Routes.Many vs)
    ∧ Forall2 (λ item v,
                 ∃ run, Routes.execute opts item request reply = Routes.Async run
                        ∧ match Routes.settled run with
                          | Routes.Return answer => v = answer
                          | Routes.Raise err =>
                              v = Routes.Payload
                                    (JObject [("errors",
                                               JArray [JObject [("message",
                                                                 JString
                                                                   (Routes.err_message
                                                                      err))]])])
                          end)
              items vs.
Proof.
  assert (Hruns : ∃ runs, map (λ r, Routes.execute opts r request reply) items
                          = map Routes.Async runs
                          ∧ Forall2 (λ item run, Routes.execute opts item request reply
                                                 = Routes.Async run) items runs).
  { assert (Hall : Forall (λ item, Routes.persistedQueryProvider opts = None →
                                   item ≠ JUndefined ∧ item ≠ JNull) items).
    { apply Forall_forall. intros item Hin Hnone.
      exact (proj1 (Forall_forall _ _) (Hobjects Hnone) item Hin). }
    clear Hobjects Hbody. induction Hall as [|item items Hitem _ (runs & Hmap & Hruns)].
    - exists []. split; [done|constructor].
    - destruct (execute_Async opts item request reply Hitem) as [run Hrun].
      exists (run :: runs). simpl. rewrite Hrun, Hmap. split; [done|]. by constructor. }
  destruct Hruns as (runs & Hmap & Hruns).
  destruct (batch_Async runs) as (vs & Hvs & Hcaught).
  exists vs. split.
  - unfold Routes.post_handler. rewrite Hvalid, Hbody, Hbatch, Hmap.
    unfold mbind, mret, Routes.Run_bind, Routes.Run_ret, Routes.lift. simpl.
    by rewrite Hvs.
  - clear Hvs Hmap Hbody Hobjects. revert vs Hcaught.
    induction Hruns as [|item run items runs Hrun _ IH]; intros vs Hcaught.
    + inversion Hcaught. constructor.
    + inversion Hcaught as [|? v ? vs' Hv Hrest]; subst. constructor; [|by apply IH].
      exists run. split; [done|]. unfold Routes.caught in Hv. simpl in Hv.
      destruct (Routes.settled run); by injection Hv as <-.
Qed.

Lemma batch_answers_every_element_witness :
  Routes.settled (Routes.post_handler RoutesFixtures.with_provider
                    (RoutesFixtures.post
                       (JArray [RoutesFixtures.persisted_body "h9";
                                RoutesFixtures.plain_body "{ me }"; JNull]))
                    RoutesFixtures.echo)
  = Routes.Return
      (Routes.Many
         [Routes.Payload
            (JObject [("errors",
                       JArray [JObject [("message", JString "PersistedQueryNotFound")]])]);
          Routes.Payload (JObject [("data", JString "{ me }")]);
          Routes.Payload
            (JObject [("errors",
                       JArray [JObject
                                 [("message",
                                   JString "Cannot destructure property 'query' of 'body' as it is null.")]])])])
  ∧ ∃ vs,
      Routes.settled (Routes.post_handler RoutesFixtures.with_provider
                        (RoutesFixtures.post
                           (JArray [RoutesFixtures.persisted_body "h9";
                                    RoutesFixtures.plain_body "{ me }"; JNull]))
                        RoutesFixtures.echo)
      = Routes.Return (Routes.Many vs)
      ∧ length vs = 3.
Proof.
  split; [vm_compute; reflexivity|].
  destruct (batch_answers_every_element RoutesFixtures.with_provider
              (RoutesFixtures.post
                 (JArray [RoutesFixtures.persisted_body "h9";
                          RoutesFixtures.plain_body "{ me }"; JNull]))
              RoutesFixtures.echo
              [RoutesFixtures.persisted_body "h9"; RoutesFixtures.plain_body "{ me }"; JNull]
              eq_refl eq_refl eq_refl)
    as (vs & Hvs & Hall).
  - discriminate.
  - exists vs. split; [exact Hvs|]. symmetry. exact (Forall2_length _ _ _ Hall).
Defined.

(** X25: without a persisted-query provider, [execute] is the plain
    function [executeRegularQuery], whose destructuring throws before
    any promise exists for [catch] to guard: one [null] among the
    elements of a batch rejects the whole batch. *)
Theorem null_element_rejects_the_batch
        (opts : Routes.Options) (request : Routes.Request) (reply : Routes.Reply)
        (items : list JsVal)
        (Hvalid : Routes.validationError request = None)
        (Hbatch : Routes.allowBatchedQueries opts = true)
        (Hbody : Routes.req_body request = JArray items)
        (Hprovider : Routes.persistedQueryProvider opts = None)
        (Hnull : JNull ∈ items) :
  ∃ err, Routes.settled (Routes.post_handler opts request reply) = Routes.Raise err.
Proof.
  destruct (batch_SyncThrow (map (λ r, Routes.execute opts r request reply) items))
    as [err Herr].
  - apply Exists_exists. exists (Routes.execute opts JNull request reply). split.
    + apply list_elem_of_fmap. by exists JNull.
    + unfold Routes.execute. rewrite Hprovider. by eexists.
  - exists err. unfold Routes.post_handler. rewrite Hvalid, Hbody, Hbatch.
    unfold mbind, mret, Routes.Run_bind, Routes.Run_ret, Routes.lift. simpl.
    by rewrite Herr.
Qed.

Lemma null_element_rejects_the_batch_witness :
  ∃ err,
    Routes.settled (Routes.post_handler RoutesFixtures.without_provider
                      (RoutesFixtures.post (JArray [RoutesFixtures.plain_body "{ me }";
                                                    JNull]))
                      RoutesFixtures.echo)
    = Routes.Raise err.
Proof.
  apply (null_element_rejects_the_batch RoutesFixtures.without_provider
           (RoutesFixtures.post (JArray [RoutesFixtures.plain_body "{ me }"; JNull]))
           RoutesFixtures.echo [RoutesFixtures.plain_body "{ me }"; JNull]);
    try reflexivity.
  apply list_elem_of_further, list_elem_of_here.
Defined.

(** X26: a request that fails schema validation runs nothing.  The
    [GET] and the [POST] handler both reject, before reading the
    request, with a [BadRequest] that carries the validation error; the
    default error handler answers it with status 400, [data: null] and
    one error entry made of the validation error. *)
Theorem invalid_request_is_answered_400
        (JSON_parse : JsVal → Routes.outcome JsVal)
        (opts : Routes.Options) (request : Routes.Request) (reply : Routes.Reply)
        (validationError : Routes.ErrorItem)
        (FEDERATED_ERROR : string) (toGraphQLError : JsVal → Routes.ErrorItem)
        (formatError : Routes.ErrorItem → JsVal)
        (Hinvalid : Routes.validationError request = Some validationError)
        (Hplain : Routes.item_message validationError ≠ FEDERATED_ERROR) :
  ∃ err,
    Routes.get_handler JSON_parse opts request reply = Routes.mkRun [] (Routes.Raise err)
    ∧ Routes.post_handler opts request reply = Routes.mkRun [] (Routes.Raise err)
    ∧ Routes.defaultErrorHandler FEDERATED_ERROR toGraphQLError formatError err
      = Routes.Return
          (Routes.mkErrorReply 400
             [if Routes.item_isGraphQLError validationError
              then formatError validationError
              else JObject [("message", JString (Routes.item_message validationError))]]
             JNull).
Proof.
  eexists. split; [|split].
  - unfold Routes.get_handler. rewrite Hinvalid. reflexivity.
  - unfold Routes.post_handler. rewrite Hinvalid. reflexivity.
  - unfold Routes.defaultErrorHandler, Routes.format_item. simpl.
    by rewrite decide_False.
Qed.

Lemma invalid_request_is_answered_400_witness :
  ∃ err,
    Routes.get_handler RoutesFixtures.parse_nothing RoutesFixtures.with_provider
      (Routes.mkRequest (Some RoutesFixtures.must_be_string) [] JNull) RoutesFixtures.echo
    = Routes.mkRun [] (Routes.Raise err)
    ∧ Routes.post_handler RoutesFixtures.with_provider
        (Routes.mkRequest (Some RoutesFixtures.must_be_string) [] JNull) RoutesFixtures.echo
      = Routes.mkRun [] (Routes.Raise err)
    ∧ Routes.defaultErrorHandler "Symbol(FEDERATED_ERROR)"
        (λ _, RoutesFixtures.must_be_string) (λ _, JNull) err
      = Routes.Return
          (Routes.mkErrorReply 400
             [JObject [("message", JString "body.query should be string")]] JNull).
Proof.
  apply (invalid_request_is_answered_400 RoutesFixtures.parse_nothing
           RoutesFixtures.with_provider
           (Routes.mkRequest (Some RoutesFixtures.must_be_string) [] JNull)
           RoutesFixtures.echo RoutesFixtures.must_be_string "Symbol(FEDERATED_ERROR)"
           (λ _, RoutesFixtures.must_be_string) (λ _, JNull)).
  - reflexivity.
  - discriminate.
Defined.

Lemma events_bind {A B} (m : Routes.Run A) (f : A → Routes.Run B) (ev : Routes.Event) :
  ev ∈ Routes.events (m ≫= f) →
  ev ∈ Routes.events m ∨ ∃ a, Routes.settled m = Routes.Return a ∧ ev ∈ Routes.events (f a).
Proof.
  unfold mbind, Routes.Run_bind. destruct (Routes.settled m) as [a|err]; simpl.
  - rewrite elem_of_app. intros [Hev|Hev]; [by left|]. right. by exists a.
  - by left.
Qed.

Lemma try_saveQuery_events provider hash query ev :
  ev ∈ Routes.events (Routes.try_saveQuery provider hash query) →
  ev = Routes.SaveQueryCalled hash query ∨ ∃ err, ev = Routes.Warned err.
Proof.
  unfold Routes.try_saveQuery. destruct (Routes.saveQuery provider) as [save|].
  - intros Hev. apply events_bind in Hev as [Hev|(_ & _ & Hev)].
    + apply list_elem_of_singleton in Hev as ->. by left.
    + destruct (save hash query); [by apply elem_of_nil in Hev|].
      apply list_elem_of_singleton in Hev as ->. right. by eexists.
  - intros Hev. apply list_elem_of_singleton in Hev as ->. right. by eexists.
Qed.

(** Whatever [executePersistedQuery] executes, it executes with the
    operation name and the variables of the body. *)
Lemma executePersistedQuery_executes_with_body opts provider body request reply q c v o :
  Routes.Executed q c v o
  ∈ Routes.events (Routes.executePersistedQuery opts provider body request reply) →
  Routes.destructure body "variables" = Routes.Return v
  ∧ Routes.destructure body "operationName" = Routes.Return o.
Proof.
  unfold Routes.executePersistedQuery. intros Hev.
  apply events_bind in Hev as [Hev|(query & Hquery & Hev)]; [by apply elem_of_nil in Hev|].
  apply events_bind in Hev as [Hev|(operationName & Hname & Hev)];
    [by apply elem_of_nil in Hev|].
  apply events_bind in Hev as [Hev|(variables & Hvariables & Hev)];
    [by apply elem_of_nil in Hev|].
  simpl in Hname, Hvariables. rewrite Hname, Hvariables.
  apply events_bind in Hev as [Hev|(persisted & _ & Hev)]; [by apply elem_of_nil in Hev|].
  apply events_bind in Hev as [Hev|(query' & _ & Hev)].
  { destruct (Routes.truthy persisted); [|by apply elem_of_nil in Hev].
    apply events_bind in Hev as [Hev|(hash & _ & Hev)]; [by apply elem_of_nil in Hev|].
    destruct (Routes.truthy hash); [|by apply elem_of_nil in Hev].
    apply events_bind in Hev as [Hev|(stored & _ & Hev)]; [by apply elem_of_nil in Hev|].
    destruct (Routes.truthy stored); by apply elem_of_nil in Hev. }
  apply events_bind in Hev as [Hev|(result & _ & Hev)].
  { apply executeQuery_events in Hev as [_ [Hev|[entries Hev]]]; [discriminate Hev|].
    by injection Hev as -> -> -> ->. }
  apply events_bind in Hev as [Hev|(? & _ & Hev)]; [|by apply elem_of_nil in Hev].
  destruct (negb (Routes.truthy persisted) && Routes.truthy query');
    [|by apply elem_of_nil in Hev].
  apply events_bind in Hev as [Hev|(hash & _ & Hev)]; [by apply elem_of_nil in Hev|].
  destruct (Routes.truthy hash); [|by apply elem_of_nil in Hev].
  apply try_saveQuery_events in Hev as [Hev|[err Hev]]; discriminate Hev.
Qed.

Lemma returned_events called ev :
  ev ∈ Routes.events (Routes.returned called) →
  ∃ run, called = Routes.Async run ∧ ev ∈ Routes.events run.
Proof.
  destruct called as [err|run]; simpl; [by intros ?%elem_of_nil|].
  intros Hev. apply events_bind in Hev as [Hev|(? & _ & Hev)];
    [by exists run|by apply elem_of_nil in Hev].
Qed.

Lemma execute_executes_with_body opts body request reply run q c v o :
  Routes.execute opts body request reply = Routes.Async run →
  Routes.Executed q c v o ∈ Routes.events run →
  Routes.destructure body "variables" = Routes.Return v.
Proof.
  unfold Routes.execute. destruct (Routes.persistedQueryProvider opts) as [provider|].
  - intros [= <-] Hev. by apply executePersistedQuery_executes_with_body in Hev as [? _].
  - unfold Routes.executeRegularQuery.
    destruct (Routes.destructure body "query") as [query|]; [|discriminate].
    destruct (Routes.destructure body "operationName") as [operationName|];
      destruct (Routes.destructure body "variables") as [variables|]; try discriminate.
    intros [= <-] Hev.
    apply executeQuery_events in Hev as [_ [Hev|[entries Hev]]]; [discriminate Hev|].
    by injection Hev as -> -> -> ->.
Qed.

(** X27: the [GET] handler never executes with the [variables] text of
    the query string.  When that text is not empty, what is executed,
    with or without a persisted-query provider, has for variables the
    value [JSON.parse] made of it; and when [JSON.parse] throws, nothing
    is executed and a [BadRequest] with the parser's message is sent. *)
Theorem get_executes_with_parsed_variables
        (JSON_parse : JsVal → Routes.outcome JsVal)
        (opts : Routes.Options) (request : Routes.Request) (reply : Routes.Reply)
        (text : JsVal)
        (Hvalid : Routes.validationError request = None)
        (Htext : assoc "variables" (Routes.req_query request) = Some text)
        (Hpresent : Routes.truthy text = true) :
  match JSON_parse text with
  | Routes.Return parsed =>
      ∀ query context variables operationName,
        Routes.Executed query context variables operationName
        ∈ Routes.events (Routes.get_handler JSON_parse opts request reply) →
        variables = parsed
  | Routes.Raise err =>
      Routes.get_handler JSON_parse opts request reply
      = Routes.mkRun [Routes.Informed err]
          (Routes.Return (Routes.Sent (Routes.BadRequest (Some (Routes.err_message err)))))
  end.
Proof.
  unfold Routes.get_handler. rewrite Hvalid, Htext. simpl. rewrite Hpresent.
  destruct (JSON_parse text) as [parsed|err]; [|reflexivity].
  intros q c v o Hev.
  apply returned_events in Hev as (run & Hrun & Hev).
  pose proof (execute_executes_with_body _ _ _ _ _ _ _ _ _ Hrun Hev) as Hvariables.
  simpl in Hvariables. rewrite assoc_obj_set, decide_True in Hvariables by done.
  simpl in Hvariables. by injection Hvariables as <-.
Qed.

Lemma get_executes_with_parsed_variables_witness :
  Routes.get_handler RoutesFixtures.parse_nothing RoutesFixtures.without_provider
    (Routes.mkRequest None [("query", JString "{ me }"); ("variables", JString "}")] JNull)
    RoutesFixtures.echo
  = Routes.mkRun
      [Routes.Informed (Routes.engine_error "Unexpected token } in JSON at position 0")]
      (Routes.Return
         (Routes.Sent
            (Routes.BadRequest (Some "Unexpected token } in JSON at position 0")))).
Proof.
  apply (get_executes_with_parsed_variables RoutesFixtures.parse_nothing
           RoutesFixtures.without_provider
           (Routes.mkRequest None [("query", JString "{ me }"); ("variables", JString "}")]
                             JNull)
           RoutesFixtures.echo (JString "}")); reflexivity.
Defined.

(** * The [representations] variable of a request *)

Lemma assoc_forwarded (names : gset string) (k : string) (v : JsVal)
      (values : list (string * JsVal)) :
  assoc k (MakeResolver.forwarded_variables names values) = Some v →
  assoc k values = Some v.
Proof.
  unfold MakeResolver.forwarded_variables.
  induction values as [|[k' v'] values IH]; simpl; [done|].
  rewrite filter_cons. simpl. destruct (decide (k' ∈ names)) as [Hin|Hout]; simpl.
  - destruct (decide (k = k')); [done|apply IH].
  - intros Hk. destruct (decide (k = k')) as [->|_]; [|by apply IH].
    exfalso. clear IH. revert Hk.
    induction values as [|[k'' v''] values IH]; simpl; [done|].
    rewrite filter_cons. simpl. destruct (decide (k'' ∈ names)) as [Hin|_]; simpl.
    + destruct (decide (k' = k'')) as [->|_]; [done|apply IH].
    + apply IH.
Qed.

(** Whatever the resolver of the gateway module returns is the promise
    of one request to its service. *)
Lemma call_sends r parent args context info p :
  Gateway.call r parent args context info = Ok p →
  ∃ svc operation variables,
    Gateway.resolver_service r = Some svc
    ∧ Gateway.resolver_request r parent info = Ok (operation, variables)
    ∧ p = then_ (Gateway.request svc (mkBody (Printed operation []) (Some variables)))
                (Gateway.transform r info).
Proof.
  unfold Gateway.call.
  destruct (Gateway.resolver_request r parent info) as [[operation variables]|] eqn:Hreq;
    simpl; [|discriminate].
  unfold Gateway.sendServiceRequest.
  destruct (Gateway.resolver_service r) as [svc|]; simpl; [|discriminate].
  intros [= <-]. by exists svc, operation, variables.
Qed.

Lemma call_returns r svc parent args context info selections selections' :
  Gateway.resolver_service r = Some svc →
  Gateway.field_selections info = Ok selections →
  Gateway.removeNonServiceTypeFields selections (Some svc)
    (getNamedType (Gateway.returnType info)).1 = Ok selections' →
  (∀ s, r = Gateway.ReferenceResolver s → parent ≠ JUndefined ∧ parent ≠ JNull) →
  ∃ p, Gateway.call r parent args context info = Ok p.
Proof.
  intros Hsvc Hsel Hrewritten Hparent. unfold Gateway.call, Gateway.resolver_request.
  destruct r as [s|s t|s|tag]; simpl in Hsvc; [| | |discriminate]; subst s;
    rewrite Hsel; simpl; rewrite Hrewritten; simpl; try by eexists.
  destruct (Hparent _ eq_refl) as [Hu Hn].
  destruct (get_prop_total parent (Gateway.fieldName info) Hu Hn) as [field ->].
  simpl. by eexists.
Qed.

Lemma makeResolver_sends fuel cfg parent args context info p :
  MakeResolver.makeResolver fuel cfg parent args context info = Some (Ok p) →
  ∃ body,
    MakeResolver.resolver_body fuel cfg parent info = Some (Ok body)
    ∧ p = then_ (MakeResolver.sendRequest (MakeResolver.service cfg) body)
                (MakeResolver.transformData cfg).
Proof.
  unfold MakeResolver.makeResolver.
  destruct (MakeResolver.resolver_body fuel cfg parent info) as [[body|]|];
    try discriminate.
  intros [= <-]. by exists body.
Qed.

Lemma makeResolver_returns fuel cfg parent args context info fieldNode rest
      fieldSelections definitions :
  MakeResolver.fieldNodes info = fieldNode :: rest →
  selectionSet fieldNode = Some fieldSelections →
  rewritable (MakeResolver.typeMap (MakeResolver.service cfg))
             (Some (MakeResolver.schema info))
             (getNamedType (MakeResolver.returnType info)).1 fieldSelections →
  forallb spread_free fieldSelections = true →
  variableDefinitions (MakeResolver.originalOperation info) = Some definitions →
  (MakeResolver.isReference cfg = true → parent ≠ JUndefined ∧ parent ≠ JNull) →
  ∃ p, MakeResolver.makeResolver (S fuel) cfg parent args context info = Some (Ok p).
Proof.
  intros Hnode Hset Haccepted Hspreads Hdefinitions Hparent.
  destruct (removeNonServiceTypeFields_returns _ _ _ _ Haccepted)
    as (selections & Hselections & _).
  assert (Hused : MakeResolver.getFragmentNamesInSelection selections = Ok []).
  { unfold MakeResolver.getFragmentNamesInSelection.
    destruct (mapM_all_nil MakeResolver.fragment_names_in selections)
      as (names & -> & Hconcat).
    - eapply spread_free_names; [exact Hselections|]. by apply forallb_true_Forall.
    - simpl. by rewrite Hconcat. }
  assert (∃ vars, MakeResolver.payload_variables cfg
                    (MakeResolver.variableNamesToDefine selections fieldNode) parent info
                  = Ok vars) as [vars Hvars].
  { unfold MakeResolver.payload_variables.
    destruct (MakeResolver.isReference cfg).
    - destruct (Hparent eq_refl) as [Hu Hn].
      destruct (get_prop_total parent (MakeResolver.fieldName info) Hu Hn) as [x ->].
      by eexists.
    - destruct (MakeResolver.isQuery cfg); by eexists. }
  unfold MakeResolver.makeResolver, MakeResolver.resolver_body.
  rewrite Hnode, Hset, Hselections, Hdefinitions, Hused. simpl. rewrite Hvars. simpl.
  by eexists.
Qed.

(** C4, as the code has it.  In both generations a resolver that returns
    a promise returns the promise of one request to its service, and the
    variables of that request hold [representations = [parent[fieldName]]]
    for an entity-reference resolver and [representations = [parent]] for
    a field-resolver.  A root-delegated resolver of the gateway module
    sends no variable at all; the one of [make-resolver.js] writes no
    [representations] of its own, so a [representations] among its
    variables is the client's own variable of that name, forwarded.  And
    the resolvers do return that promise: in the gateway module whenever
    the field has selections its rewriter accepts, in [make-resolver.js]
    on selections without fragment spreads that its rewriter accepts, in
    an operation that has variable definitions; an entity reference
    needs a parent that is not [null] or [undefined]. *)
Theorem representations_is_the_parent_alone :
  (∀ r parent args context info p,
     Gateway.call r parent args context info = Ok p →
     ∃ svc operation variables,
       Gateway.resolver_service r = Some svc
       ∧ p = then_ (Gateway.request svc (mkBody (Printed operation []) (Some variables)))
                   (Gateway.transform r info)
       ∧ match r with
         | Gateway.ReferenceResolver _ =>
             ∃ field, get_prop parent (Gateway.fieldName info) = Ok field
                      ∧ variables = [("representations", JArray [field])]
         | Gateway.FieldResolver _ _ => variables = [("representations", JArray [parent])]
         | Gateway.ResolveQuery _ => variables = []
         | Gateway.Other _ => False
         end)
  ∧ (∀ r svc parent args context info selections selections',
       Gateway.resolver_service r = Some svc →
       Gateway.field_selections info = Ok selections →
       Gateway.removeNonServiceTypeFields selections (Some svc)
         (getNamedType (Gateway.returnType info)).1 = Ok selections' →
       (∀ s, r = Gateway.ReferenceResolver s → parent ≠ JUndefined ∧ parent ≠ JNull) →
       ∃ p, Gateway.call r parent args context info = Ok p)
  ∧ (∀ fuel cfg parent args context info p,
       MakeResolver.makeResolver fuel cfg parent args context info = Some (Ok p) →
       ∃ body vars,
         p = then_ (MakeResolver.sendRequest (MakeResolver.service cfg) body)
                   (MakeResolver.transformData cfg)
         ∧ variables body = Some vars
         ∧ (MakeResolver.isReference cfg = true →
              ∃ field, get_prop parent (MakeResolver.fieldName info) = Ok field
                       ∧ assoc "representations" vars = Some (JArray [field]))
         ∧ (MakeResolver.isReference cfg = false → MakeResolver.isQuery cfg = false →
              assoc "representations" vars = Some (JArray [parent]))
         ∧ (MakeResolver.isReference cfg = false → MakeResolver.isQuery cfg = true →
              ∀ value, assoc "representations" vars = Some value →
                       assoc "representations" (MakeResolver.variableValues info)
                       = Some value))
  ∧ (∀ fuel cfg parent args context info fieldNode rest fieldSelections definitions,
       MakeResolver.fieldNodes info = fieldNode :: rest →
       selectionSet fieldNode = Some fieldSelections →
       rewritable (MakeResolver.typeMap (MakeResolver.service cfg))
                  (Some (MakeResolver.schema info))
                  (getNamedType (MakeResolver.returnType info)).1 fieldSelections →
       forallb spread_free fieldSelections = true →
       variableDefinitions (MakeResolver.originalOperation info) = Some definitions →
       (MakeResolver.isReference cfg = true → parent ≠ JUndefined ∧ parent ≠ JNull) →
       ∃ p, MakeResolver.makeResolver (S fuel) cfg parent args context info
            = Some (Ok p)).
Proof.
  split; [|split; [|split]].
  - intros r parent args context info p Hcall.
    destruct (call_sends r parent args context info p Hcall)
      as (svc & operation & variables & Hsvc & Hreq & ->).
    exists svc, operation, variables. split; [done|]. split; [done|].
    revert Hreq. unfold Gateway.resolver_request.
    destruct r as [s|s t|s|tag]; [| | |discriminate];
      (destruct (Gateway.field_selections info) as [sels|]; simpl; [|discriminate]);
      (destruct (Gateway.removeNonServiceTypeFields sels s _) as [sels'|]; simpl;
       [|discriminate]).
    + by intros [= <- <-].
    + by intros [= <- <-].
    + destruct (get_prop parent (Gateway.fieldName info)) as [field|] eqn:Hf; simpl;
        [|discriminate].
      intros [= <- <-]. by exists field.
  - intros r svc parent args context info selections selections'. apply call_returns.
  - intros fuel cfg parent args context info p Hreturns.
    destruct (makeResolver_sends fuel cfg parent args context info p Hreturns)
      as (body & Hbody & ->).
    destruct (resolver_body_variables fuel cfg parent info body Hbody)
      as (names & vars & Hvars & Hpayload).
    destruct (payload_variables_spec cfg names parent info vars Hpayload)
      as (Href & Hfield & Hquery).
    exists body, vars. split; [done|]. split; [done|]. split; [done|]. split; [done|].
    intros Hr Hq value. rewrite (Hquery Hr Hq). apply assoc_forwarded.
  - intros fuel cfg parent args context info fieldNode rest fieldSelections definitions.
    apply makeResolver_returns.
Qed.

Lemma representations_is_the_parent_alone_witness :
  (∃ p svc operation,
     Gateway.call (Gateway.FieldResolver (Some Fixtures.products_answering) "Review")
       Fixtures.review_7 JUndefined JUndefined Fixtures.product_info = Ok p
     ∧ p = then_ (Gateway.request svc
                    (mkBody (Printed operation [])
                            (Some [("representations", JArray [Fixtures.review_7])])))
                 (Gateway.transform
                    (Gateway.FieldResolver (Some Fixtures.products_answering) "Review")
                    Fixtures.product_info))
  ∧ (∃ p body vars,
       MakeResolver.makeResolver 1 (Fixtures.mr_config MakeResolver.EntityReference)
         Fixtures.parent_with_user JUndefined JUndefined Fixtures.GetUser_info
       = Some (Ok p)
       ∧ p = then_ (MakeResolver.sendRequest Fixtures.mr_users body)
                   Fixtures.transform_entity
       ∧ variables body = Some vars
       ∧ assoc "representations" vars
         = Some (JArray [JObject [("__typename", JString "User"); ("id", JString "1")]])).
Proof.
  destruct representations_is_the_parent_alone as (Hsends & Hcalls & Hmake & Hreturns).
  split.
  - destruct (Hcalls (Gateway.FieldResolver (Some Fixtures.products_answering) "Review")
                Fixtures.products_answering Fixtures.review_7 JUndefined JUndefined
                Fixtures.product_info [Fixtures.leaf "name"]
                [Fixtures.leaf "name"; typename_field]) as [p Hp].
    + reflexivity.
    + reflexivity.
    + vm_compute. reflexivity.
    + discriminate.
    + destruct (Hsends _ _ _ _ _ _ Hp) as (svc & operation & variables & _ & -> & Hvars).
      simpl in Hvars. subst variables.
      eexists. exists svc, operation. split; [exact Hp|reflexivity].
  - destruct (Hreturns 0 (Fixtures.mr_config MakeResolver.EntityReference)
                Fixtures.parent_with_user JUndefined JUndefined Fixtures.GetUser_info
                Fixtures.user_field [] [Fixtures.leaf "name"]
                [VariableDefinition "userId" (NON_NULL_TYPE (NAMED_TYPE "ID")) []])
      as [p Hp].
    + reflexivity.
    + reflexivity.
    + constructor; [intros _; eexists; reflexivity|].
      repeat constructor. by eapply rewritable_leaf.
    + reflexivity.
    + reflexivity.
    + intros _. split; discriminate.
    + destruct (Hmake _ _ _ _ _ _ _ Hp) as (body & vars & -> & Hvars & Href & _).
      destruct (Href eq_refl) as (field & Hfield & Hassoc).
      vm_compute in Hfield. injection Hfield as <-.
      eexists. exists body, vars. split; [exact Hp|]. by repeat split.
Defined.

(** C4 as stated fails in its last clause for [make-resolver.js]: the
    root-delegated resolver of a field that passes the client's variable
    [$representations] under an argument of that name sends a
    [representations] variable, the client's. *)
Lemma root_delegated_request_can_carry_representations :
  MakeResolver.isQuery (Fixtures.mr_config MakeResolver.RootDelegate) = true
  ∧ MakeResolver.isReference (Fixtures.mr_config MakeResolver.RootDelegate) = false
  ∧ MakeResolver.makeResolver 1 (Fixtures.mr_config MakeResolver.RootDelegate)
      JUndefined JUndefined JUndefined MoreFixtures.Find_info
    = Some (Ok (then_
         (MakeResolver.sendRequest Fixtures.mr_users
            (mkBody
               (Printed
                  (Document
                     [OperationDefinition "query" "Query_user"
                        (Some [VariableDefinition "representations"
                                 (NON_NULL_TYPE (LIST_TYPE (NON_NULL_TYPE
                                                              (NAMED_TYPE "_Any")))) []])
                        []
                        [Selection FIELD None (Some "user")
                           (Some [Argument "representations" (VARIABLE "representations")])
                           [] None
                           (Some [Fixtures.leaf "name"; typename_field])]])
                  [])
               (Some [("representations", JArray [JObject [("id", JString "1")]])])))
         (Fixtures.transform_root "user"))).
Proof. split; [reflexivity|]. split; [reflexivity|]. vm_compute. reflexivity. Qed.
